(** * Orbit determination manager of Tudat: the estimation engine

    A shallow embedding of [orbitDeterminationManager.h]
    (namespace [tudat::simulation_setup]): the weight-vector assembler
    [getConcatenatedWeightsVector], the class [EstimationConvergenceChecker]
    and the class [OrbitDeterminationManager] with
    [calculateObservationMatrixAndResiduals], [normalizeObservationMatrix],
    [estimateParameters], [resetParameterEstimate] and [getObservationManager],
    and further its constructor with [initializeOrbitDeterminationManager],
    [getObservationManagers], [getObservationSimulators],
    [getNumberOfObservationsPerLinkEnd], [getNumberOfObservationsPerObservable]
    and [convertPodInput].

    Conventions of the embedding.
    - The scalar type of the templates ([ObservationScalarType], [double]) is
      a type class [Scalar] that only bundles the operations the code uses.  Two
      instances are given: [binary64], the IEEE doubles the program runs on
      (Rocq's primitive floats), on which the code is executed and for which
      the statements about order, bounds and NaN are proved; and [rational],
      exact rational arithmetic, for the statements that say they are about
      exact arithmetic.
    - [int], [unsigned int] and [size_t] values are integers in [Z]; narrowing
      conversions and unsigned wrap-around are written out.
    - [std::map] is a list of key/value pairs in increasing key order, which is
      the order its iterators visit; [observationManagers_], which the code
      only looks up and inserts into, is a [gmap].
    - Eigen vectors are lists, matrices are lists of rows.  Eigen's size
      preconditions (its [eigen_assert]s) are not failures of the model: the
      operations are total on lists, and a theorem that depends on sizes says
      so in its hypotheses.  A list of rows without a row does not record a
      number of columns: the statements that a run returns are for inputs that
      hold an observation, for which the matrix of partials has a row.
    - Types and functions that the header uses and other files of Tudat
      declare are the fields of the classes [External], [Accessors] and
      [Construction]; the functions are taken to return.  What the header itself can do other than return, a call
      through a null pointer and a [throw], is an [Outcome].
    - Output on [std::cout] is not modelled.

    The file has two parts: the definitions, which follow the header from top
    to bottom and end with a small model to run the code on, and the
    properties. *)

From Stdlib Require Import ZArith QArith Qabs Lqa Floats Sorted.
From stdpp Require Import base option list sorting gmap strings pretty.

Set Default Proof Using "Type*".
Local Open Scope Z_scope.

(** ** Machine integers *)

(** Conversion of an integer value to [int] (32 bits, two's complement). *)
Definition to_int (z : Z) : Z := (z + 2 ^ 31) `mod` 2 ^ 32 - 2 ^ 31.

(** Conversion of an integer value to [unsigned int] (32 bits). *)
Definition to_unsigned_int (z : Z) : Z := z `mod` 2 ^ 32.

(** Conversion of an integer value to [size_t], taken to have 64 bits as
    [ptrdiff_t] has. *)
Definition to_size_t (z : Z) : Z := z `mod` 2 ^ 64.

Definition INT_MAX : Z := 2 ^ 31 - 1.

(** ** Scalars *)

(** The operations of the scalar type that the code uses.  [dlt] is
    [operator<], [fabs] is [std::fabs] and [numeric_limits_max] is
    [std::numeric_limits< double >::max( )]. *)
Class Scalar := {
  double : Type;
  dzero : double;
  dadd : double → double → double;
  dsub : double → double → double;
  dmul : double → double → double;
  ddiv : double → double → double;
  fabs : double → double;
  dlt : double → double → bool;
  numeric_limits_max : double
}.

(** IEEE 754 binary64, the scalar type of the compiled program. *)
Definition binary64 : Scalar := {|
  double := float;
  dzero := 0%float;
  dadd := PrimFloat.add;
  dsub := PrimFloat.sub;
  dmul := PrimFloat.mul;
  ddiv := PrimFloat.div;
  fabs := PrimFloat.abs;
  dlt := PrimFloat.ltb;
  numeric_limits_max := 0x1.fffffffffffffp1023%float
|}.

(** [operator<] on rationals. *)
Definition Qltb (x y : Q) : bool := negb (Qle_bool y x).

(** Exact rational arithmetic: the same operations without rounding.  The
    largest double is the rational [2^1024 - 2^971]. *)
Definition rational : Scalar := {|
  double := Q;
  dzero := 0%Q;
  dadd := Qplus;
  dsub := Qminus;
  dmul := Qmult;
  ddiv := Qdiv;
  fabs := Qabs;
  dlt := Qltb;
  numeric_limits_max := inject_Z (2 ^ 1024 - 2 ^ 971)
|}.

(** ** Doubles as numbers *)

(** What the statements about doubles need besides the operations: through
    [Prim2SF], which gives sign, mantissa and exponent of a primitive float, a
    double that is a zero or a finite value, and one that is not a number. *)
Definition SFis_finite (x : spec_float) : bool :=
  match x with
  | S754_zero _ | S754_finite _ _ _ => true
  | _ => false
  end.

Definition SFis_nan (x : spec_float) : bool :=
  match x with
  | S754_nan => true
  | _ => false
  end.

(** The place of a double in the order of the doubles: the value of a finite
    double in units of [2^-1074], the smallest positive double, which is an
    integer below [2^2098] in magnitude; [2^2100] and [-2^2100] for the
    infinities.  A NaN has no place in the order; it is given 0. *)
Definition SFscaled (x : spec_float) : Z :=
  match x with
  | S754_finite s m e => cond_Zopp s (Zpos m * 2 ^ (e + 1074))
  | S754_infinity s => cond_Zopp s (2 ^ 2100)
  | _ => 0
  end.

Definition scaled (x : float) : Z := SFscaled (Prim2SF x).

(** ** The convergence checker *)

Section ConvergenceChecker.
Context {Sc : Scalar}.

(** The data members of [EstimationConvergenceChecker]. *)
Record EstimationConvergenceChecker := {
  maximumNumberOfIterations_ : Z;             (* int *)
  minimumResidualChange_ : double;
  minimumResidual_ : double;
  numberOfIterationsWithoutImprovement_ : Z   (* unsigned int *)
}.

(** The constructor: its first parameter is an [unsigned int] stored in an
    [int], its last an [int] stored in an [unsigned int]. *)
Definition newEstimationConvergenceChecker
    (maximumNumberOfIterations : Z) (minimumResidualChange minimumResidual : double)
    (numberOfIterationsWithoutImprovement : Z) : EstimationConvergenceChecker :=
  {| maximumNumberOfIterations_ := to_int (to_unsigned_int maximumNumberOfIterations);
     minimumResidualChange_ := minimumResidualChange;
     minimumResidual_ := minimumResidual;
     numberOfIterationsWithoutImprovement_ :=
       to_unsigned_int (to_int numberOfIterationsWithoutImprovement) |}.

(** [std::max_element]: the position of the first largest element, found
    with [operator<]; [largest] is the position of the candidate [lv] and [i]
    the position of the head of [rest]. *)
Fixpoint max_element_from (largest : nat) (lv : double) (i : nat) (rest : list double) : nat :=
  match rest with
  | [] => largest
  | x :: r =>
      if dlt lv x then max_element_from i x (S i) r
      else max_element_from largest lv (S i) r
  end.

(** [std::distance( v.begin( ), std::max_element( v.begin( ), v.end( ) ) )]. *)
Definition max_element (v : list double) : nat :=
  match v with
  | [] => O
  | x :: r => max_element_from O x 1%nat r
  end.

(** [v[ i ]] and [v.at( i )] of a [std::vector< double >], read inside its
    range. *)
Definition at_ (v : list double) (i : Z) : double := nth (Z.to_nat i) v dzero.

(** The four tests of [isEstimationConverged], in the order of the code. *)
Definition maximumIterationsReached
    (c : EstimationConvergenceChecker) (numberOfIterations : Z) : bool :=
  numberOfIterations >=? maximumNumberOfIterations_ c.

(** The code reads the last entry of the history, and is not to be called
    with an empty one; [estimateParameters] never does. *)
Definition residualLevelAchieved
    (c : EstimationConvergenceChecker) (rmsResidualHistory : list double) : bool :=
  dlt (at_ rmsResidualHistory (Z.of_nat (length rmsResidualHistory) - 1)) (minimumResidual_ c).

(** The difference is taken between a [ptrdiff_t] and a [size_t], hence as a
    [size_t], and compared with an [unsigned int]. *)
Definition tooManyIterationsWithoutImprovement
    (c : EstimationConvergenceChecker) (rmsResidualHistory : list double) : bool :=
  to_size_t (Z.of_nat (max_element rmsResidualHistory) - Z.of_nat (length rmsResidualHistory))
    <? numberOfIterationsWithoutImprovement_ c.

Definition residualChangeBelowMinimum
    (c : EstimationConvergenceChecker) (rmsResidualHistory : list double) : bool :=
  let size := Z.of_nat (length rmsResidualHistory) in
  if 1 <? size then
    dlt (fabs (dsub (at_ rmsResidualHistory (size - 1)) (at_ rmsResidualHistory (size - 2))))
        (minimumResidualChange_ c)
  else false.

(** [EstimationConvergenceChecker::isEstimationConverged]. *)
Definition isEstimationConverged (c : EstimationConvergenceChecker)
    (numberOfIterations : Z) (rmsResidualHistory : list double) : bool :=
  let isConverged := false in
  let isConverged :=
    if maximumIterationsReached c numberOfIterations then true else isConverged in
  let isConverged :=
    if residualLevelAchieved c rmsResidualHistory then true else isConverged in
  let isConverged :=
    if tooManyIterationsWithoutImprovement c rmsResidualHistory then true else isConverged in
  let isConverged :=
    if residualChangeBelowMinimum c rmsResidualHistory then true else isConverged in
  isConverged.

(** The data members hold values of their C++ types. *)
Definition checker_representable (c : EstimationConvergenceChecker) : Prop :=
  - 2 ^ 31 <= maximumNumberOfIterations_ c <= INT_MAX ∧
  0 <= numberOfIterationsWithoutImprovement_ c < 2 ^ 32.

(** The three stopping conditions of the specification that the code also
    has, on a history that ends with [lastRms]. *)
Definition stoppingCondition (c : EstimationConvergenceChecker) (numberOfIterations : Z)
    (history : list double) (lastRms : double) : Prop :=
  numberOfIterations >= maximumNumberOfIterations_ c
  ∨ dlt lastRms (minimumResidual_ c) = true
  ∨ ∃ earlier secondLast,
      history = earlier ++ [secondLast; lastRms] ∧
      dlt (fabs (dsub lastRms secondLast)) (minimumResidualChange_ c) = true.

(** The fourth stopping condition as the specification words it: the number of
    iterations since the lowest RMS of the history was seen, against the
    threshold.  [min_element] is [std::min_element], the position of the first
    smallest element. *)
Fixpoint min_element_from (smallest : nat) (sv : double) (i : nat) (rest : list double) : nat :=
  match rest with
  | [] => smallest
  | x :: r =>
      if dlt x sv then min_element_from i x (S i) r
      else min_element_from smallest sv (S i) r
  end.

Definition min_element (v : list double) : nat :=
  match v with
  | [] => O
  | x :: r => min_element_from O x 1%nat r
  end.

Definition specified_iterationsSinceBest (rmsResidualHistory : list double) : Z :=
  Z.of_nat (length rmsResidualHistory) - 1 - Z.of_nat (min_element rmsResidualHistory).

Definition specified_tooManyIterationsWithoutImprovement
    (c : EstimationConvergenceChecker) (rmsResidualHistory : list double) : bool :=
  specified_iterationsSinceBest rmsResidualHistory >? numberOfIterationsWithoutImprovement_ c.

End ConvergenceChecker.

Arguments EstimationConvergenceChecker : clear implicits.

(** ** Eigen vectors and matrices *)

Section Linear.
Context {Sc : Scalar}.

(** [v.rows( )] and [v.size( )] of a vector, [m.rows( )] of a matrix. *)
Definition rows {A} (v : list A) : Z := Z.of_nat (length v).

(** [Eigen::VectorXd::Zero( n )]. *)
Definition Zero (n : Z) : list double := replicate (Z.to_nat n) dzero.

(** [Eigen::MatrixXd::Zero( r, c )], for [r] that is not zero: as a list of
    rows, the matrix without rows is the same for every [c]. *)
Definition MatrixZero (r c : Z) : list (list double) := replicate (Z.to_nat r) (Zero c).

(** [v.segment( start, n ) = w] on a vector and
    [m.block( start, 0, n, m.cols( ) ) = w] on a matrix: the [n] entries (rows)
    from [start] on are replaced by those of [w]. *)
Definition segment_assign {A} (v : list A) (start n : Z) (w : list A) : list A :=
  take (Z.to_nat start) v ++ w ++ drop (Z.to_nat (start + n)) v.

(** [m.block( 0, i, m.rows( ), 1 )] read as a vector. *)
Definition column (i : nat) (m : list (list double)) : list double :=
  map (λ row, nth i row dzero) m.

(** [m.block( 0, i, m.rows( ), 1 ) = v]. *)
Definition column_assign (i : nat) (v : list double) (m : list (list double))
    : list (list double) :=
  zip_with (λ row x, <[i := x]> row) m v.

(** [m.cols( )], read off the first row.  For a matrix without rows this is
    0, whatever number of columns the matrix of the code has; the code, which
    then takes [minCoeff] and [maxCoeff] of empty columns in
    [normalizeObservationMatrix], is not followed there. *)
Definition cols (m : list (list double)) : nat :=
  match m with
  | [] => O
  | row :: _ => length row
  end.

(** Coefficient-wise sum, difference and quotient, and [v / s]. *)
Definition vadd (a b : list double) : list double := zip_with dadd a b.
Definition vsub (a b : list double) : list double := zip_with dsub a b.
Definition cwiseQuotient (a b : list double) : list double := zip_with ddiv a b.
Definition divide_by (v : list double) (s : double) : list double := map (λ x, ddiv x s) v.

(** [v( i )] and [m( j, k )]. *)
Definition coeff (v : list double) (i : nat) : double := nth i v dzero.
Definition coeff2 (m : list (list double)) (j k : nat) : double := nth k (nth j m []) dzero.

(** [v.minCoeff( )] and [v.maxCoeff( )]: Eigen visits the coefficients in
    order, starting from the first, and keeps a coefficient that is smaller
    (larger) than the one held. *)
Definition minCoeff (v : list double) : double :=
  match v with
  | [] => dzero
  | x :: r => fold_left (λ res value, if dlt value res then value else res) r x
  end.

Definition maxCoeff (v : list double) : double :=
  match v with
  | [] => dzero
  | x :: r => fold_left (λ res value, if dlt res value then value else res) r x
  end.

(** The sizes of a sequence of segments, summed. *)
Definition total_rows {A} (segments : list (list A)) : Z := rows (concat segments).

(** All rows of a matrix have the length [n]. *)
Definition row_length (n : nat) (m : list (list double)) : Prop :=
  Forall (λ row, length row = n) m.

End Linear.

(** ** Types and functions declared in other files of Tudat *)

(** [observation_models::ObservableType] is an enumeration; an enumerator is
    its number, which is also what [std::to_string] prints and what orders the
    keys of the outer maps. *)
Abbreviation ObservableType := nat (only parsing).

(** What the header takes from the rest of Tudat.  [Environment] stands for
    the objects that the manager and its collaborators share through pointers:
    the body map, the parameter set behind [parametersToEstimate_] and the
    propagated dynamics behind [variationalEquationsSolver_]. *)
Class External {Sc : Scalar} := {
  TimeType : Type;
  LinkEndType : Type;
  LinkEnds : Type;
  (** [operator<] of [LinkEnds], the order of the keys of the inner maps. *)
  LinkEnds_lt : LinkEnds → LinkEnds → Prop;
  LinkEnds_lt_strict : StrictOrder LinkEnds_lt;
  Environment : Type;
  (** [parametersToEstimate_->getFullParameterValues( )]. *)
  getFullParameterValues : Environment → list double;
  (** [parametersToEstimate_->resetParameterValues( v )]. *)
  resetParameterValues : Environment → list double → Environment;
  (** [variationalEquationsSolver_->resetParameterEstimate( v, flag )]. *)
  solver_resetParameterEstimate : Environment → list double → bool → Environment;
  (** [...->getDynamicsSimulatorBase( )->getEquationsOfMotionNumericalSolutionBase( )]
      and [...->getDependentVariableNumericalSolutionBase( )]. *)
  DynamicsHistory : Type;
  getEquationsOfMotionNumericalSolutionBase : Environment → DynamicsHistory;
  getDependentVariableNumericalSolutionBase : Environment → DynamicsHistory;
  (** [linear_algebra::performLeastSquaresAdjustmentFromInformationMatrix]. *)
  performLeastSquaresAdjustmentFromInformationMatrix :
    list (list double) → list double → list double → list (list double) →
    list double * list (list double);
  (** [linear_algebra::getVectorEntryRootMeanSquare]. *)
  getVectorEntryRootMeanSquare : list double → double
}.

(** How a call can end other than by returning: [operator->] of a null
    [boost::shared_ptr] (a failed assertion, or undefined behaviour when
    assertions are off), and a [std::runtime_error] with its message. *)
Inductive Failure :=
  | NullPointerDereference
  | runtime_error (what : string).

Inductive Outcome (A : Type) :=
  | Returns (a : A)
  | Fails (f : Failure).
Arguments Returns {A} a.
Arguments Fails {A} f.

(** [SingleObservablePodInputType], [PodInputType] and the type of the weights,
    as the sequences their iterators visit. *)
Abbreviation SingleObservablePodInputType :=
  (list (LinkEnds * (list double * (list TimeType * LinkEndType)))).

Abbreviation PodInputType := (list (ObservableType * SingleObservablePodInputType)).

Abbreviation WeightsDataStructure := (list (ObservableType * list (LinkEnds * list double))).

(** One segment of the observations: its two keys, the observed values, the
    times and the reference link end. *)
Abbreviation Segment :=
  (ObservableType * LinkEnds * (list double * (list TimeType * LinkEndType)))%type.

Section OrbitDetermination.
Context {Sc : Scalar} {Ext : External}.

(** An observation manager is its virtual member function
    [computeObservationsWithPartials( times, linkEnds, linkEndAssociatedWithTime )],
    which reads the shared objects. *)
Record ObservationManagerBase := {
  computeObservationsWithPartials :
    Environment → list TimeType → LinkEnds → LinkEndType → list double * list (list double)
}.

(** The invariant of a [std::map]: the keys increase strictly along it. *)
Definition std_map_ordered {K V} (lt : K → K → Prop) (m : list (K * V)) : Prop :=
  StronglySorted lt (m.*1).

(** *** getConcatenatedWeightsVector *)

Definition getConcatenatedWeightsVector (weightsData : WeightsDataStructure) : list double :=
  (* Get total required size of weights vector *)
  let totalNumberOfObservations :=
    fold_left (λ total observablesIterator,
      fold_left (λ total dataIterator, to_int (total + rows dataIterator.2))
                observablesIterator.2 total)
      weightsData 0 in
  let concatenatedWeights := Zero totalNumberOfObservations in
  (* Iterate over all observations and concatenate the weight vectors. *)
  let currentIndex := 0 in
  (fold_left (λ state observablesIterator,
     fold_left (λ state dataIterator,
        let concatenatedWeights := state.1 in
        let currentIndex := state.2 in
        (segment_assign concatenatedWeights currentIndex (rows dataIterator.2) dataIterator.2,
         to_int (currentIndex + rows dataIterator.2)))
       observablesIterator.2 state)
     weightsData (concatenatedWeights, currentIndex)).1.

(** *** The manager, failures and the monad of its member functions *)

(** The data members of [OrbitDeterminationManager].  A null
    [boost::shared_ptr] is [None].  [variationalEquationsSolver_] is set by
    [initializeOrbitDeterminationManager] exactly when
    [integrateAndEstimateOrbit_] is, and is null otherwise: it is not a field of
    its own. *)
Record OrbitDeterminationManager := {
  integrateAndEstimateOrbit_ : bool;
  environment : Environment;
  observationManagers_ : gmap ObservableType (option ObservationManagerBase);
  currentParameterEstimate_ : list double
}.

(** A non-const member function: it may change the data members, and returns
    or fails. *)
Definition Member (A : Type) : Type :=
  OrbitDeterminationManager → OrbitDeterminationManager * Outcome A.

Definition ret {A} (a : A) : Member A := λ this, (this, Returns a).

Definition bind {A B} (c : Member A) (k : A → Member B) : Member B :=
  λ this,
    match c this with
    | (this', Returns a) => k a this'
    | (this', Fails f) => (this', Fails f)
    end.

Notation "'do' x <- c ; k" := (bind c (λ x, k))
  (at level 10, x pattern, c at level 100, k at level 200).

(** A loop over a sequence that threads a value. *)
Fixpoint for_each {X V} (body : X → V → Member V) (xs : list X) (v : V) : Member V :=
  match xs with
  | [] => ret v
  | x :: xs' => do v' <- body x v; for_each body xs' v'
  end.

(** [observationManagers_[ observableType ]]: [operator[]] of [std::map]
    inserts a null pointer under a key that is absent. *)
Definition observationManagers_subscript (observableType : ObservableType)
    : Member (option ObservationManagerBase) :=
  λ this,
    match observationManagers_ this !! observableType with
    | Some pointer => (this, Returns pointer)
    | None =>
        ({| integrateAndEstimateOrbit_ := integrateAndEstimateOrbit_ this;
            environment := environment this;
            observationManagers_ := <[observableType := None]> (observationManagers_ this);
            currentParameterEstimate_ := currentParameterEstimate_ this |},
         Returns None)
    end.

(** [operator->] of a [boost::shared_ptr]. *)
Definition arrow {A} (pointer : option A) : Member A :=
  λ this,
    match pointer with
    | Some object => (this, Returns object)
    | None => (this, Fails NullPointerDereference)
    end.

Definition get_environment : Member Environment := λ this, (this, Returns (environment this)).

(** *** getObservationManager *)

Definition getObservationManager (this : OrbitDeterminationManager)
    (observableType : ObservableType) : Outcome (option ObservationManagerBase) :=
  (* Check if manager exists for requested observable type. *)
  match observationManagers_ this !! observableType with
  | None =>
      Fails (runtime_error ("Error when retrieving observation manager of type " +:+
                            pretty observableType +:+ ", manager not found"))
  | Some pointer => Returns pointer
  end.

(** *** getNumberOfObservationsPerObservable *)

(** The body of the loop over the observable types; the value threaded through
    the loop is [numberOfObservations] and [totalNumberOfObservations]. *)
Definition countForObservable (state : gmap ObservableType Z * Z)
    (observablesIterator : ObservableType * SingleObservablePodInputType)
    : gmap ObservableType Z * Z :=
  let numberOfObservations := state.1 in
  let totalNumberOfObservations := state.2 in
  (* Initialize number of observations for current observable *)
  let numberOfObservations := <[observablesIterator.1 := 0]> numberOfObservations in
  (* Iterate over all link ends. *)
  let numberOfObservations :=
    fold_left (λ numberOfObservations dataIterator,
      <[observablesIterator.1 :=
          to_int (numberOfObservations !!! observablesIterator.1 + rows dataIterator.2.1)]>
        numberOfObservations)
      observablesIterator.2 numberOfObservations in
  (* Add to total number of observations. *)
  (numberOfObservations,
   to_int (totalNumberOfObservations + numberOfObservations !!! observablesIterator.1)).

Definition getNumberOfObservationsPerObservable (observationsAndTimes : PodInputType)
    : gmap ObservableType Z * Z :=
  fold_left countForObservable observationsAndTimes (∅, 0).

(** *** calculateObservationMatrixAndResiduals *)

(** The body of the inner loop: one set of link ends of one observable type.
    The value threaded through the loops is [residualsAndPartials] and
    [startIndex]. *)
Definition calculateForLinkEnds (observableType : ObservableType) (parameterVectorSize : Z)
    (dataIterator : LinkEnds * (list double * (list TimeType * LinkEndType)))
    (state : (list double * list (list double)) * Z)
    : Member ((list double * list (list double)) * Z) :=
  let residualsAndPartials := state.1 in
  let startIndex := state.2 in
  let simulationInputTime := dataIterator.2.2.1 in
  (* Compute estimated ranges and range partials from current parameter estimate. *)
  do pointer <- observationManagers_subscript observableType;
  do manager <- arrow pointer;
  do shared <- get_environment;
  let observationsWithPartials :=
    computeObservationsWithPartials manager shared
      simulationInputTime dataIterator.1 dataIterator.2.2.2 in
  (* Compute residuals for current link ends and observabel type. *)
  let residuals :=
    segment_assign residualsAndPartials.1 startIndex (rows dataIterator.2.1)
      (vsub dataIterator.2.1 observationsWithPartials.1) in
  (* Set current observation partials in matrix of all partials *)
  let partials :=
    segment_assign residualsAndPartials.2 startIndex (rows dataIterator.2.1)
      observationsWithPartials.2 in
  (* Increment current index of observation. *)
  ret ((residuals, partials), to_int (startIndex + rows dataIterator.2.1)).

Definition calculateObservationMatrixAndResiduals (observationsAndTimes : PodInputType)
    (parameterVectorSize totalObservationSize : Z)
    : Member (list double * list (list double)) :=
  (* Initialize return data. *)
  let residualsAndPartials :=
    (Zero totalObservationSize, MatrixZero totalObservationSize parameterVectorSize) in
  (* Declare variable denoting current index in vector of all observations. *)
  let startIndex := 0 in
  do final <-
    for_each (λ observablesIterator state,
        for_each (calculateForLinkEnds observablesIterator.1 parameterVectorSize)
                 observablesIterator.2 state)
      observationsAndTimes (residualsAndPartials, startIndex);
  ret final.1.

(** *** The segments of the maps, for the statements about the assembly *)

(** The segments of a map of maps in the order of its iterators, each with
    its two keys. *)
Definition segments_of {V} (m : list (ObservableType * list (LinkEnds * V)))
    : list (ObservableType * LinkEnds * V) :=
  m ≫= λ o, (λ d, (o.1, d.1, d.2)) <$> o.2.

(** The entries of a map of maps in the order of its iterators, each with the
    triple it belongs to: observable type, link ends and position in the
    segment of these.  [entries] reads the entries off a segment. *)
Definition labelled {V A} (entries : ObservableType * LinkEnds * V → list A)
    (m : list (ObservableType * list (LinkEnds * V)))
    : list ((ObservableType * LinkEnds * nat) * A) :=
  segments_of m ≫= λ seg, imap (λ k a, ((seg.1.1, seg.1.2, k), a)) (entries seg).

(** [a] is entry [k] of what [entries] reads off the segment that the map of
    maps [m] holds under the observable type [t] and the link ends [l], for
    the triple [(t, l, k)]. *)
Definition entry_of {V A} (entries : ObservableType * LinkEnds * V → list A)
    (m : list (ObservableType * list (LinkEnds * V)))
    (triple : ObservableType * LinkEnds * nat) (a : A) : Prop :=
  ∃ inner v,
    (triple.1.1, inner) ∈ m ∧ (triple.1.2, v) ∈ inner ∧
    entries (triple.1.1, triple.1.2, v) !! triple.2 = Some a.

(** The observed values of the segments of the observations. *)
Definition observed_segments (observationsAndTimes : PodInputType) : list (list double) :=
  (λ seg : Segment, seg.2.1) <$> segments_of observationsAndTimes.

(** What the manager of [managers] for the observable type of a segment
    answers, in the state [this] of the shared objects. *)
Definition answer (managers : ObservableType → ObservationManagerBase)
    (this : OrbitDeterminationManager) (seg : Segment) : list double * list (list double) :=
  computeObservationsWithPartials (managers seg.1.1) (environment this)
    seg.2.2.1 seg.1.2 seg.2.2.2.

(** The residuals of a segment: observed minus computed. *)
Definition residual_segment (managers : ObservableType → ObservationManagerBase)
    (this : OrbitDeterminationManager) (seg : Segment) : list double :=
  vsub seg.2.1 (answer managers this seg).1.

(** The rows of partials of a segment. *)
Definition partial_segment (managers : ObservableType → ObservationManagerBase)
    (this : OrbitDeterminationManager) (seg : Segment) : list (list double) :=
  (answer managers this seg).2.

(** The manager of the observable type of the segment is registered under this
    type, and answers with one value and one row of partials for each
    observation. *)
Definition manager_answers (managers : ObservableType → ObservationManagerBase)
    (this : OrbitDeterminationManager) (seg : Segment) : Prop :=
  observationManagers_ this !! seg.1.1 = Some (Some (managers seg.1.1)) ∧
  length (answer managers this seg).1 = length seg.2.1 ∧
  length (answer managers this seg).2 = length seg.2.1.

(** Both levels of a map of maps are [std::map]s. *)
Definition std_maps_ordered {V} (m : list (ObservableType * list (LinkEnds * V))) : Prop :=
  std_map_ordered lt m ∧ Forall (λ o, std_map_ordered LinkEnds_lt o.2) m.

(** The weights mirror the observations: the same observable types, under
    each of them the same sets of link ends, and under each of these as many
    weights as there are observations. *)
Definition mirrors (weightsData : WeightsDataStructure) (observationsAndTimes : PodInputType)
    : Prop :=
  (∀ t, t ∈ weightsData.*1 ↔ t ∈ observationsAndTimes.*1) ∧
  ∀ t weights observations,
    (t, weights) ∈ weightsData → (t, observations) ∈ observationsAndTimes →
    (∀ l, l ∈ weights.*1 ↔ l ∈ observations.*1) ∧
    ∀ l w d, (l, w) ∈ weights → (l, d) ∈ observations → length w = length d.1.

(** *** normalizeObservationMatrix *)

(** The body of the loop, for column [i]; the value threaded through the loop
    is [observationMatrix] and [normalizationTerms]. *)
Definition normalizeColumn (state : list (list double) * list double) (i : nat)
    : list (list double) * list double :=
  let '(observationMatrix, normalizationTerms) := state in
  let currentVector := column i observationMatrix in
  let minimum := minCoeff currentVector in
  let maximum := maxCoeff currentVector in
  let normalizationTerms :=
    if dlt maximum (fabs minimum) then <[i := minimum]> normalizationTerms
    else <[i := maximum]> normalizationTerms in
  let currentVector := divide_by currentVector (coeff normalizationTerms i) in
  (column_assign i currentVector observationMatrix, normalizationTerms).

(** The matrix is changed in place and the vector of scaling values is
    returned: the result is the pair of both.  The vector starts out
    uninitialised in the code; every entry of it is written before it is
    read. *)
Definition normalizeObservationMatrix (observationMatrix : list (list double))
    : list (list double) * list double :=
  let normalizationTerms := Zero (Z.of_nat (cols observationMatrix)) in
  fold_left normalizeColumn (seq 0 (cols observationMatrix))
            (observationMatrix, normalizationTerms).

(** The scaling value that the loop writes for a column. *)
Definition scale_factor (v : list double) : double :=
  if dlt (maxCoeff v) (fabs (minCoeff v)) then minCoeff v else maxCoeff v.

(** The state of the loop after the columns below [n]: these are divided by
    their scaling values, which are written; the others are as they were. *)
Definition normalized_below (n : nat) (m : list (list double)) (terms : list double)
    (state : list (list double) * list double) : Prop :=
  length state.1 = length m ∧ row_length (cols m) state.1 ∧ length state.2 = length terms ∧
  ∀ j,
    ((j < n)%nat →
       column j state.1 = divide_by (column j m) (scale_factor (column j m)) ∧
       coeff state.2 j = scale_factor (column j m)) ∧
    ((n <= j)%nat → column j state.1 = column j m ∧ coeff state.2 j = coeff terms j).

(** *** resetParameterEstimate *)

Definition resetParameterEstimate (newParameterEstimate : list double)
    (reintegrateVariationalEquations : bool) (this : OrbitDeterminationManager)
    : OrbitDeterminationManager :=
  {| integrateAndEstimateOrbit_ := integrateAndEstimateOrbit_ this;
     environment :=
       if integrateAndEstimateOrbit_ this then
         solver_resetParameterEstimate (environment this) newParameterEstimate
                                       reintegrateVariationalEquations
       else
         resetParameterValues (environment this) newParameterEstimate;
     observationManagers_ := observationManagers_ this;
     currentParameterEstimate_ := newParameterEstimate |}.

(** [getCurrentParameterEstimate]. *)
Definition getCurrentParameterEstimate (this : OrbitDeterminationManager) : list double :=
  currentParameterEstimate_ this.

(** *** estimateParameters *)

(** [PodInput], through the member functions that [estimateParameters]
    calls. *)
Record PodInput := {
  getObservationsAndTimes : PodInputType;
  getInitialParameterDeviationEstimate : list double;
  getInverseOfAprioriCovariance : list (list double);
  getWeightsMatrixDiagonals : WeightsDataStructure;
  getReintegrateEquationsOnFirstIteration : bool;
  getReintegrateVariationalEquations : bool;
  getSaveInformationMatrix : bool;
  getPrintOutput : bool;
  getSaveResidualsAndParametersFromEachIteration : bool;
  getSaveStateHistoryForEachIteration : bool
}.

(** [PodOutput], with its members in the order of the arguments of its
    constructor. *)
Record PodOutput := {
  parameterEstimate_ : list double;
  residuals_ : list double;
  normalizedInformationMatrix_ : list (list double);
  weightsMatrixDiagonal_ : list double;
  informationMatrixTransformationDiagonal_ : list double;
  inverseNormalizedCovarianceMatrix_ : list (list double);
  residualStandardDeviation_ : double;
  residualHistory_ : list (list double);
  parameterHistory_ : list (list double)
}.

(** The local variables of [estimateParameters] that live across
    iterations. *)
Record Locals := {
  bestResidual : double;
  bestParameterEstimate : list double;
  bestTransformationData : list double;
  bestResiduals : list double;
  bestInformationMatrix : list (list double);
  bestWeightsMatrixDiagonal : list double;
  bestInverseNormalizedCovarianceMatrix : list (list double);
  residualHistory : list (list double);
  parameterHistory : list (list double);
  dynamicsHistoryPerIteration : list DynamicsHistory;
  dependentVariableHistoryPerIteration : list DynamicsHistory;
  rmsResidualHistory : list double;
  newParameterEstimate : list double;
  oldParameterEstimate : list double;
  numberOfIterations : Z
}.

(** The inverse a priori covariance in the units of the normalized partials:
    entry [( j, k )] divided by [transformationData( j ) * transformationData( k )]. *)
Definition normalizeInverseAprioriCovariance (numberOfEstimatedParameters : Z)
    (inverseAPrioriCovariance : list (list double)) (transformationData : list double)
    : list (list double) :=
  map (λ j,
    map (λ k,
      ddiv (coeff2 inverseAPrioriCovariance j k)
           (dmul (coeff transformationData j) (coeff transformationData k)))
      (seq 0 (Z.to_nat numberOfEstimatedParameters)))
    (seq 0 (Z.to_nat numberOfEstimatedParameters)).

(** What the body of the loop computes between the call of
    [calculateObservationMatrixAndResiduals] and the update of the estimate. *)
Record Correction := {
  normalizedPartials : list (list double);
  transformationData : list double;
  leastSquaresOutput : list double * list (list double);
  parameterAddition : list double
}.

Definition computeCorrection (podInput : PodInput) (numberOfEstimatedParameters : Z)
    (residualsAndPartials : list double * list (list double)) : Correction :=
  let normalized := normalizeObservationMatrix residualsAndPartials.2 in
  let residualsAndPartials := (residualsAndPartials.1, normalized.1) in
  let transformationData := normalized.2 in
  let inverseAPrioriCovariance := getInverseOfAprioriCovariance podInput in
  let normalizedInverseAprioriCovarianceMatrix :=
    normalizeInverseAprioriCovariance numberOfEstimatedParameters
      inverseAPrioriCovariance transformationData in
  (* Perform least squares calculation for correction to parameter vector. *)
  let leastSquaresOutput :=
    performLeastSquaresAdjustmentFromInformationMatrix
      (map (take (Z.to_nat numberOfEstimatedParameters)) residualsAndPartials.2)
      residualsAndPartials.1
      (getConcatenatedWeightsVector (getWeightsMatrixDiagonals podInput))
      normalizedInverseAprioriCovarianceMatrix in
  {| normalizedPartials := residualsAndPartials.2;
     transformationData := transformationData;
     leastSquaresOutput := leastSquaresOutput;
     parameterAddition :=
       cwiseQuotient leastSquaresOutput.1
         (take (Z.to_nat numberOfEstimatedParameters) transformationData) |}.

(** The body of the loop after the call of
    [calculateObservationMatrixAndResiduals], up to and including the
    increment of [numberOfIterations]: the local variables at the end of the
    iteration. *)
Definition finishIteration (podInput : PodInput) (parameterVectorSize : Z) (l : Locals)
    (histories : list DynamicsHistory * list DynamicsHistory)
    (residualsAndPartials : list double * list (list double)) : Locals :=
  let oldParameterEstimate := newParameterEstimate l in
  let correction := computeCorrection podInput parameterVectorSize residualsAndPartials in
  let residualsAndPartials := (residualsAndPartials.1, normalizedPartials correction) in
  (* Update value of parameter vector *)
  let newParameterEstimate := vadd oldParameterEstimate (parameterAddition correction) in
  let residualHistory :=
    if getSaveResidualsAndParametersFromEachIteration podInput
    then residualHistory l ++ [residualsAndPartials.1]
    else residualHistory l in
  let parameterHistory :=
    if getSaveResidualsAndParametersFromEachIteration podInput
    then (if numberOfIterations l =? 0
          then parameterHistory l ++ [oldParameterEstimate]
          else parameterHistory l) ++ [newParameterEstimate]
    else parameterHistory l in
  let oldParameterEstimate := newParameterEstimate in
  (* Calculate mean residual for current iteration. *)
  let residualRms := getVectorEntryRootMeanSquare residualsAndPartials.1 in
  let rmsResidualHistory := rmsResidualHistory l ++ [residualRms] in
  (* If current iteration is better than previous one, update 'best' data. *)
  let better := dlt residualRms (bestResidual l) in
  {| bestResidual := if better then residualRms else bestResidual l;
     bestParameterEstimate :=
       if better then oldParameterEstimate else bestParameterEstimate l;
     bestTransformationData :=
       if better then transformationData correction else bestTransformationData l;
     bestResiduals := if better then residualsAndPartials.1 else bestResiduals l;
     bestInformationMatrix :=
       if better && getSaveInformationMatrix podInput then residualsAndPartials.2
       else bestInformationMatrix l;
     bestWeightsMatrixDiagonal :=
       if better then getConcatenatedWeightsVector (getWeightsMatrixDiagonals podInput)
       else bestWeightsMatrixDiagonal l;
     bestInverseNormalizedCovarianceMatrix :=
       if better then (leastSquaresOutput correction).2
       else bestInverseNormalizedCovarianceMatrix l;
     residualHistory := residualHistory;
     parameterHistory := parameterHistory;
     dynamicsHistoryPerIteration := histories.1;
     dependentVariableHistoryPerIteration := histories.2;
     rmsResidualHistory := rmsResidualHistory;
     newParameterEstimate := newParameterEstimate;
     oldParameterEstimate := oldParameterEstimate;
     (* Increment number of iterations *)
     numberOfIterations := numberOfIterations l + 1 |}.

(** The manager in which the residuals of an iteration are calculated: the
    one that [resetParameterEstimate] leaves when the iteration calls it, and
    the one it found otherwise. *)
Definition reintegrate (podInput : PodInput) (l : Locals) (this : OrbitDeterminationManager)
    : OrbitDeterminationManager :=
  if (numberOfIterations l >? 0) || getReintegrateEquationsOnFirstIteration podInput
  then resetParameterEstimate (newParameterEstimate l)
         (getReintegrateVariationalEquations podInput) this
  else this.

(** The body of the do-while loop. *)
Definition iteration (podInput : PodInput) (parameterVectorSize totalNumberOfObservations : Z)
    (l : Locals) : Member Locals :=
  (* Re-integrate equations of motion and variational equations with new parameter estimate. *)
  do _ <- (λ this, (reintegrate podInput l this, Returns ()));
  do histories <-
    (if getSaveStateHistoryForEachIteration podInput
     then λ this,
       if integrateAndEstimateOrbit_ this then
         (this, Returns
            (dynamicsHistoryPerIteration l ++
               [getEquationsOfMotionNumericalSolutionBase (environment this)],
             dependentVariableHistoryPerIteration l ++
               [getDependentVariableNumericalSolutionBase (environment this)]))
       else (this, Fails NullPointerDereference)
     else ret (dynamicsHistoryPerIteration l, dependentVariableHistoryPerIteration l));
  (* Calculate residuals and observation matrix for current parameter estimate. *)
  do residualsAndPartials <-
    calculateObservationMatrixAndResiduals (getObservationsAndTimes podInput)
      parameterVectorSize totalNumberOfObservations;
  ret (finishIteration podInput parameterVectorSize l histories residualsAndPartials).

(** The do-while loop: the body runs, then the convergence check decides.
    [fuel] bounds the number of iterations that are run; [None] is a loop that
    is still running when it is used up. *)
Fixpoint estimationLoop (fuel : nat) (podInput : PodInput)
    (convergenceChecker : EstimationConvergenceChecker Sc)
    (parameterVectorSize totalNumberOfObservations : Z) (l : Locals)
    (this : OrbitDeterminationManager)
    : option (OrbitDeterminationManager * Outcome Locals) :=
  match fuel with
  | O => None
  | S fuel' =>
      match iteration podInput parameterVectorSize totalNumberOfObservations l this with
      | (this', Returns l') =>
          (* Check for convergence *)
          if isEstimationConverged convergenceChecker
               (numberOfIterations l') (rmsResidualHistory l')
          then Some (this', Returns l')
          else estimationLoop fuel' podInput convergenceChecker
                 parameterVectorSize totalNumberOfObservations l' this'
      | (this', Fails f) => Some (this', Fails f)
      end
  end.

(** The state of the manager and of the local variables when the loop is
    entered. *)
Definition enterEstimation (podInput : PodInput) (this : OrbitDeterminationManager)
    : OrbitDeterminationManager * (Z * Z * Locals) :=
  let this :=
    {| integrateAndEstimateOrbit_ := integrateAndEstimateOrbit_ this;
       environment := environment this;
       observationManagers_ := observationManagers_ this;
       currentParameterEstimate_ := getFullParameterValues (environment this) |} in
  (* Get size of parameter vector and number of observations (total and per type) *)
  let parameterVectorSize := to_int (rows (currentParameterEstimate_ this)) in
  let observationNumberPair :=
    getNumberOfObservationsPerObservable (getObservationsAndTimes podInput) in
  let totalNumberOfObservations := observationNumberPair.2 in
  (this, (parameterVectorSize, totalNumberOfObservations,
    (* Declare variables to be returned (i.e. results from best iteration) *)
    {| bestResidual := numeric_limits_max;
       bestParameterEstimate := Zero parameterVectorSize;
       bestTransformationData := Zero parameterVectorSize;
       bestResiduals := Zero totalNumberOfObservations;
       bestInformationMatrix := MatrixZero totalNumberOfObservations parameterVectorSize;
       bestWeightsMatrixDiagonal := Zero totalNumberOfObservations;
       bestInverseNormalizedCovarianceMatrix :=
         MatrixZero parameterVectorSize parameterVectorSize;
       residualHistory := [];
       parameterHistory := [];
       dynamicsHistoryPerIteration := [];
       dependentVariableHistoryPerIteration := [];
       rmsResidualHistory := [];
       (* Set current parameter estimate as both previous and current estimate *)
       newParameterEstimate :=
         vadd (currentParameterEstimate_ this) (getInitialParameterDeviationEstimate podInput);
       oldParameterEstimate := currentParameterEstimate_ this;
       numberOfIterations := 0 |})).

(** The [PodOutput] that [estimateParameters] constructs from the local
    variables when the loop has ended. *)
Definition makePodOutput (l : Locals) : PodOutput :=
  {| parameterEstimate_ := bestParameterEstimate l;
     residuals_ := bestResiduals l;
     normalizedInformationMatrix_ := bestInformationMatrix l;
     weightsMatrixDiagonal_ := bestWeightsMatrixDiagonal l;
     informationMatrixTransformationDiagonal_ := bestTransformationData l;
     inverseNormalizedCovarianceMatrix_ := bestInverseNormalizedCovarianceMatrix l;
     residualStandardDeviation_ := bestResidual l;
     residualHistory_ := residualHistory l;
     parameterHistory_ := parameterHistory l |}.

(** The run of [estimateParameters] up to the end of its loop: the manager and
    the local variables at that point. *)
Definition estimationRun (fuel : nat) (podInput : PodInput)
    (convergenceChecker : EstimationConvergenceChecker Sc) (this : OrbitDeterminationManager)
    : option (OrbitDeterminationManager * Outcome Locals) :=
  let '(this, (parameterVectorSize, totalNumberOfObservations, l)) :=
    enterEstimation podInput this in
  estimationLoop fuel podInput convergenceChecker
    parameterVectorSize totalNumberOfObservations l this.

Definition estimateParameters (fuel : nat) (podInput : PodInput)
    (convergenceChecker : EstimationConvergenceChecker Sc) (this : OrbitDeterminationManager)
    : option (OrbitDeterminationManager * Outcome PodOutput) :=
  match estimationRun fuel podInput convergenceChecker this with
  | None => None
  | Some (this', Returns l) => Some (this', Returns (makePodOutput l))
  | Some (this', Fails f) => Some (this', Fails f)
  end.

(** The results of the best iteration that [estimateParameters] keeps. *)
Definition bestSnapshot (l : Locals) :=
  (bestResidual l, bestParameterEstimate l, bestTransformationData l, bestResiduals l,
   bestInformationMatrix l, bestWeightsMatrixDiagonal l,
   bestInverseNormalizedCovarianceMatrix l).

End OrbitDetermination.

(** ** The other member functions of the manager *)

(** What these take from the rest of Tudat besides [External]: the
    observation simulator that an observation manager holds, [operator<] of
    [LinkEnds] as the function that it is, and the value [TimeType( )] with
    which [std::vector::resize] fills a vector of times. *)
Class Accessors {Sc : Scalar} {Ext : External} := {
  ObservationSimulatorBase : Type;
  (** [manager->getObservationSimulator( )], a pointer. *)
  getObservationSimulator : ObservationManagerBase → option ObservationSimulatorBase;
  LinkEnds_less : ∀ a b : LinkEnds, Decision (LinkEnds_lt a b);
  TimeType_default : TimeType
}.

(** [AlternativePodInputType]: under each observable type and set of link
    ends, a map from time to observation with the reference link end. *)
Abbreviation AlternativePodInputType :=
  (list (ObservableType * list (LinkEnds * (list (TimeType * double) * LinkEndType)))).

(** [m[ k ] = v] on a [std::map] held as the sequence of its entries: the
    value under a key equivalent to [k] is replaced, and otherwise the entry is
    added at its place in the order. *)
Fixpoint std_map_assign {K V} (less : K → K → Prop) `{∀ a b, Decision (less a b)}
    (m : list (K * V)) (k : K) (v : V) : list (K * V) :=
  match m with
  | [] => [(k, v)]
  | entry :: rest =>
      if decide (less k entry.1) then (k, v) :: entry :: rest
      else if decide (less entry.1 k) then entry :: std_map_assign less rest k v
      else (entry.1, v) :: rest
  end.

(** The order of the entries of a [std::map] whose keys are observable
    types. *)
Definition key_le {V} (a b : ObservableType * V) : Prop := (a.1 <= b.1)%nat.

#[global] Instance key_le_dec {V} : RelDecision (@key_le V) :=
  λ a b, decide (a.1 <= b.1)%nat.

Section OtherMembers.
Context {Sc : Scalar} {Ext : External} {Acc : Accessors}.

(** *** getObservationManagers and getObservationSimulators *)

Definition getObservationManagers (this : OrbitDeterminationManager)
    : gmap ObservableType (option ObservationManagerBase) :=
  observationManagers_ this.

(** The entries of a [std::map] that is held as a [gmap], in the order of its
    iterators: that of the keys. *)
Definition begin_to_end {V} (m : gmap ObservableType V) : list (ObservableType * V) :=
  merge_sort key_le (map_to_list m).

(** The body of the loop of [getObservationSimulators]: the manager is reached
    through its pointer. *)
Definition addObservationSimulator
    (state : Outcome (gmap ObservableType (option ObservationSimulatorBase)))
    (managerIterator : ObservableType * option ObservationManagerBase)
    : Outcome (gmap ObservableType (option ObservationSimulatorBase)) :=
  match state with
  | Returns observationSimulators =>
      match managerIterator.2 with
      | Some manager =>
          Returns (<[managerIterator.1 := getObservationSimulator manager]>
                     observationSimulators)
      | None => Fails NullPointerDereference
      end
  | Fails f => Fails f
  end.

Definition getObservationSimulators (this : OrbitDeterminationManager)
    : Outcome (gmap ObservableType (option ObservationSimulatorBase)) :=
  fold_left addObservationSimulator (begin_to_end (observationManagers_ this)) (Returns ∅).

(** *** getNumberOfObservationsPerLinkEnd *)

(** [rows( )] is pushed onto a [std::vector< int >]. *)
Definition getNumberOfObservationsPerLinkEnd (dataPerLinkEnd : SingleObservablePodInputType)
    : list Z :=
  fold_left (λ numberOfObservations dataIterator,
      (* Add number of observations for current link ends. *)
      numberOfObservations ++ [to_int (rows dataIterator.2.1)])
    dataPerLinkEnd [].

(** *** convertPodInput *)

(** The innermost loop: the times and the observations of one map from time
    to observation are written at the position [counter], an [int]. *)
Definition splitTimesAndObservations (dataSet : list (TimeType * double))
    : list TimeType * list double :=
  (* Initialize vector of observation times. *)
  let times := replicate (length dataSet) TimeType_default in
  (* Initialize vector of observation values. *)
  let observations := Zero (rows dataSet) in
  (* Iterate over all observations in input map, and split time and observation. *)
  let counter := 0 in
  (fold_left (λ state singleDataSetIterator,
      let times := state.1.1 in
      let observations := state.1.2 in
      let counter := state.2 in
      ((<[Z.to_nat counter := singleDataSetIterator.1]> times,
        <[Z.to_nat counter := singleDataSetIterator.2]> observations),
       to_int (counter + 1)))
    dataSet ((times, observations), counter)).1.

Definition convertPodInput (alternativePodInput : AlternativePodInputType) : PodInputType :=
  (* Iterate over all observable types. *)
  fold_left (λ convertedObservationAndTimes inputIterator,
      let singleTypeObservations :=
        (* Iterate over all link ends in current observable types *)
        fold_left (λ singleTypeObservations stationIterator,
            let split := splitTimesAndObservations stationIterator.2.1 in
            (* Set converted data for current link nends and observable. *)
            std_map_assign LinkEnds_lt (H:=LinkEnds_less) singleTypeObservations
              stationIterator.1 (split.2, (split.1, stationIterator.2.2)))
          inputIterator.2 [] in
      (* Set converted data for current observable. *)
      std_map_assign lt convertedObservationAndTimes inputIterator.1 singleTypeObservations)
    alternativePodInput [].

(** The conversion as one would write it down: each map from time to
    observation becomes the vector of its values and the vector of its
    keys. *)
Definition split_map (d : LinkEnds * (list (TimeType * double) * LinkEndType))
    : LinkEnds * (list double * (list TimeType * LinkEndType)) :=
  (d.1, (d.2.1.*2, (d.2.1.*1, d.2.2))).

Definition split_maps (alternativePodInput : AlternativePodInputType) : PodInputType :=
  (λ o : ObservableType * list (LinkEnds * (list (TimeType * double) * LinkEndType)),
     (o.1, split_map <$> o.2)) <$> alternativePodInput.

End OtherMembers.

(** ** The constructor *)

(** The class of the object behind [variationalEquationsSolver_]. *)
Inductive VariationalEquationsSolver :=
  | SingleArcVariationalEquationsSolver
  | MultiArcVariationalEquationsSolver.

(** The object behind [stateTransitionAndSensitivityMatrixInterface_]: the
    interface of the solver, or one made without interpolators for the given
    number of parameters. *)
Inductive CombinedStateTransitionAndSensitivityMatrixInterface :=
  | InterfaceOfSolver (solver : VariationalEquationsSolver)
  | SingleArcInterfaceWithoutDynamics (parameterSetSize : Z)
  | MultiArcInterfaceWithoutDynamics (parameterSetSize : Z).

(** What [initializeOrbitDeterminationManager] takes from the rest of Tudat.
    The constructors of the solvers propagate the equations when they are
    called, which changes the dynamics that the shared objects hold. *)
Class Construction {Sc : Scalar} {Ext : External} := {
  IntegratorSettings : Type;
  PropagatorSettings : Type;
  (** [boost::dynamic_pointer_cast< propagators::MultiArcPropagatorSettings< ... > >( p )
      != NULL] for a pointer [p] that is not null. *)
  isMultiArcPropagatorSettings : PropagatorSettings → bool;
  (** The settings of one observable type: those of its sets of link ends. *)
  ObservationSettingsPerLinkEnds : Type;
  (** [estimatable_parameters::getListOfInitialDynamicalStateParametersEstimate(
      parametersToEstimate_ ).size( )]. *)
  numberOfInitialDynamicalStates : Environment → nat;
  getMultiArcStateEstimationArcStartTimes : Environment → list double;
  newSingleArcVariationalEquationsSolver :
    Environment → option IntegratorSettings → option PropagatorSettings → Environment;
  newMultiArcVariationalEquationsSolver :
    Environment → option IntegratorSettings → option PropagatorSettings → list double →
    Environment;
  (** [parametersToEstimate_->getParameterSetSize( )]. *)
  getParameterSetSize : Environment → Z;
  (** [createObservationManagerBase( observableType, settings, bodyMap,
      parametersToEstimate_, stateTransitionAndSensitivityMatrixInterface_ )], a
      pointer. *)
  createObservationManagerBase :
    ObservableType → ObservationSettingsPerLinkEnds → Environment →
    option CombinedStateTransitionAndSensitivityMatrixInterface →
    option ObservationManagerBase
}.

Section Constructor.
Context {Sc : Scalar} {Ext : External} {Con : Construction}.

(** The manager that the constructor makes, with the data members that
    [OrbitDeterminationManager] leaves out. *)
Record ConstructedManager := {
  constructed : OrbitDeterminationManager;
  variationalEquationsSolver_ : option VariationalEquationsSolver;
  stateTransitionAndSensitivityMatrixInterface_ :
    option CombinedStateTransitionAndSensitivityMatrixInterface;
  dynamicsIsMultiArc_ : bool
}.

(** The loop of [initializeOrbitDeterminationManager] that creates the
    observation managers. *)
Definition createObservationManagers (shared : Environment)
    (interface : option CombinedStateTransitionAndSensitivityMatrixInterface)
    (observationSettingsMap : list (ObservableType * ObservationSettingsPerLinkEnds))
    : gmap ObservableType (option ObservationManagerBase) :=
  fold_left (λ observationManagers observablesIterator,
      (* Create observation manager for current observable. *)
      <[observablesIterator.1 :=
          createObservationManagerBase observablesIterator.1 observablesIterator.2
            shared interface]> observationManagers)
    observationSettingsMap ∅.

(** [initializeOrbitDeterminationManager], which the constructor calls on the
    shared objects [bodies] (the body map and [parametersToEstimate_]); a
    constructor that throws leaves no manager. *)
Definition initializeOrbitDeterminationManager (bodies : Environment)
    (observationSettingsMap : list (ObservableType * ObservationSettingsPerLinkEnds))
    (integratorSettings : option IntegratorSettings)
    (propagatorSettings : option PropagatorSettings)
    : Outcome ConstructedManager :=
  (* Check if any dynamics is to be estimated *)
  let integrateAndEstimateOrbit :=
    bool_decide (0 < numberOfInitialDynamicalStates bodies)%nat in
  let dynamicsIsMultiArc :=
    match propagatorSettings with
    | Some settings => isMultiArcPropagatorSettings settings
    | None => false
    end in
  let solver :=
    if dynamicsIsMultiArc then
      if integrateAndEstimateOrbit
      then (newMultiArcVariationalEquationsSolver bodies integratorSettings propagatorSettings
              (getMultiArcStateEstimationArcStartTimes bodies),
            Some MultiArcVariationalEquationsSolver)
      else (bodies, None)
    else
      if integrateAndEstimateOrbit
      then (newSingleArcVariationalEquationsSolver bodies integratorSettings propagatorSettings,
            Some SingleArcVariationalEquationsSolver)
      else (bodies, None) in
  let shared := solver.1 in
  let variationalEquationsSolver := solver.2 in
  let interface :=
    if integrateAndEstimateOrbit then
      match variationalEquationsSolver with
      | Some object => Returns (Some (InterfaceOfSolver object))
      | None => Fails NullPointerDereference
      end
    else
      match propagatorSettings with
      | None =>
          if negb dynamicsIsMultiArc
          then Returns (Some (SingleArcInterfaceWithoutDynamics (getParameterSetSize shared)))
          else Returns (Some (MultiArcInterfaceWithoutDynamics (getParameterSetSize shared)))
      | Some _ =>
          Fails (runtime_error
            "Error, cannot parse propagator settings without estimating dynamics in OrbitDeterminationManager")
      end in
  match interface with
  | Fails f => Fails f
  | Returns stateTransitionAndSensitivityMatrixInterface =>
      (* Iterate over all observables and create observation managers. *)
      let observationManagers :=
        createObservationManagers shared stateTransitionAndSensitivityMatrixInterface
          observationSettingsMap in
      Returns
        {| constructed :=
             {| integrateAndEstimateOrbit_ := integrateAndEstimateOrbit;
                environment := shared;
                observationManagers_ := observationManagers;
                (* Set current parameter estimate from body initial states and parameter set. *)
                currentParameterEstimate_ := getFullParameterValues shared |};
           variationalEquationsSolver_ := variationalEquationsSolver;
           stateTransitionAndSensitivityMatrixInterface_ :=
             stateTransitionAndSensitivityMatrixInterface;
           dynamicsIsMultiArc_ := dynamicsIsMultiArc |}
  end.

End Constructor.

(** ** Predicates of the statements *)

Section Predicates.
Context {Sc : Scalar} {Ext : External}.
Implicit Types (podInput : PodInput) (this : OrbitDeterminationManager) (l : Locals)
  (c : EstimationConvergenceChecker Sc).

(** The manager holds an observation manager for the observable type, under
    a pointer that is not null. *)
Definition registered this (observableType : ObservableType) : Prop :=
  ∃ manager, observationManagers_ this !! observableType = Some (Some manager).

(** The manager is ready for the input: the solver of the variational
    equations exists if the state history of each iteration is asked for, and
    every observable type under which the observations hold a set of link ends
    has an observation manager. *)
Definition estimation_ready podInput this : Prop :=
  (getSaveStateHistoryForEachIteration podInput = true →
   integrateAndEstimateOrbit_ this = true) ∧
  Forall (λ seg : Segment, registered this seg.1.1)
         (segments_of (getObservationsAndTimes podInput)).



(** The number of observations that a map holds under one observable type. *)
Definition observations_under (dataPerLinkEnd : SingleObservablePodInputType) : Z :=
  total_rows ((λ d, d.2.1) <$> dataPerLinkEnd).

(** The sizes of the maps from time to observation fit an [int]. *)
Definition observations_fit (alternativePodInput : AlternativePodInputType) : Prop :=
  Forall (λ seg, rows seg.2.1 <= INT_MAX) (segments_of alternativePodInput).

(** The checks after the iterations so far have all failed. *)
Definition not_converged_so_far c (l : Locals) : Prop :=
  rows (rmsResidualHistory l) = numberOfIterations l ∧
  ∀ k : nat, (0 < k)%nat → Z.of_nat k <= numberOfIterations l →
    isEstimationConverged c (Z.of_nat k) (take k (rmsResidualHistory l)) = false.

(** Two checkers that differ at most in [numberOfIterationsWithoutImprovement_]. *)
Definition same_but_without_improvement c c' : Prop :=
  maximumNumberOfIterations_ c = maximumNumberOfIterations_ c' ∧
  minimumResidualChange_ c = minimumResidualChange_ c' ∧
  minimumResidual_ c = minimumResidual_ c'.

(** The input with [getSaveStateHistoryForEachIteration] set to [flag]. *)
Definition withSaveStateHistory (flag : bool) podInput : PodInput :=
  {| getObservationsAndTimes := getObservationsAndTimes podInput;
     getInitialParameterDeviationEstimate := getInitialParameterDeviationEstimate podInput;
     getInverseOfAprioriCovariance := getInverseOfAprioriCovariance podInput;
     getWeightsMatrixDiagonals := getWeightsMatrixDiagonals podInput;
     getReintegrateEquationsOnFirstIteration := getReintegrateEquationsOnFirstIteration podInput;
     getReintegrateVariationalEquations := getReintegrateVariationalEquations podInput;
     getSaveInformationMatrix := getSaveInformationMatrix podInput;
     getPrintOutput := getPrintOutput podInput;
     getSaveResidualsAndParametersFromEachIteration :=
       getSaveResidualsAndParametersFromEachIteration podInput;
     getSaveStateHistoryForEachIteration := flag |}.

(** The local variables without the state histories of the iterations. *)
Definition withoutStateHistory l : Locals :=
  {| bestResidual := bestResidual l;
     bestParameterEstimate := bestParameterEstimate l;
     bestTransformationData := bestTransformationData l;
     bestResiduals := bestResiduals l;
     bestInformationMatrix := bestInformationMatrix l;
     bestWeightsMatrixDiagonal := bestWeightsMatrixDiagonal l;
     bestInverseNormalizedCovarianceMatrix := bestInverseNormalizedCovarianceMatrix l;
     residualHistory := residualHistory l;
     parameterHistory := parameterHistory l;
     dynamicsHistoryPerIteration := [];
     dependentVariableHistoryPerIteration := [];
     rmsResidualHistory := rmsResidualHistory l;
     newParameterEstimate := newParameterEstimate l;
     oldParameterEstimate := oldParameterEstimate l;
     numberOfIterations := numberOfIterations l |}.

(** *** Runs of the loop, iteration by iteration *)

(** The manager and the local variables after [n] iterations of the loop
    from [this] and [l], when none of them fails. *)
Fixpoint iterated (n : nat) podInput (P total : Z) l this
    : option (OrbitDeterminationManager * Locals) :=
  match n with
  | O => Some (this, l)
  | S n' =>
      match iterated n' podInput P total l this with
      | Some (this1, l1) =>
          match iteration podInput P total l1 this1 with
          | (this2, Returns l2) => Some (this2, l2)
          | (_, Fails _) => None
          end
      | None => None
      end
  end.

(** Iteration [k] of the loop from [this] and [l], counted from 0, is started
    in the state [started] and calculates [residualsAndPartials], in the
    manager that [reintegrate] leaves. *)
Definition iteration_calculates podInput (P total : Z) l this (k : nat)
    (started : OrbitDeterminationManager * Locals)
    (residualsAndPartials : list double * list (list double)) : Prop :=
  iterated k podInput P total l this = Some started ∧
  calculateObservationMatrixAndResiduals (getObservationsAndTimes podInput) P total
    (reintegrate podInput started.2 started.1)
  = (reintegrate podInput started.2 started.1, Returns residualsAndPartials).

(** The output holds the results of the iteration that was started with the
    local variables [before] and calculated [residualsAndPartials]: the RMS of
    its residuals and these residuals, the estimate after its update, and
    what its least-squares adjustment has returned. *)
Definition output_of_iteration podInput (P : Z) (before : Locals)
    (residualsAndPartials : list double * list (list double)) (output : PodOutput) : Prop :=
  let correction := computeCorrection podInput P residualsAndPartials in
  residualStandardDeviation_ output = getVectorEntryRootMeanSquare residualsAndPartials.1 ∧
  residuals_ output = residualsAndPartials.1 ∧
  parameterEstimate_ output
  = vadd (newParameterEstimate before) (parameterAddition correction) ∧
  informationMatrixTransformationDiagonal_ output = transformationData correction ∧
  weightsMatrixDiagonal_ output
  = getConcatenatedWeightsVector (getWeightsMatrixDiagonals podInput) ∧
  inverseNormalizedCovarianceMatrix_ output = (leastSquaresOutput correction).2 ∧
  (getSaveInformationMatrix podInput = true →
   normalizedInformationMatrix_ output = normalizedPartials correction).

(** The output holds the values with which [estimateParameters] declares its
    best-iterate variables. *)
Definition initial_output (P total : Z) (output : PodOutput) : Prop :=
  residualStandardDeviation_ output = numeric_limits_max ∧
  parameterEstimate_ output = Zero P ∧
  residuals_ output = Zero total ∧
  normalizedInformationMatrix_ output = MatrixZero total P ∧
  weightsMatrixDiagonal_ output = Zero total ∧
  informationMatrixTransformationDiagonal_ output = Zero P ∧
  inverseNormalizedCovarianceMatrix_ output = MatrixZero P P.

(** The state of a run of the loop that was entered in [this0] with [l0],
    between two iterations: the iterations so far have led to it, each of
    them has recorded the RMS of the residuals that it calculated, and the
    best-iterate variables are those of [l0], no RMS having been below the
    best residual of [l0], or hold the results of the last iteration whose RMS
    was below the best one so far. *)
Definition run_traced podInput (P total : Z) l0 this0 this l : Prop :=
  ∃ n : nat,
    iterated n podInput P total l0 this0 = Some (this, l) ∧
    numberOfIterations l = numberOfIterations l0 + Z.of_nat n ∧
    length (rmsResidualHistory l) = n ∧
    (∀ (k : nat) r, rmsResidualHistory l !! k = Some r →
       ∃ started rp,
         iteration_calculates podInput P total l0 this0 k started rp ∧
         numberOfIterations started.2 = numberOfIterations l0 + Z.of_nat k ∧
         rmsResidualHistory started.2 = take k (rmsResidualHistory l) ∧
         r = getVectorEntryRootMeanSquare rp.1) ∧
    ((∀ r, r ∈ rmsResidualHistory l → dlt r (bestResidual l0) = false) ∧
     bestSnapshot l = bestSnapshot l0
     ∨ ∃ (k : nat) started rp,
         iteration_calculates podInput P total l0 this0 k started rp ∧
         numberOfIterations started.2 = numberOfIterations l0 + Z.of_nat k ∧
         rmsResidualHistory started.2 = take k (rmsResidualHistory l) ∧
         rmsResidualHistory l !! k = Some (bestResidual l) ∧
         dlt (bestResidual l) (bestResidual started.2) = true ∧
         output_of_iteration podInput P started.2 rp (makePodOutput l) ∧
         ∀ (j : nat) r, (k < j)%nat → rmsResidualHistory l !! j = Some r →
           dlt r (bestResidual l) = false).

(** The input holds observations: the number of them that
    [estimateParameters] computes, and with which it sizes the residuals and
    the matrix of partials, is positive. *)
Definition observations_present podInput : Prop :=
  0 < (getNumberOfObservationsPerObservable (getObservationsAndTimes podInput)).2.

End Predicates.

(** The simulator behind a pointer to a manager. *)
Definition simulator_of {Sc : Scalar} {Ext : External} {Acc : Accessors}
    (pointer : option ObservationManagerBase) : option ObservationSimulatorBase :=
  manager ← pointer; getObservationSimulator manager.

(** The observations name an observable type only if the constructor was
    given settings for it, from which a manager was created. *)
Definition settings_provided {Sc : Scalar} {Ext : External} {Con : Construction}
    (made : ConstructedManager)
    (observationSettingsMap : list (ObservableType * ObservationSettingsPerLinkEnds))
    (observationsAndTimes : PodInputType) : Prop :=
  Forall (λ seg : Segment,
      ∃ settings manager,
        (seg.1.1, settings) ∈ observationSettingsMap ∧
        createObservationManagerBase seg.1.1 settings (environment (constructed made))
          (stateTransitionAndSensitivityMatrixInterface_ made) = Some manager)
    (segments_of observationsAndTimes).

(** ** A linear observation model with one parameter

    The smallest complete setting of the collaborators: one estimated
    parameter [a], not a dynamical one, held by the parameter set; one
    observation manager that computes [a * t] at the time [t], with partial
    derivative [t]; the least-squares adjustment of a single parameter.  It is
    used to run the code. *)

Section LinearModel.
Context {Sc : Scalar}.

(** The least-squares adjustment when the information matrix has one column:
    the solution of [( P0^-1 + sum w J^2 ) dx = sum w J r], and the inverse
    covariance [P0^-1 + sum w J^2]. *)
Definition leastSquaresOneParameter (informationMatrix : list (list double))
    (observationResiduals diagonalOfWeightMatrix : list double)
    (inverseOfAPrioriCovarianceMatrix : list (list double))
    : list double * list (list double) :=
  let J := column 0 informationMatrix in
  let sum := fold_left dadd in
  let inverseOfCovariance :=
    sum (zip_with dmul diagonalOfWeightMatrix (zip_with dmul J J))
        (coeff2 inverseOfAPrioriCovarianceMatrix 0 0) in
  let rightHandSide :=
    sum (zip_with dmul diagonalOfWeightMatrix (zip_with dmul J observationResiduals)) dzero in
  ([ddiv rightHandSide inverseOfCovariance], [[inverseOfCovariance]]).

(** The mean of the squares of the entries, and its image under [root]. *)
Definition rootMeanSquare (root : double → double) (one : double) (v : list double) : double :=
  root (ddiv (fold_left dadd (zip_with dmul v v) dzero)
             (fold_left dadd (replicate (length v) one) dzero)).

Definition linearModel (root : double → double) (one : double) : External := {|
  TimeType := double;
  LinkEndType := nat;
  LinkEnds := nat;
  LinkEnds_lt := lt;
  LinkEnds_lt_strict := Nat.lt_strorder;
  Environment := list double;
  getFullParameterValues := λ shared, shared;
  resetParameterValues := λ _ v, v;
  solver_resetParameterEstimate := λ _ v _, v;
  DynamicsHistory := list double;
  getEquationsOfMotionNumericalSolutionBase := λ shared, shared;
  getDependentVariableNumericalSolutionBase := λ _, [];
  performLeastSquaresAdjustmentFromInformationMatrix := leastSquaresOneParameter;
  getVectorEntryRootMeanSquare := rootMeanSquare root one
|}.

End LinearModel.

(** The model on IEEE doubles. *)
Definition linearModel64 : @External binary64 := @linearModel binary64 PrimFloat.sqrt 1%float.

(** The model in exact arithmetic.  A square root is not rational: the mean of
    the squares stands for its root, and orders the iterations as the root
    does. *)
Definition linearModelExact : @External rational := @linearModel rational (λ x, x) 1%Q.

(** The observation manager of the model. *)
Definition linearManager {Sc : Scalar} (root : double → double) (one : double)
    : @ObservationManagerBase Sc (linearModel root one) :=
  @Build_ObservationManagerBase Sc (linearModel root one)
    (λ (shared : list double) (times : list double) _ _,
       (map (λ t, dmul (coeff shared 0) t) times, map (λ t, [t]) times)).

(** A manager with the parameter value [a] and a manager for the observable
    types in [types]. *)
Definition linearManagerState {Sc : Scalar} (root : double → double) (one : double)
    (a : double) (types : list ObservableType)
    : @OrbitDeterminationManager Sc (linearModel root one) :=
  @Build_OrbitDeterminationManager Sc (linearModel root one)
    (* integrateAndEstimateOrbit_ *) false
    (* environment *) [a]
    (* observationManagers_ *)
    (list_to_map ((λ t, (t, Some (linearManager root one))) <$> types))
    (* currentParameterEstimate_ *) [a].

(** Observations [ys] at the times [ts] of the observable type 0 between the
    link ends 0, with unit weights, no a priori information and the initial
    deviation [deviation]. *)
Definition linearInput {Sc : Scalar} (root : double → double) (one : double)
    (ts ys : list double) (deviation : double) (reintegrateOnFirstIteration : bool)
    : @PodInput Sc (linearModel root one) :=
  @Build_PodInput Sc (linearModel root one)
    (* getObservationsAndTimes *) [(0%nat, [(0%nat, (ys, (ts, 0%nat)))])]
    (* getInitialParameterDeviationEstimate *) [deviation]
    (* getInverseOfAprioriCovariance *) [[dzero]]
    (* getWeightsMatrixDiagonals *) [(0%nat, [(0%nat, replicate (length ys) one)])]
    (* getReintegrateEquationsOnFirstIteration *) reintegrateOnFirstIteration
    (* getReintegrateVariationalEquations *) true
    (* getSaveInformationMatrix *) true
    (* getPrintOutput *) false
    (* getSaveResidualsAndParametersFromEachIteration *) true
    (* getSaveStateHistoryForEachIteration *) false.

(** [EstimationConvergenceChecker( )] with its default arguments, on doubles. *)
Definition defaultConvergenceChecker : EstimationConvergenceChecker binary64 :=
  @newEstimationConvergenceChecker binary64 5 0%float 0x1.79ca10c924223p-67%float 2.

(** The linear model on doubles: observations at the times 1, 2 and 3. *)
Definition linearInput64 (deviation : float) (reintegrateOnFirstIteration : bool)
    : @PodInput binary64 linearModel64 :=
  linearInput (Sc:=binary64) PrimFloat.sqrt 1%float
    [1; 2; 3]%float [2; 4; 6.5]%float deviation reintegrateOnFirstIteration.

Definition linearState64 (types : list ObservableType)
    : @OrbitDeterminationManager binary64 linearModel64 :=
  linearManagerState (Sc:=binary64) PrimFloat.sqrt 1%float 0%float types.

(** The linear model in exact arithmetic, on the observations 2.1, 3.9 and 6.2
    at the times 1, 2 and 3. *)
Definition linearInputQ : @PodInput rational linearModelExact :=
  linearInput (Sc:=rational) (λ x, x) 1%Q [1; 2; 3]%Q [2.1; 3.9; 6.2]%Q 0%Q false.

Definition linearStateQ : @OrbitDeterminationManager rational linearModelExact :=
  linearManagerState (Sc:=rational) (λ x, x) 1%Q 0%Q [0%nat].

(** The accessors of the linear model: an observation manager holds a
    simulator, the link ends are numbers, and [TimeType( )] is zero. *)
Definition linearAccessors {Sc : Scalar} (root : double → double) (one : double)
    : @Accessors Sc (linearModel root one) :=
  @Build_Accessors Sc (linearModel root one)
    (* ObservationSimulatorBase *) unit
    (* getObservationSimulator *) (λ _, Some ())
    (* LinkEnds_less *) (λ a b : nat, decide (a < b)%nat)
    (* TimeType_default *) dzero.

Definition linearAccessors64 : @Accessors binary64 linearModel64 :=
  linearAccessors (Sc:=binary64) PrimFloat.sqrt 1%float.

(** The construction of the linear model: no initial dynamical state is
    estimated, so that the solvers are not made; propagator settings are a
    flag that tells whether they are multi-arc ones; every observable type
    gets the manager of the model. *)
Definition linearConstruction64 : @Construction binary64 linearModel64 :=
  @Build_Construction binary64 linearModel64
    (* IntegratorSettings *) unit
    (* PropagatorSettings *) bool
    (* isMultiArcPropagatorSettings *) (λ multiArc, multiArc)
    (* ObservationSettingsPerLinkEnds *) unit
    (* numberOfInitialDynamicalStates *) (λ _, 0%nat)
    (* getMultiArcStateEstimationArcStartTimes *) (λ _, [])
    (* newSingleArcVariationalEquationsSolver *) (λ shared _ _, shared)
    (* newMultiArcVariationalEquationsSolver *) (λ shared _ _ _, shared)
    (* getParameterSetSize *) (λ shared : list float, rows shared)
    (* createObservationManagerBase *)
    (λ _ _ _ _, Some (linearManager (Sc:=binary64) PrimFloat.sqrt 1%float)).

(** Weights under two observable types, the first with two sets of link
    ends. *)
Definition weights64
    : list (nat * list (@LinkEnds binary64 linearModel64 * list (@double binary64))) :=
  [(0%nat, [(0%nat, [1; 2]%float); (1%nat, [3%float])]); (1%nat, [(0%nat, [4%float])])].

(** Observations in the alternative form: under the observable type 0 and the
    link ends 0, the observations 2 and 4 at the times 1 and 2. *)
Definition alternativeInput64
    : list (nat * list (@LinkEnds binary64 linearModel64 *
                        (list (@TimeType binary64 linearModel64 * @double binary64) *
                         @LinkEndType binary64 linearModel64))) :=
  [(0%nat, [(0%nat, ([(1, 2); (2, 4)]%float, 0%nat))])].

(** An input of the linear model whose only observation is a NaN. *)
Definition nanInput64 : @PodInput binary64 linearModel64 :=
  linearInput (Sc:=binary64) PrimFloat.sqrt 1%float [1%float] [nan] 0%float false.

(** The linear model on doubles: the observations 2, 4 and 6 at the times 1, 2
    and 3, which the parameter value 2 fits, with the initial deviation 2
    from the parameter value 0 and re-propagation in the first iteration. *)
Definition fittedInput64 : @PodInput binary64 linearModel64 :=
  linearInput (Sc:=binary64) PrimFloat.sqrt 1%float [1; 2; 3]%float [2; 4; 6]%float 2%float true.

(** * Properties *)

(** ** Machine integers *)

Lemma to_int_small z : - 2 ^ 31 <= z <= INT_MAX → to_int z = z.
Proof.
  unfold to_int, INT_MAX. intros Hz.
  rewrite Z.mod_small; lia.
Qed.

Lemma to_int_range z : - 2 ^ 31 <= to_int z <= INT_MAX.
Proof.
  unfold to_int, INT_MAX.
  pose proof (Z.mod_pos_bound (z + 2 ^ 31) (2 ^ 32)). lia.
Qed.

Lemma to_unsigned_int_range z : 0 <= to_unsigned_int z < 2 ^ 32.
Proof. unfold to_unsigned_int. apply Z.mod_pos_bound. lia. Qed.

Lemma Qltb_lt (x y : Q) : Qltb x y = true ↔ (x < y)%Q.
Proof.
  unfold Qltb. rewrite negb_true_iff, <- not_true_iff_false, Qle_bool_iff.
  split; [apply Qnot_le_lt | apply Qlt_not_le].
Qed.

Lemma Qltb_ge (x y : Q) : Qltb x y = false ↔ (y <= x)%Q.
Proof.
  unfold Qltb. rewrite negb_false_iff. apply Qle_bool_iff.
Qed.

(** ** The convergence checker *)

Section ConvergenceProperties.
Context {Sc : Scalar}.
Implicit Types (c : EstimationConvergenceChecker Sc) (history : list double).

Lemma newEstimationConvergenceChecker_representable maxIter minChange minResidual without :
  checker_representable (newEstimationConvergenceChecker maxIter minChange minResidual without).
Proof.
  split; simpl; [apply to_int_range | apply to_unsigned_int_range].
Qed.

(** The result is the disjunction of the four tests. *)
Lemma isEstimationConverged_tests c n history :
  isEstimationConverged c n history =
    maximumIterationsReached c n || residualLevelAchieved c history
    || tooManyIterationsWithoutImprovement c history || residualChangeBelowMinimum c history.
Proof.
  unfold isEstimationConverged.
  destruct (maximumIterationsReached c n), (residualLevelAchieved c history),
    (tooManyIterationsWithoutImprovement c history),
    (residualChangeBelowMinimum c history); reflexivity.
Qed.

Lemma max_element_from_bound largest lv i rest :
  (largest < i)%nat → (max_element_from largest lv i rest < i + length rest)%nat.
Proof.
  revert largest lv i. induction rest as [|x r IH]; intros largest lv i Hlt; simpl.
  - lia.
  - destruct (dlt lv x).
    + specialize (IH i x (S i)). lia.
    + specialize (IH largest lv (S i)). lia.
Qed.

Lemma max_element_bound history : history ≠ [] → (max_element history < length history)%nat.
Proof.
  destruct history as [|x r]; [done|]. intros _. simpl.
  pose proof (max_element_from_bound O x 1%nat r). lia.
Qed.

(** The test on the iterations without improvement never succeeds: the
    difference of the position of the maximum and the size is negative, and as
    a [size_t] it is above every [unsigned int]. *)
Lemma tooManyIterationsWithoutImprovement_false c history :
  checker_representable c → history ≠ [] → rows history <= 2 ^ 64 - 2 ^ 32 →
  tooManyIterationsWithoutImprovement c history = false.
Proof.
  intros [_ Hw] Hne Hlen. unfold tooManyIterationsWithoutImprovement, to_size_t.
  pose proof (max_element_bound history Hne) as Hm. unfold rows in Hlen.
  apply Z.ltb_ge.
  replace (Z.of_nat (max_element history) - Z.of_nat (length history))
    with (2 ^ 64 - (Z.of_nat (length history) - Z.of_nat (max_element history)) + (-1) * 2 ^ 64)
    by lia.
  rewrite Z.mod_add by lia. rewrite Z.mod_small; lia.
Qed.

Lemma at_last history x :
  last history = Some x → at_ history (Z.of_nat (length history) - 1) = x.
Proof.
  intros [l' ->]%last_Some. unfold at_. rewrite length_app. simpl.
  replace (Z.to_nat (Z.of_nat (length l' + 1) - 1)) with (length l') by lia.
  apply nth_middle.
Qed.

Lemma residualChangeBelowMinimum_snoc c earlier y x :
  residualChangeBelowMinimum c (earlier ++ [y; x]) =
    dlt (fabs (dsub x y)) (minimumResidualChange_ c).
Proof.
  unfold residualChangeBelowMinimum. rewrite length_app. simpl.
  destruct (Z.ltb_spec 1 (Z.of_nat (length earlier + 2))); [|lia].
  unfold at_.
  replace (Z.to_nat (Z.of_nat (length earlier + 2) - 1)) with (S (length earlier)) by lia.
  replace (Z.to_nat (Z.of_nat (length earlier + 2) - 2)) with (length earlier) by lia.
  rewrite nth_middle.
  change (earlier ++ [y; x]) with (earlier ++ [y] ++ [x]).
  rewrite app_assoc.
  replace (S (length earlier)) with (length (earlier ++ [y])) by (rewrite length_app; simpl; lia).
  rewrite nth_middle. reflexivity.
Qed.

Lemma residualChangeBelowMinimum_single c x : residualChangeBelowMinimum c [x] = false.
Proof. reflexivity. Qed.

(** C8.  On a non-empty history the check returns true when the iteration
    count has reached the maximum, or the last RMS is below the minimum
    residual, or the history has two entries at least and the last two differ
    in absolute value by less than the minimum change.  Conversely, for a
    checker whose members hold values of their types and a history of at most
    [2^64 - 2^32] entries, the check returns true only then. *)
Theorem isEstimationConverged_stops c (numberOfIterations : Z) history (lastRms : double) :
  last history = Some lastRms →
  (stoppingCondition c numberOfIterations history lastRms →
   isEstimationConverged c numberOfIterations history = true) ∧
  (checker_representable c → rows history <= 2 ^ 64 - 2 ^ 32 →
   isEstimationConverged c numberOfIterations history = true →
   stoppingCondition c numberOfIterations history lastRms).
Proof.
  intros Hlast. rewrite isEstimationConverged_tests.
  assert (Hlevel : residualLevelAchieved c history = dlt lastRms (minimumResidual_ c)).
  { unfold residualLevelAchieved. by rewrite (at_last _ _ Hlast). }
  split.
  - intros [Hmax | [Hres | (earlier & y & -> & Hchange)]].
    + unfold maximumIterationsReached.
      destruct (Z.geb_spec numberOfIterations (maximumNumberOfIterations_ c)); [done | lia].
    + rewrite Hlevel, Hres. by rewrite orb_true_r.
    + rewrite residualChangeBelowMinimum_snoc, Hchange. by rewrite orb_true_r.
  - intros Hrep Hlen.
    assert (Hne : history ≠ []) by (intros ->; discriminate).
    rewrite (tooManyIterationsWithoutImprovement_false c history Hrep Hne Hlen).
    rewrite orb_false_r, Hlevel.
    intros [[Hmax | Hres]%orb_true_iff | Hchange]%orb_true_iff.
    + left. unfold maximumIterationsReached in Hmax.
      destruct (Z.geb_spec numberOfIterations (maximumNumberOfIterations_ c)); [lia | done].
    + right; left. exact Hres.
    + right; right.
      apply last_Some in Hlast as [l' ->].
      destruct l' as [|z l'] using rev_ind.
      * simpl in Hchange. discriminate.
      * exists l', z. rewrite <- app_assoc. split; [done|].
        rewrite <- app_assoc in Hchange. simpl in Hchange.
        by rewrite residualChangeBelowMinimum_snoc in Hchange.
Qed.

End ConvergenceProperties.

(** *** Values of the members at the limits of their types *)

Section CheckerEdges.
Context {Sc : Scalar}.

(** X1.  The constructor takes the maximum number of iterations as an
    [unsigned int] and stores it in an [int]: a value above [INT_MAX] is stored
    as that value minus [2^32], a negative number, and the check then returns
    true for every iteration count that is not negative, whatever the
    history. *)
Theorem maximum_above_INT_MAX_is_negative (maximumNumberOfIterations : Z)
    (minimumResidualChange minimumResidual : double) (numberOfIterationsWithoutImprovement : Z)
    (numberOfIterations : Z) (rmsResidualHistory : list double) :
  2 ^ 31 <= maximumNumberOfIterations < 2 ^ 32 → 0 <= numberOfIterations →
  let c := newEstimationConvergenceChecker maximumNumberOfIterations minimumResidualChange
             minimumResidual numberOfIterationsWithoutImprovement in
  maximumNumberOfIterations_ c = maximumNumberOfIterations - 2 ^ 32 ∧
  maximumNumberOfIterations_ c < 0 ∧
  isEstimationConverged c numberOfIterations rmsResidualHistory = true.
Proof.
  intros Hmax Hn c.
  assert (Hmember : maximumNumberOfIterations_ c = maximumNumberOfIterations - 2 ^ 32).
  { subst c. simpl. unfold to_int, to_unsigned_int.
    rewrite (Z.mod_small maximumNumberOfIterations) by lia.
    replace (maximumNumberOfIterations + 2 ^ 31)
      with (maximumNumberOfIterations - 2 ^ 31 + 1 * 2 ^ 32) by lia.
    rewrite Z.mod_add by lia. rewrite Z.mod_small; lia. }
  split; [done|]. split; [lia|].
  rewrite isEstimationConverged_tests.
  assert (maximumIterationsReached c numberOfIterations = true) as ->; [|done].
  unfold maximumIterationsReached.
  destruct (Z.geb_spec numberOfIterations (maximumNumberOfIterations_ c)); [done | lia].
Qed.

End CheckerEdges.

(** *** On doubles *)

Lemma abs_not_below_zero (x : float) : PrimFloat.ltb (PrimFloat.abs x) 0%float = false.
Proof.
  rewrite FloatAxioms.ltb_spec, FloatAxioms.abs_spec.
  destruct (Prim2SF x) as [s|s| |s m e]; reflexivity.
Qed.

Lemma nan_not_below (r x : float) : PrimFloat.is_nan r = true → PrimFloat.ltb r x = false.
Proof.
  unfold PrimFloat.is_nan. rewrite FloatAxioms.ltb_spec, FloatAxioms.eqb_spec.
  destruct (Prim2SF r) as [s|s| |s m e] eqn:Hr; simpl.
  - destruct s; discriminate.
  - destruct s; discriminate.
  - reflexivity.
  - unfold SFeqb, SFcompare. destruct s.
    + rewrite Z.compare_refl, Pos.compare_cont_refl. discriminate.
    + rewrite Z.compare_refl, Pos.compare_cont_refl. discriminate.
Qed.

(** X2.  On doubles, with the minimum residual change zero (the default of
    the constructor) the test on the change of the residual never succeeds,
    since no absolute value is below zero: on a non-empty history the check
    returns true exactly when the iteration count has reached the maximum or
    the last RMS is below the minimum residual. *)
Theorem zero_minimum_change_never_met (c : EstimationConvergenceChecker binary64)
    (numberOfIterations : Z) (history : list float) (lastRms : float) :
  checker_representable c → minimumResidualChange_ c = 0%float →
  last history = Some lastRms → rows history <= 2 ^ 64 - 2 ^ 32 →
  residualChangeBelowMinimum c history = false ∧
  isEstimationConverged c numberOfIterations history
  = (maximumNumberOfIterations_ c <=? numberOfIterations)
    || PrimFloat.ltb lastRms (minimumResidual_ c).
Proof.
  intros Hrep Hzero Hlast Hlen.
  assert (Hne : history ≠ []) by (intros ->; discriminate).
  assert (Hchange : residualChangeBelowMinimum c history = false).
  { unfold residualChangeBelowMinimum. cbv zeta. rewrite Hzero.
    case_match; [apply abs_not_below_zero | done]. }
  split; [done|].
  rewrite isEstimationConverged_tests, Hchange.
  rewrite (tooManyIterationsWithoutImprovement_false c history Hrep Hne Hlen).
  rewrite !orb_false_r. f_equal.
  - unfold maximumIterationsReached. apply Z.geb_leb.
  - unfold residualLevelAchieved. by rewrite (at_last (Sc:=binary64) _ _ Hlast).
Qed.

(** ** The order and the division of doubles *)

Section Doubles.

Lemma pow2_pos (k : Z) : 0 <= k → 0 < 2 ^ k.
Proof. intros Hk. by apply Z.pow_pos_nonneg. Qed.

Lemma pow2_add (a b : Z) : 0 <= a → 0 <= b → 2 ^ (a + b) = 2 ^ a * 2 ^ b.
Proof. intros Ha Hb. by apply Z.pow_add_r. Qed.

Lemma pow2_split (a b : Z) : 0 <= a <= b → 2 ^ b = 2 ^ a * 2 ^ (b - a).
Proof. intros H. rewrite <- pow2_add by lia. f_equal. lia. Qed.

Lemma digits2_pos_bounds (m : positive) :
  2 ^ (Zpos (digits2_pos m) - 1) <= Zpos m < 2 ^ Zpos (digits2_pos m).
Proof.
  induction m as [m IH|m IH|]; simpl digits2_pos.
  - rewrite Pos2Z.inj_succ.
    replace (Z.succ (Zpos (digits2_pos m)) - 1) with (Zpos (digits2_pos m) - 1 + 1) by lia.
    rewrite (pow2_add (Zpos (digits2_pos m) - 1) 1) by lia.
    rewrite Z.pow_succ_r by lia. change (2 ^ 1) with 2. lia.
  - rewrite Pos2Z.inj_succ.
    replace (Z.succ (Zpos (digits2_pos m)) - 1) with (Zpos (digits2_pos m) - 1 + 1) by lia.
    rewrite (pow2_add (Zpos (digits2_pos m) - 1) 1) by lia.
    rewrite Z.pow_succ_r by lia. change (2 ^ 1) with 2. lia.
  - simpl. lia.
Qed.

Lemma Zdigits2_le (m k : Z) : 0 <= m < 2 ^ k → 0 <= k → Zdigits2 m <= k.
Proof.
  intros [Hm Hlt] Hk. destruct m as [|p|p]; simpl; [done| |lia].
  destruct (digits2_pos_bounds p) as [Hlo _].
  destruct (Z_le_gt_dec (Zpos (digits2_pos p)) k) as [|Hgt]; [done|].
  assert (2 ^ k <= 2 ^ (Zpos (digits2_pos p) - 1)) by (apply Z.pow_le_mono_r; lia).
  lia.
Qed.

Lemma bounded_inv (m : positive) (e : Z) :
  bounded prec emax m e = true →
  -1074 <= e <= 971 ∧ Zpos (digits2_pos m) <= 53 ∧ (Zpos (digits2_pos m) = 53 ∨ e = -1074).
Proof.
  unfold bounded, canonical_mantissa, fexp, SpecFloat.emin, prec, emax.
  intros [Hc He]%andb_true_iff. apply Z.eqb_eq in Hc. apply Z.leb_le in He. lia.
Qed.

Lemma finite_magnitude_pos (m : positive) (e : Z) : -1074 <= e → 0 < Zpos m * 2 ^ (e + 1074).
Proof. intros He. apply Z.mul_pos_pos; [done | apply pow2_pos; lia]. Qed.

(** Doubles with the smaller exponent are smaller: the mantissa of the larger
    exponent is normal. *)
Lemma magnitude_lt_exponent (m1 m2 : positive) (e1 e2 : Z) :
  bounded prec emax m1 e1 = true → bounded prec emax m2 e2 = true → e1 < e2 →
  Zpos m1 * 2 ^ (e1 + 1074) < Zpos m2 * 2 ^ (e2 + 1074).
Proof.
  intros (He1 & Hd1 & _)%bounded_inv (He2 & _ & Hn2)%bounded_inv Hlt.
  destruct Hn2 as [Hn2|]; [|lia].
  destruct (digits2_pos_bounds m1) as [_ Hm1]. destruct (digits2_pos_bounds m2) as [Hm2 _].
  rewrite Hn2 in Hm2.
  assert (Hm1' : Zpos m1 < 2 ^ 53).
  { eapply Z.lt_le_trans; [exact Hm1|]. apply Z.pow_le_mono_r; lia. }
  rewrite (pow2_split (e1 + 1074) (e2 + 1074)) by lia.
  assert (HX : 0 < 2 ^ (e1 + 1074)) by (apply pow2_pos; lia).
  assert (HY : 2 ^ 1 <= 2 ^ (e2 + 1074 - (e1 + 1074))) by (apply Z.pow_le_mono_r; lia).
  change (2 ^ 1) with 2 in HY. change (2 ^ 53) with 9007199254740992 in Hm1'.
  change (2 ^ (53 - 1)) with 4503599627370496 in Hm2.
  set (X := 2 ^ (e1 + 1074)) in *. set (Y := 2 ^ (e2 + 1074 - (e1 + 1074))) in *.
  assert (Zpos m1 * X < 9007199254740992 * X) by (apply Z.mul_lt_mono_pos_r; lia).
  assert (4503599627370496 * 2 <= Zpos m2 * Y) by (apply Z.mul_le_mono_nonneg; lia).
  assert (4503599627370496 * 2 * X <= Zpos m2 * Y * X) by (apply Z.mul_le_mono_nonneg_r; lia).
  lia.
Qed.

Lemma magnitude_compare (m1 m2 : positive) (e1 e2 : Z) :
  bounded prec emax m1 e1 = true → bounded prec emax m2 e2 = true →
  match e1 ?= e2 with
  | Lt => Lt
  | Gt => Gt
  | Eq => Pos.compare_cont Eq m1 m2
  end = (Zpos m1 * 2 ^ (e1 + 1074) ?= Zpos m2 * 2 ^ (e2 + 1074)).
Proof.
  intros H1 H2. destruct (Z.compare_spec e1 e2) as [->|Hlt|Hgt].
  - apply bounded_inv in H1 as (He & _).
    assert (0 < 2 ^ (e2 + 1074)) by (apply pow2_pos; lia).
    change (Pos.compare_cont Eq m1 m2) with (Zpos m1 ?= Zpos m2).
    destruct (Z.compare_spec (Zpos m1) (Zpos m2)) as [Heq|Hl|Hg]; symmetry.
    + apply Z.compare_eq_iff. by rewrite Heq.
    + apply Z.compare_lt_iff. by apply Z.mul_lt_mono_pos_r.
    + apply Z.compare_gt_iff. by apply Z.mul_lt_mono_pos_r.
  - symmetry. apply Z.compare_lt_iff. by apply magnitude_lt_exponent.
  - symmetry. apply Z.compare_gt_iff. by apply magnitude_lt_exponent.
Qed.

Lemma finite_magnitude_below (m : positive) (e : Z) :
  bounded prec emax m e = true → Zpos m * 2 ^ (e + 1074) < 2 ^ 2100.
Proof.
  intros (He & Hd & _)%bounded_inv.
  destruct (digits2_pos_bounds m) as [_ Hm].
  assert (Hm' : Zpos m < 2 ^ 53).
  { eapply Z.lt_le_trans; [exact Hm|]. apply Z.pow_le_mono_r; lia. }
  assert (H1 : Zpos m * 2 ^ (e + 1074) < 2 ^ 53 * 2 ^ (e + 1074)).
  { apply Z.mul_lt_mono_pos_r; [apply pow2_pos; lia | done]. }
  rewrite <- (pow2_add 53 (e + 1074)) in H1 by lia.
  assert (2 ^ (53 + (e + 1074)) <= 2 ^ 2100) by (apply Z.pow_le_mono_r; lia).
  lia.
Qed.

(** The comparison of two doubles that are not NaN is that of their places
    in the order. *)
Lemma SFcompare_scaled (x y : spec_float) :
  valid_binary x = true → valid_binary y = true →
  SFis_nan x = false → SFis_nan y = false →
  SFcompare x y = Some (SFscaled x ?= SFscaled y).
Proof.
  assert (Hinf : 0 < 2 ^ 2100) by (by apply pow2_pos).
  destruct x as [sx|sx| |sx mx ex], y as [sy|sy| |sy my ey];
    cbn [SFcompare SFscaled valid_binary SFis_nan]; try done.
  - intros _ _ _ _. f_equal. symmetry.
    destruct sy; cbn [cond_Zopp]; [apply Z.compare_gt_iff | apply Z.compare_lt_iff]; lia.
  - intros _ Hy _ _. apply bounded_inv in Hy as (He & _).
    pose proof (finite_magnitude_pos my ey ltac:(lia)). f_equal. symmetry.
    destruct sy; cbn [cond_Zopp]; [apply Z.compare_gt_iff | apply Z.compare_lt_iff]; lia.
  - intros _ _ _ _. f_equal. symmetry.
    destruct sx; cbn [cond_Zopp]; [apply Z.compare_lt_iff | apply Z.compare_gt_iff]; lia.
  - intros _ _ _ _. f_equal. symmetry.
    destruct sx, sy; cbn [cond_Zopp];
      [apply Z.compare_eq_iff | apply Z.compare_lt_iff | apply Z.compare_gt_iff
       | apply Z.compare_eq_iff]; lia.
  - intros _ Hy _ _. pose proof (finite_magnitude_below my ey Hy).
    apply bounded_inv in Hy as (He & _).
    pose proof (finite_magnitude_pos my ey ltac:(lia)). f_equal. symmetry.
    destruct sx, sy; cbn [cond_Zopp];
      [apply Z.compare_lt_iff | apply Z.compare_lt_iff | apply Z.compare_gt_iff
       | apply Z.compare_gt_iff]; lia.
  - intros Hx _ _ _. apply bounded_inv in Hx as (He & _).
    pose proof (finite_magnitude_pos mx ex ltac:(lia)). f_equal. symmetry.
    destruct sx; cbn [cond_Zopp]; [apply Z.compare_lt_iff | apply Z.compare_gt_iff]; lia.
  - intros Hx _ _ _. pose proof (finite_magnitude_below mx ex Hx).
    apply bounded_inv in Hx as (He & _).
    pose proof (finite_magnitude_pos mx ex ltac:(lia)). f_equal. symmetry.
    destruct sx, sy; cbn [cond_Zopp];
      [apply Z.compare_gt_iff | apply Z.compare_lt_iff | apply Z.compare_gt_iff
       | apply Z.compare_lt_iff]; lia.
  - intros Hx Hy _ _. f_equal.
    pose proof (magnitude_compare mx my ex ey Hx Hy) as Hc.
    apply bounded_inv in Hx as (Hex & _). apply bounded_inv in Hy as (Hey & _).
    pose proof (finite_magnitude_pos mx ex ltac:(lia)).
    pose proof (finite_magnitude_pos my ey ltac:(lia)).
    destruct sx, sy; cbn [cond_Zopp].
    + rewrite Z.compare_opp, (Z.compare_antisym (Zpos mx * _)), <- Hc.
      by destruct (ex ?= ey).
    + symmetry. apply Z.compare_lt_iff. lia.
    + symmetry. apply Z.compare_gt_iff. lia.
    + done.
Qed.

Lemma SFcompare_nan (x y : spec_float) :
  SFis_nan x || SFis_nan y = true → SFcompare x y = None.
Proof. by destruct x as [| | |? ? ?], y as [| | |? ? ?]. Qed.

Lemma Prim2SF_infinity : Prim2SF infinity = S754_infinity false.
Proof. reflexivity. Qed.

Lemma is_nan_SF (x : float) : is_nan x = SFis_nan (Prim2SF x).
Proof.
  unfold is_nan. rewrite FloatAxioms.eqb_spec. unfold SFeqb.
  destruct (SFis_nan (Prim2SF x)) eqn:Hnan.
  - by rewrite SFcompare_nan by (by rewrite Hnan).
  - rewrite (SFcompare_scaled _ _ (Prim2SF_valid x) (Prim2SF_valid x) Hnan Hnan).
    by rewrite Z.compare_refl.
Qed.

Lemma is_finite_SF (x : float) : is_finite x = SFis_finite (Prim2SF x).
Proof.
  unfold is_finite, is_infinity. rewrite is_nan_SF.
  rewrite !FloatAxioms.eqb_spec, FloatAxioms.abs_spec, Prim2SF_infinity.
  destruct (Prim2SF x) as [[]|[]| |s m e]; reflexivity.
Qed.

Lemma Prim2SF_finite (x : float) : is_finite x = true → SFis_finite (Prim2SF x) = true.
Proof. by rewrite is_finite_SF. Qed.

Lemma finite_not_nan (x : float) : is_finite x = true → is_nan x = false.
Proof. rewrite is_finite_SF, is_nan_SF. by destruct (Prim2SF x). Qed.

(** [operator<] and [operator<=] of doubles: false on a NaN, and otherwise
    the order of the places. *)
Lemma ltb_scaled (x y : float) :
  PrimFloat.ltb x y = negb (is_nan x) && negb (is_nan y) && (scaled x <? scaled y).
Proof.
  rewrite FloatAxioms.ltb_spec, !is_nan_SF. unfold SFltb, scaled.
  destruct (SFis_nan (Prim2SF x)) eqn:Hx.
  { by rewrite SFcompare_nan by (by rewrite Hx). }
  destruct (SFis_nan (Prim2SF y)) eqn:Hy.
  { by rewrite SFcompare_nan by (by rewrite Hy, orb_true_r). }
  by rewrite (SFcompare_scaled _ _ (Prim2SF_valid x) (Prim2SF_valid y) Hx Hy).
Qed.

Lemma leb_scaled (x y : float) :
  PrimFloat.leb x y = negb (is_nan x) && negb (is_nan y) && (scaled x <=? scaled y).
Proof.
  rewrite FloatAxioms.leb_spec, !is_nan_SF. unfold SFleb, scaled, Z.leb.
  destruct (SFis_nan (Prim2SF x)) eqn:Hx.
  { by rewrite SFcompare_nan by (by rewrite Hx). }
  destruct (SFis_nan (Prim2SF y)) eqn:Hy.
  { by rewrite SFcompare_nan by (by rewrite Hy, orb_true_r). }
  rewrite (SFcompare_scaled _ _ (Prim2SF_valid x) (Prim2SF_valid y) Hx Hy).
  by destruct (_ ?= _).
Qed.

Lemma is_zero_scaled (x : float) :
  is_finite x = true → is_zero x = (scaled x =? 0).
Proof.
  intros Hx. pose proof (finite_not_nan x Hx) as Hnan. rewrite is_nan_SF in Hnan.
  unfold is_zero.
  rewrite FloatAxioms.eqb_spec. unfold SFeqb, scaled, Z.eqb.
  rewrite (SFcompare_scaled _ _ (Prim2SF_valid x) (Prim2SF_valid zero) Hnan eq_refl).
  change (SFscaled (Prim2SF zero)) with 0.
  destruct (SFscaled (Prim2SF x)); done.
Qed.

Lemma abs_finite (x : float) : is_finite x = true → is_finite (abs x) = true.
Proof.
  rewrite !is_finite_SF, FloatAxioms.abs_spec. by destruct (Prim2SF x).
Qed.

Lemma abs_scaled (x : float) : scaled (abs x) = Z.abs (scaled x).
Proof.
  unfold scaled. rewrite FloatAxioms.abs_spec.
  destruct (Prim2SF x) as [s|s| |s m e]; try done; cbn [SFabs SFscaled].
  - destruct s; cbn [cond_Zopp]; lia.
  - assert (0 <= Zpos m * 2 ^ (e + 1074)) by (pose proof (Z.pow_nonneg 2 (e + 1074)); nia).
    destruct s; cbn [cond_Zopp]; lia.
Qed.

(** *** Division *)

Lemma shr_1_mantissa (mrs : shr_record) :
  0 <= shr_m mrs → shr_m (shr_1 mrs) = shr_m mrs / 2.
Proof.
  destruct mrs as [m r s]. simpl. intros Hm.
  destruct m as [|[p|p|]|p]; try lia; simpl shr_m.
  - done.
  - rewrite Pos2Z.inj_xI. apply Z.div_unique with (r := 1); lia.
  - rewrite Pos2Z.inj_xO. apply Z.div_unique with (r := 0); lia.
  - done.
Qed.

Lemma iter_shr_1_mantissa (p : positive) (mrs : shr_record) :
  0 <= shr_m mrs → shr_m (SpecFloat.iter_pos shr_1 p mrs) = shr_m mrs / 2 ^ Zpos p.
Proof.
  revert mrs. induction p as [p IH|p IH|]; intros mrs Hm; simpl SpecFloat.iter_pos.
  - pose proof (shr_1_mantissa mrs Hm) as H1.
    assert (0 <= shr_m (shr_1 mrs)) by (rewrite H1; apply Z.div_pos; lia).
    assert (0 < 2 ^ Zpos p) by (by apply pow2_pos).
    rewrite IH, IH, H1 by (try rewrite IH by done; try apply Z.div_pos; lia).
    rewrite !Z.div_div by lia. f_equal.
    rewrite Pos2Z.inj_xI. replace (2 * Zpos p + 1) with (1 + Zpos p + Zpos p) by lia.
    rewrite !pow2_add by lia. change (2 ^ 1) with 2. lia.
  - assert (0 < 2 ^ Zpos p) by (by apply pow2_pos).
    rewrite IH, IH by (try rewrite IH by done; try apply Z.div_pos; lia).
    rewrite !Z.div_div by lia. f_equal.
    rewrite (Pos2Z.inj_xO p), <- Z.add_diag, pow2_add by lia. done.
  - by apply shr_1_mantissa.
Qed.

(** [shr_fexp] drops the low bits of the mantissa. *)
Lemma shr_fexp_mantissa (m e : Z) (l : location) :
  0 <= m →
  let n := Z.max 0 (fexp prec emax (Zdigits2 m + e) - e) in
  (shr_fexp prec emax m e l).2 = e + n ∧
  shr_m (shr_fexp prec emax m e l).1 = m / 2 ^ n.
Proof.
  intros Hm n. subst n. unfold shr_fexp, shr.
  assert (Hrec : shr_m (shr_record_of_loc m l) = m) by (by destruct l as [|[]]).
  destruct (fexp prec emax (Zdigits2 m + e) - e) as [|p|p] eqn:Hn; simpl.
  - rewrite Hrec, Z.div_1_r. split; [lia | done].
  - rewrite iter_shr_1_mantissa, Hrec by (rewrite Hrec; done). done.
  - rewrite Hrec, Z.div_1_r. split; [lia | done].
Qed.

Lemma round_nearest_even_bounds (m : Z) (l : location) :
  m <= round_nearest_even m l <= m + 1.
Proof. destruct l as [|[]]; simpl; try lia. destruct (Z.even m); lia. Qed.

(** Rounding a quotient below one: the result is a number that is at most
    one.  [q * 2^e] with [q < 2^-e] is the quotient cut off, and [l] tells
    what was cut off. *)
Lemma binary_round_aux_below_one (sx : bool) (q e : Z) (l : location) :
  0 <= q → e <= 0 → q < 2 ^ (- e) →
  let r := binary_round_aux prec emax sx q e l in
  SFis_finite r = true ∧ Z.abs (SFscaled r) <= 2 ^ 1074.
Proof.
  intros Hq He Hlt. unfold binary_round_aux.
  destruct (shr_fexp_mantissa q e l Hq) as [He1 Hm1].
  destruct (shr_fexp prec emax q e l) as [mrs1 e1]. simpl in He1, Hm1.
  set (n1 := Z.max 0 (fexp prec emax (Zdigits2 q + e) - e)) in *.
  assert (Hd : Zdigits2 q <= - e) by (apply Zdigits2_le; lia).
  assert (Hn1 : 0 <= n1) by lia.
  assert (He1' : -1074 <= e1 <= 0).
  { subst e1 n1. unfold fexp, SpecFloat.emin, prec, emax. lia. }
  (* the truncated mantissa is below 2^-e1 *)
  assert (Hp1 : 0 < 2 ^ n1) by (by apply pow2_pos).
  assert (Hmt : 0 <= shr_m mrs1 < 2 ^ (- e1)).
  { rewrite Hm1. split; [apply Z.div_pos; lia|].
    apply Z.div_lt_upper_bound; [done|].
    rewrite <- pow2_add by lia. by replace (n1 + - e1) with (- e) by lia. }
  pose proof (round_nearest_even_bounds (shr_m mrs1) (loc_of_shr_record mrs1)) as Hr.
  set (m2 := round_nearest_even (shr_m mrs1) (loc_of_shr_record mrs1)) in *.
  assert (Hm2 : 0 <= m2) by lia.
  destruct (shr_fexp_mantissa m2 e1 loc_Exact Hm2) as [He2 Hm3].
  destruct (shr_fexp prec emax m2 e1 loc_Exact) as [mrs2 e2]. simpl in He2, Hm3.
  set (n2 := Z.max 0 (fexp prec emax (Zdigits2 m2 + e1) - e1)) in *.
  assert (Hn2 : 0 <= n2) by lia.
  assert (Hp2 : 0 < 2 ^ n2) by (by apply pow2_pos).
  assert (Hm3' : 0 <= shr_m mrs2 ∧ shr_m mrs2 * 2 ^ n2 <= 2 ^ (- e1)).
  { rewrite Hm3. split; [apply Z.div_pos; lia|].
    pose proof (Z.mul_div_le m2 (2 ^ n2) Hp2). lia. }
  destruct Hm3' as [Hm3a Hm3b].
  destruct (shr_m mrs2) as [|p|p] eqn:Hp; [done| |lia].
  (* the value of the result is at most one *)
  assert (Hval : Zpos p * 2 ^ (e2 + 1074) <= 2 ^ 1074).
  { replace (e2 + 1074) with (n2 + (e1 + 1074)) by lia.
    rewrite pow2_add by lia.
    replace (2 ^ 1074) with (2 ^ (- e1) * 2 ^ (e1 + 1074))
      by (rewrite <- pow2_add by lia; f_equal; lia).
    rewrite Z.mul_assoc. apply Z.mul_le_mono_nonneg_r; [|done].
    apply Z.pow_nonneg. lia. }
  assert (He2' : e2 <= 0).
  { destruct (Z_le_gt_dec e2 0) as [|Hgt]; [done|]. exfalso.
    assert (2 ^ 1074 < 2 ^ (e2 + 1074)) by (apply Z.pow_lt_mono_r; lia).
    assert (2 ^ (e2 + 1074) <= Zpos p * 2 ^ (e2 + 1074)); [|lia].
    assert (0 < 2 ^ (e2 + 1074)) by (apply pow2_pos; lia). nia. }
  destruct (Z.leb_spec e2 (emax - prec)) as [_|Hover];
    [|unfold emax, prec in Hover; lia].
  split; [done|]. cbn [SFscaled].
  assert (0 <= Zpos p * 2 ^ (e2 + 1074)) by (pose proof (Z.pow_nonneg 2 (e2 + 1074)); nia).
  destruct sx; cbn [cond_Zopp]; lia.
Qed.

(** The division of mantissas, for a dividend that is smaller in magnitude
    than the divisor: the quotient is below one. *)
Lemma SFdiv_core_binary_below_one (mx my : positive) (ex ey : Z) :
  bounded prec emax mx ex = true → bounded prec emax my ey = true →
  Zpos mx * 2 ^ (ex + 1074) < Zpos my * 2 ^ (ey + 1074) →
  let '(q, e, l) := SFdiv_core_binary prec emax (Zpos mx) ex (Zpos my) ey in
  0 <= q ∧ e <= 0 ∧ q < 2 ^ (- e).
Proof.
  intros Hx Hy Hlt. unfold SFdiv_core_binary.
  pose proof Hx as (Hex & Hdx & _)%bounded_inv. pose proof Hy as (Hey & Hdy & _)%bounded_inv.
  cbn [Zdigits2].
  set (d1 := Zpos (digits2_pos mx)) in *. set (d2 := Zpos (digits2_pos my)) in *.
  destruct (digits2_pos_bounds mx) as [Hlo1 _]. destruct (digits2_pos_bounds my) as [_ Hhi2].
  fold d1 in Hlo1. fold d2 in Hhi2.
  assert (Hd1 : 0 < d1) by (subst d1; lia). assert (Hd2 : 0 < d2) by (subst d2; lia).
  (* the dividend has no more digits before the point than the divisor *)
  assert (Hk : d1 + ex - (d2 + ey) <= 0).
  { destruct (Z_le_gt_dec (d1 + ex) (d2 + ey)) as [|Hgt]; [lia|]. exfalso.
    assert (H1 : 2 ^ (d1 - 1 + (ex + 1074)) <= Zpos mx * 2 ^ (ex + 1074)).
    { rewrite (pow2_add (d1 - 1) (ex + 1074)) by lia.
      apply Z.mul_le_mono_nonneg_r; [apply Z.pow_nonneg; lia | done]. }
    assert (H2 : Zpos my * 2 ^ (ey + 1074) < 2 ^ (d2 + (ey + 1074))).
    { rewrite (pow2_add d2 (ey + 1074)) by lia.
      apply Z.mul_lt_mono_pos_r; [apply pow2_pos; lia | done]. }
    assert (2 ^ (d2 + (ey + 1074)) <= 2 ^ (d1 - 1 + (ex + 1074)))
      by (apply Z.pow_le_mono_r; lia).
    lia. }
  set (e := Z.min (fexp prec emax (d1 + ex - (d2 + ey))) (ex - ey)).
  assert (He : e <= -53 ∧ e <= ex - ey).
  { subst e. unfold fexp, SpecFloat.emin, prec, emax. lia. }
  destruct He as [He Hes].
  set (s := ex - ey - e). assert (Hs : 0 <= s) by (subst s; lia).
  assert (Hm' : match s with
                | Z.pos _ => Z.shiftl (Zpos mx) s
                | 0 => Zpos mx
                | Z.neg _ => 0
                end = Zpos mx * 2 ^ s).
  { destruct s as [|p|p] eqn:Hsp; [lia | | lia]. by rewrite Z.shiftl_mul_pow2. }
  rewrite Hm'. clear Hm'.
  pose proof (Z_div_mod (Zpos mx * 2 ^ s) (Zpos my) ltac:(lia)) as Hdiv.
  destruct (Z.div_eucl (Zpos mx * 2 ^ s) (Zpos my)) as [q r]. destruct Hdiv as [Hqr Hr].
  assert (HS : 0 < 2 ^ s) by (by apply pow2_pos).
  assert (HN : 0 < 2 ^ (- e)) by (apply pow2_pos; lia).
  assert (HB : 0 < 2 ^ (ey + 1074)) by (apply pow2_pos; lia).
  (* mx * 2^s < my * 2^-e *)
  assert (Hbelow : Zpos mx * 2 ^ s < Zpos my * 2 ^ (- e)).
  { assert (E1 : 2 ^ s * 2 ^ (ey + 1074) = 2 ^ (ex + 1074) * 2 ^ (- e)).
    { rewrite <- (pow2_add s (ey + 1074)), <- (pow2_add (ex + 1074) (- e)) by lia.
      f_equal. subst s. lia. }
    apply (Z.mul_lt_mono_pos_r (2 ^ (ey + 1074))); [done|].
    rewrite <- (Z.mul_assoc (Zpos mx)), E1, Z.mul_assoc.
    rewrite <- (Z.mul_assoc (Zpos my)), (Z.mul_comm (2 ^ (- e))), Z.mul_assoc.
    by apply Z.mul_lt_mono_pos_r. }
  split; [|split; [lia|]].
  - assert (0 <= Zpos mx * 2 ^ s) by lia. nia.
  - nia.
Qed.

(** The quotient of a double by itself is one, up to the sign. *)
Lemma SFdiv_same_magnitude (sx sy : bool) (m : positive) (e : Z) :
  SFdiv prec emax (S754_finite sx m e) (S754_finite sy m e)
  = S754_finite (xorb sx sy) 4503599627370496 (-52).
Proof.
  unfold SFdiv, SFdiv_core_binary. cbn [Zdigits2].
  rewrite Z.sub_diag.
  change (Z.min (fexp prec emax (Z.pos (digits2_pos m) + e - (Z.pos (digits2_pos m) + e))) 0)
    with (Z.min (fexp prec emax (Z.pos (digits2_pos m) + e - (Z.pos (digits2_pos m) + e))) 0).
  rewrite Z.sub_diag. change (Z.min (fexp prec emax 0) 0) with (-53).
  change (0 - -53) with 53. cbv iota.
  rewrite Z.shiftl_mul_pow2 by lia.
  pose proof (Z_div_mod (Zpos m * 2 ^ 53) (Zpos m) ltac:(lia)) as Hdiv.
  destruct (Z.div_eucl (Zpos m * 2 ^ 53) (Zpos m)) as [q r]. destruct Hdiv as [Hqr Hr].
  change (2 ^ 53) with 9007199254740992 in Hqr |- *.
  assert (Hq : q = 9007199254740992).
  { destruct (Z.lt_trichotomy q 9007199254740992) as [?|[?|?]]; [nia | done | nia]. }
  subst q. assert (r = 0) as -> by lia.
  assert (Hloc : new_location (Zpos m) 0 = loc_Exact).
  { unfold new_location. by destruct (Z.even (Zpos m)). }
  rewrite Hloc. by destruct (xorb sx sy).
Qed.

(** The quotient of two doubles that are numbers, the divisor not zero and
    not smaller in magnitude than the dividend, is a number between -1 and
    1. *)
Lemma SFdiv_below_one (x y : spec_float) :
  valid_binary x = true → valid_binary y = true →
  SFis_finite x = true → SFis_finite y = true →
  SFscaled y ≠ 0 → Z.abs (SFscaled x) <= Z.abs (SFscaled y) →
  SFis_finite (SFdiv prec emax x y) = true ∧
  Z.abs (SFscaled (SFdiv prec emax x y)) <= 2 ^ 1074.
Proof.
  destruct x as [sx|sx| |sx mx ex], y as [sy|sy| |sy my ey];
    cbn [valid_binary SFis_finite SFscaled]; try done.
  intros Hx Hy _ _ _ Hle.
  pose proof Hx as (Hex & _)%bounded_inv. pose proof Hy as (Hey & _)%bounded_inv.
  pose proof (finite_magnitude_pos mx ex ltac:(lia)) as Hpx.
  pose proof (finite_magnitude_pos my ey ltac:(lia)) as Hpy.
  assert (Hle' : Zpos mx * 2 ^ (ex + 1074) <= Zpos my * 2 ^ (ey + 1074)).
  { revert Hle. destruct sx, sy; cbn [cond_Zopp]; lia. }
  destruct (Z_le_lt_eq_dec _ _ Hle') as [Hlt|Heq].
  - pose proof (SFdiv_core_binary_below_one mx my ex ey Hx Hy Hlt) as Hcore.
    unfold SFdiv.
    destruct (SFdiv_core_binary prec emax (Zpos mx) ex (Zpos my) ey) as [[q e] l].
    destruct Hcore as (Hq & He & Hqlt).
    by apply binary_round_aux_below_one.
  - pose proof (magnitude_compare mx my ex ey Hx Hy) as Hc.
    rewrite Heq, Z.compare_refl in Hc.
    destruct (Z.compare_spec ex ey) as [->|?|?]; [|done..].
    change (Pos.compare_cont Eq mx my) with (mx ?= my)%positive in Hc.
    apply Pos.compare_eq_iff in Hc as ->.
    rewrite SFdiv_same_magnitude. split; [done|].
    cbn [SFscaled]. destruct (xorb sx sy); vm_compute; discriminate.
Qed.

(** On doubles: the quotient by a divisor that is not smaller in magnitude is
    between -1 and 1. *)
Lemma div_below_one (x s : float) :
  is_finite x = true → is_finite s = true →
  scaled s ≠ 0 → Z.abs (scaled x) <= Z.abs (scaled s) →
  PrimFloat.leb (-1)%float (x / s) = true ∧ PrimFloat.leb (x / s) 1%float = true.
Proof.
  intros Hx Hs Hnz Hle.
  destruct (SFdiv_below_one (Prim2SF x) (Prim2SF s) (Prim2SF_valid x) (Prim2SF_valid s)
              (Prim2SF_finite x Hx) (Prim2SF_finite s Hs) Hnz Hle) as [Hfin Hone].
  change (SFdiv prec emax) with SF64div in Hfin, Hone.
  rewrite <- FloatAxioms.div_spec in Hfin, Hone.
  rewrite <- is_finite_SF in Hfin. fold (scaled (x / s)) in Hone.
  rewrite !leb_scaled, (finite_not_nan _ Hfin).
  change (scaled (-1)) with (- 2 ^ 1074). change (scaled 1) with (2 ^ 1074).
  change (is_nan (-1)) with false. change (is_nan 1) with false.
  split; apply Z.leb_le; lia.
Qed.

(** *** The order of the doubles *)

Lemma ltb_irrefl (x : float) : PrimFloat.ltb x x = false.
Proof. rewrite ltb_scaled, Z.ltb_irrefl. by rewrite andb_false_r. Qed.

Lemma ltb_true (x y : float) :
  PrimFloat.ltb x y = true ↔ is_nan x = false ∧ is_nan y = false ∧ scaled x < scaled y.
Proof.
  rewrite ltb_scaled, !andb_true_iff, !negb_true_iff, Z.ltb_lt. tauto.
Qed.

Lemma leb_true (x y : float) :
  PrimFloat.leb x y = true ↔ is_nan x = false ∧ is_nan y = false ∧ scaled x <= scaled y.
Proof.
  rewrite leb_scaled, !andb_true_iff, !negb_true_iff, Z.leb_le. tauto.
Qed.

Lemma ltb_trans (x y z : float) :
  PrimFloat.ltb x y = true → PrimFloat.ltb y z = true → PrimFloat.ltb x z = true.
Proof. rewrite !ltb_true. intros (? & ? & ?) (? & ? & ?). repeat split; [done..|lia]. Qed.

Lemma leb_ltb_trans (x y z : float) :
  PrimFloat.leb x y = true → PrimFloat.ltb y z = true → PrimFloat.ltb x z = true.
Proof.
  rewrite !ltb_true, leb_true. intros (? & ? & ?) (? & ? & ?). repeat split; [done..|lia].
Qed.

Lemma ltb_leb_trans (x y z : float) :
  PrimFloat.ltb x y = true → PrimFloat.leb y z = true → PrimFloat.ltb x z = true.
Proof.
  rewrite !ltb_true, leb_true. intros (? & ? & ?) (? & ? & ?). repeat split; [done..|lia].
Qed.

Lemma ltb_leb (x y : float) : PrimFloat.ltb x y = true → PrimFloat.leb x y = true.
Proof. rewrite ltb_true, leb_true. intros (? & ? & ?). repeat split; [done..|lia]. Qed.

(** Two doubles that are not NaN are comparable. *)
Lemma not_ltb_leb (x y : float) :
  is_nan x = false → is_nan y = false → PrimFloat.ltb x y = false → PrimFloat.leb y x = true.
Proof.
  intros Hx Hy. rewrite ltb_scaled, Hx, Hy. simpl. intros Hlt%Z.ltb_ge.
  apply leb_true. done.
Qed.


End Doubles.

(** ** Assembly of the weight vector, the residuals and the partials *)

Section Assembly.
Context {Sc : Scalar}.

Lemma rows_nonneg {A} (v : list A) : 0 <= rows v.
Proof. unfold rows. lia. Qed.

Lemma rows_app {A} (v w : list A) : rows (v ++ w) = rows v + rows w.
Proof. unfold rows. rewrite length_app. lia. Qed.

(** Writing a segment right after the part [filled] of a vector. *)
Lemma segment_assign_after {A} (filled rest w : list A) :
  segment_assign (filled ++ rest) (rows filled) (rows w) w
  = (filled ++ w) ++ drop (length w) rest.
Proof.
  unfold segment_assign, rows.
  rewrite Nat2Z.id, take_app_length.
  replace (Z.to_nat (Z.of_nat (length filled) + Z.of_nat (length w)))
    with (length filled + length w)%nat by lia.
  rewrite drop_app_add'; [|done]. by rewrite <- app_assoc.
Qed.

Lemma total_rows_cons {A} (v : list A) segments :
  total_rows (v :: segments) = rows v + total_rows segments.
Proof. unfold total_rows. simpl. apply rows_app. Qed.

Lemma total_rows_nonneg {A} (segments : list (list A)) : 0 <= total_rows segments.
Proof. apply rows_nonneg. Qed.

(** The counting loop: as long as the count fits an [int] it is the sum. *)
Lemma count_loop {A} (segments : list (list A)) (count : Z) :
  0 <= count → count + total_rows segments <= INT_MAX →
  fold_left (λ total v, to_int (total + rows v)) segments count = count + total_rows segments.
Proof.
  revert count. induction segments as [|v segments IH]; intros count Hc Hmax; simpl.
  - unfold total_rows. simpl. unfold rows. simpl. lia.
  - rewrite total_rows_cons in *.
    pose proof (rows_nonneg v). pose proof (total_rows_nonneg segments).
    rewrite to_int_small by (unfold INT_MAX in *; lia).
    rewrite IH by lia. lia.
Qed.

(** The writing loop: started on a vector whose part [filled] is written and
    whose rest has room for the segments, it writes them one after the other
    and leaves what is left of the rest. *)
Lemma write_loop {A} (segments : list (list A)) (filled rest : list A) :
  total_rows segments <= rows rest → rows filled + total_rows segments <= INT_MAX →
  fold_left (λ state v, (segment_assign state.1 state.2 (rows v) v, to_int (state.2 + rows v)))
            segments (filled ++ rest, rows filled)
  = (filled ++ concat segments ++ drop (length (concat segments)) rest,
     rows filled + total_rows segments).
Proof.
  revert filled rest. induction segments as [|v segments IH]; intros filled rest Hroom Hmax; simpl.
  - f_equal. unfold total_rows; simpl. unfold rows; simpl. lia.
  - rewrite total_rows_cons in *.
    pose proof (rows_nonneg v). pose proof (total_rows_nonneg segments).
    pose proof (rows_nonneg filled).
    rewrite segment_assign_after.
    rewrite to_int_small by (unfold INT_MAX in *; lia).
    rewrite <- rows_app.
    rewrite IH.
    + rewrite <- !app_assoc, drop_drop, length_app, rows_app. f_equal. lia.
    + unfold rows in *. rewrite length_drop. lia.
    + rewrite rows_app. lia.
Qed.

Lemma fold_left_nested {X Y B} (f : B → Y → B) (g : X → list Y) (xs : list X) (b : B) :
  fold_left (λ acc x, fold_left f (g x) acc) xs b = fold_left f (xs ≫= g) b.
Proof.
  revert b. induction xs as [|x xs IH]; intros b; simpl; [done|].
  by rewrite fold_left_app, IH.
Qed.

Lemma fold_left_on_fmap {Y Z' B} (f : B → Z' → B) (h : Y → Z') (ys : list Y) (b : B) :
  fold_left (λ acc y, f acc (h y)) ys b = fold_left f (h <$> ys) b.
Proof. revert b. induction ys as [|y ys IH]; intros b; simpl; [done|]. apply IH. Qed.

End Assembly.

Section WeightsAndResiduals.
Context {Sc : Scalar} {Ext : External}.

Lemma imap_label_values {A L'} (lab : nat → L') (es : list A) :
  (imap (λ k a, (lab k, a)) es).*2 = es.
Proof.
  rewrite fmap_imap. rewrite (imap_ext _ (const id)) by done.
  by rewrite imap_const, list_fmap_id.
Qed.

Lemma imap_label_keys {A L'} (lab : nat → L') (es : list A) :
  (imap (λ k a, (lab k, a)) es).*1 = lab <$> seq 0 (length es).
Proof.
  rewrite fmap_imap. rewrite (imap_ext _ (λ j _, lab j)) by done.
  apply imap_seq_0.
Qed.

Lemma labelled_values {V A} (entries : ObservableType * LinkEnds * V → list A) m :
  (labelled entries m).*2 = concat (entries <$> segments_of m).
Proof.
  unfold labelled. induction (segments_of m) as [|seg segs IH]; [done|].
  rewrite bind_cons, fmap_app, IH, fmap_cons. simpl. f_equal.
  apply (imap_label_values (λ k, (seg.1.1, seg.1.2, k))).
Qed.

(** The triples of the entries depend on the keys and on the sizes of the
    segments only. *)
Lemma labelled_keys {V A} (entries : ObservableType * LinkEnds * V → list A) m :
  (labelled entries m).*1
  = ((λ seg, (seg.1, length (entries seg))) <$> segments_of m)
      ≫= λ s, (λ k, (s.1.1, s.1.2, k)) <$> seq 0 s.2.
Proof.
  unfold labelled. induction (segments_of m) as [|seg segs IH]; [done|].
  rewrite bind_cons, fmap_app, IH, fmap_cons, bind_cons. simpl. f_equal.
  apply (imap_label_keys (λ k, (seg.1.1, seg.1.2, k))).
Qed.

(** An entry that is labelled with a triple is the entry of the map of maps
    under the keys and at the position of the triple. *)
Lemma labelled_entry_of {V A} (entries : ObservableType * LinkEnds * V → list A) m
    (i : nat) triple (a : A) :
  labelled entries m !! i = Some (triple, a) → entry_of entries m triple a.
Proof.
  intros Hi%list_elem_of_lookup_2. unfold labelled, segments_of in Hi.
  apply list_elem_of_bind in Hi as (seg & Hin & Hseg).
  apply elem_of_lookup_imap in Hin as (k & a' & [= -> ->] & Hk).
  apply list_elem_of_bind in Hseg as ([t inner] & Hd & Ho).
  apply list_elem_of_fmap in Hd as ([l v] & -> & Hd). simpl in *.
  exists inner, v. auto.
Qed.

Lemma weights_fold_flat {B} (f : B → list double → B) (weightsData : WeightsDataStructure) b :
  fold_left (λ acc observablesIterator,
     fold_left (λ acc dataIterator, f acc dataIterator.2) observablesIterator.2 acc)
     weightsData b
  = fold_left f ((λ seg, seg.2) <$> segments_of weightsData) b.
Proof.
  unfold segments_of. revert b.
  induction weightsData as [|o m IH]; intros b; [done|].
  rewrite bind_cons, fmap_app, fold_left_app, <- IH. simpl. f_equal.
  rewrite <- list_fmap_compose. apply fold_left_on_fmap.
Qed.

(** The weight vector is the concatenation of the segments of the weights, as
    long as their number fits an [int]. *)
Lemma getConcatenatedWeightsVector_concat (weightsData : WeightsDataStructure) :
  total_rows ((λ seg, seg.2) <$> segments_of weightsData) <= INT_MAX →
  getConcatenatedWeightsVector weightsData
  = concat ((λ seg, seg.2) <$> segments_of weightsData).
Proof.
  intros Hmax. unfold getConcatenatedWeightsVector.
  set (segs := (λ seg, seg.2) <$> segments_of weightsData) in *.
  rewrite (weights_fold_flat (λ total v, to_int (total + rows v))).
  fold segs. rewrite count_loop by (done || lia). rewrite Z.add_0_l.
  rewrite (weights_fold_flat
    (λ state v, (segment_assign state.1 state.2 (rows v) v, to_int (state.2 + rows v)))).
  fold segs.
  pose proof (write_loop segs [] (Zero (total_rows segs))) as Hw.
  simpl in Hw. change (rows []) with 0 in Hw. rewrite Hw.
  - simpl. unfold Zero, total_rows, rows. rewrite Nat2Z.id.
    rewrite drop_replicate, Nat.sub_diag. simpl. by rewrite app_nil_r.
  - unfold Zero, total_rows, rows. rewrite length_replicate. lia.
  - lia.
Qed.

Lemma total_rows_app {A} (a b : list (list A)) :
  total_rows (a ++ b) = total_rows a + total_rows b.
Proof. unfold total_rows. rewrite concat_app. apply rows_app. Qed.

Lemma count_for_observable (t : ObservableType)
    (inner : SingleObservablePodInputType) (n : gmap ObservableType Z) :
  0 <= n !!! t → n !!! t + total_rows ((λ d, d.2.1) <$> inner) <= INT_MAX →
  fold_left (λ numberOfObservations dataIterator,
      <[t := to_int (numberOfObservations !!! t + rows dataIterator.2.1)]> numberOfObservations)
    inner n !!! t
  = n !!! t + total_rows ((λ d, d.2.1) <$> inner).
Proof.
  revert n. induction inner as [|d inner IH]; intros n Hn Hmax.
  - simpl. unfold total_rows, rows. simpl. lia.
  - rewrite fmap_cons, total_rows_cons in Hmax. rewrite fmap_cons, total_rows_cons.
    simpl in *.
    pose proof (rows_nonneg d.2.1). pose proof (total_rows_nonneg ((λ d, d.2.1) <$> inner)).
    rewrite IH. all: rewrite ?lookup_total_insert_eq, ?to_int_small.
    all: unfold INT_MAX in *; lia.
Qed.

Lemma count_loop_observables (observationsAndTimes : PodInputType)
    (n : gmap ObservableType Z) (count : Z) :
  0 <= count → count + total_rows (observed_segments observationsAndTimes) <= INT_MAX →
  (fold_left countForObservable observationsAndTimes (n, count)).2
  = count + total_rows (observed_segments observationsAndTimes).
Proof.
  unfold observed_segments, segments_of. revert n count.
  induction observationsAndTimes as [|[t inner] O IH]; intros n count Hcount Hmax.
  - simpl. unfold total_rows, rows. simpl. lia.
  - rewrite bind_cons, fmap_app, total_rows_app in *.
    rewrite <- list_fmap_compose in *. simpl in Hmax |- *.
    change ((λ seg : Segment, seg.2.1) ∘ (λ d, (t, d.1, d.2)))
      with (λ d : LinkEnds * (list double * (list TimeType * LinkEndType)), d.2.1) in *.
    pose proof (total_rows_nonneg ((λ d, d.2.1) <$> inner)) as Hin.
    match goal with |- context [total_rows (?f <$> (O ≫= ?g))] =>
      pose proof (total_rows_nonneg (f <$> (O ≫= g))) as Hrest end.
    assert (Hst : (countForObservable (n, count) (t, inner)).2
                  = count + total_rows ((λ d, d.2.1) <$> inner)).
    { unfold countForObservable. simpl.
      rewrite count_for_observable; rewrite ?lookup_total_insert_eq; try lia.
      rewrite Z.add_0_l, to_int_small by (unfold INT_MAX in *; lia). done. }
    destruct (countForObservable (n, count) (t, inner)) as [n' count'].
    simpl in Hst. subst count'. rewrite IH; lia.
Qed.

(** The total that [estimateParameters] takes from
    [getNumberOfObservationsPerObservable] is the number of observations, as
    long as this fits an [int]. *)
Lemma getNumberOfObservationsPerObservable_total (observationsAndTimes : PodInputType) :
  total_rows (observed_segments observationsAndTimes) <= INT_MAX →
  (getNumberOfObservationsPerObservable observationsAndTimes).2
  = total_rows (observed_segments observationsAndTimes).
Proof.
  intros Hmax. unfold getNumberOfObservationsPerObservable.
  rewrite count_loop_observables; lia.
Qed.

(** **** The loops of calculateObservationMatrixAndResiduals *)

Lemma for_each_app {X V} (body : X → V → Member V) (xs ys : list X) (v : V) this :
  for_each body (xs ++ ys) v this = bind (for_each body xs v) (for_each body ys) this.
Proof.
  revert v this. induction xs as [|x xs IH]; intros v this; simpl.
  - done.
  - unfold bind. destruct (body x v this) as [this' [v'|f]]; [|done].
    rewrite IH. done.
Qed.

Lemma for_each_fmap {X Y V} (body : Y → V → Member V) (f : X → Y) (xs : list X) (v : V) this :
  for_each body (f <$> xs) v this = for_each (λ x, body (f x)) xs v this.
Proof.
  revert v this. induction xs as [|x xs IH]; intros v this; simpl; [done|].
  unfold bind. destruct (body (f x) v this) as [this' [v'|fl]]; [|done]. apply IH.
Qed.

(** The two loops of [calculateObservationMatrixAndResiduals] are one loop
    over the segments. *)
Lemma calculate_loops_flat (observationsAndTimes : PodInputType) (parameterVectorSize : Z)
    state this :
  for_each (λ observablesIterator state,
      for_each (calculateForLinkEnds observablesIterator.1 parameterVectorSize)
               observablesIterator.2 state)
    observationsAndTimes state this
  = for_each (λ seg : Segment,
      calculateForLinkEnds seg.1.1 parameterVectorSize (seg.1.2, seg.2))
    (segments_of observationsAndTimes) state this.
Proof.
  unfold segments_of. revert state this.
  induction observationsAndTimes as [|[t inner] O IH]; intros state this; [done|].
  rewrite bind_cons, for_each_app. simpl. unfold bind.
  rewrite for_each_fmap. simpl.
  destruct (for_each _ inner state this) as [this' [state'|f]]; [|done].
  apply IH.
Qed.

Lemma calculateForLinkEnds_registered managers this parameterVectorSize (seg : Segment) state :
  manager_answers managers this seg →
  calculateForLinkEnds seg.1.1 parameterVectorSize (seg.1.2, seg.2) state this
  = (this, Returns
      ((segment_assign state.1.1 state.2 (rows seg.2.1) (residual_segment managers this seg),
        segment_assign state.1.2 state.2 (rows seg.2.1) (partial_segment managers this seg)),
       to_int (state.2 + rows seg.2.1))).
Proof.
  intros (Hreg & _ & _).
  unfold calculateForLinkEnds, bind, observationManagers_subscript, arrow, get_environment, ret.
  rewrite Hreg. reflexivity.
Qed.

(** Without a manager under the observable type, the subscript inserts a null
    pointer under it and the call through the pointer fails. *)
Lemma calculateForLinkEnds_unregistered this (observableType : ObservableType)
    parameterVectorSize dataIterator state :
  observationManagers_ this !! observableType = None →
  ∃ this',
    calculateForLinkEnds observableType parameterVectorSize dataIterator state this
      = (this', Fails NullPointerDereference) ∧
    observationManagers_ this' = <[observableType := None]> (observationManagers_ this) ∧
    this' ≠ this.
Proof.
  intros Hnone.
  unfold calculateForLinkEnds, bind, observationManagers_subscript, arrow.
  rewrite Hnone. eexists. split; [reflexivity|]. split; [reflexivity|].
  intros Heq. apply (f_equal (λ this, observationManagers_ this !! observableType)) in Heq.
  simpl in Heq. rewrite lookup_insert_eq, Hnone in Heq. discriminate.
Qed.

Lemma residual_segment_rows managers this (seg : Segment) :
  manager_answers managers this seg → rows (residual_segment managers this seg) = rows seg.2.1.
Proof.
  intros (_ & Hv & _). unfold residual_segment, vsub, rows.
  rewrite length_zip_with. lia.
Qed.

Lemma partial_segment_rows managers this (seg : Segment) :
  manager_answers managers this seg → rows (partial_segment managers this seg) = rows seg.2.1.
Proof. intros (_ & _ & Hp). unfold partial_segment, rows. lia. Qed.

(** The loop over the segments writes the residuals and the partials of the
    segments one after the other, and does not change the manager. *)
Lemma calculate_loop managers this parameterVectorSize (segs : list Segment)
    (filledR restR : list double) (filledP restP : list (list double)) :
  Forall (manager_answers managers this) segs →
  rows filledR = rows filledP →
  total_rows ((λ seg, seg.2.1) <$> segs) <= rows restR →
  total_rows ((λ seg, seg.2.1) <$> segs) <= rows restP →
  rows filledR + total_rows ((λ seg, seg.2.1) <$> segs) <= INT_MAX →
  for_each (λ seg : Segment,
      calculateForLinkEnds seg.1.1 parameterVectorSize (seg.1.2, seg.2))
    segs ((filledR ++ restR, filledP ++ restP), rows filledR) this
  = (this, Returns
      ((filledR ++ concat (residual_segment managers this <$> segs)
          ++ drop (Z.to_nat (total_rows ((λ seg, seg.2.1) <$> segs))) restR,
        filledP ++ concat (partial_segment managers this <$> segs)
          ++ drop (Z.to_nat (total_rows ((λ seg, seg.2.1) <$> segs))) restP),
       rows filledR + total_rows ((λ seg, seg.2.1) <$> segs))).
Proof.
  intros Hall. revert filledR restR filledP restP.
  induction Hall as [|seg segs Hseg Hall IH]; intros filledR restR filledP restP Heq HR HP Hmax.
  - simpl. unfold ret, total_rows, rows. simpl. rewrite !drop_0. do 3 f_equal. lia.
  - rewrite fmap_cons, total_rows_cons in HR, HP, Hmax.
    rewrite !fmap_cons, total_rows_cons. simpl in HR, HP, Hmax |- *.
    pose proof (rows_nonneg seg.2.1) as Hn.
    pose proof (total_rows_nonneg ((λ seg, seg.2.1) <$> segs)) as Ht.
    pose proof (rows_nonneg filledR) as Hf.
    unfold bind at 1.
    rewrite (calculateForLinkEnds_registered managers this _ seg _ Hseg). simpl.
    rewrite <- (residual_segment_rows managers this seg Hseg) at 1.
    rewrite segment_assign_after.
    rewrite Heq at 1.
    rewrite <- (partial_segment_rows managers this seg Hseg) at 1.
    rewrite segment_assign_after.
    rewrite to_int_small by (unfold INT_MAX in *; lia).
    rewrite <- (residual_segment_rows managers this seg Hseg) at 1.
    rewrite <- rows_app.
    pose proof (residual_segment_rows managers this seg Hseg) as HrR.
    pose proof (partial_segment_rows managers this seg Hseg) as HrP.
    rewrite IH.
    + rewrite <- !app_assoc, !drop_drop, rows_app.
      unfold rows in HrR, HrP.
      replace (length (residual_segment managers this seg)
                 + Z.to_nat (total_rows ((λ seg, seg.2.1) <$> segs)))%nat
        with (Z.to_nat (rows seg.2.1 + total_rows ((λ seg, seg.2.1) <$> segs)))
        by (unfold rows; lia).
      replace (length (partial_segment managers this seg)
                 + Z.to_nat (total_rows ((λ seg, seg.2.1) <$> segs)))%nat
        with (Z.to_nat (rows seg.2.1 + total_rows ((λ seg, seg.2.1) <$> segs)))
        by (unfold rows; lia).
      do 3 f_equal. unfold rows in *. lia.
    + rewrite !rows_app. lia.
    + unfold rows in *. rewrite length_drop. lia.
    + unfold rows in *. rewrite length_drop. lia.
    + rewrite rows_app. lia.
Qed.

(** With a registered manager for each segment, the call returns the residuals
    and the partials of the segments, one after the other, and leaves the
    manager as it was. *)
Lemma calculateObservationMatrixAndResiduals_concat managers this
    (observationsAndTimes : PodInputType) (parameterVectorSize : Z) :
  Forall (manager_answers managers this) (segments_of observationsAndTimes) →
  total_rows (observed_segments observationsAndTimes) <= INT_MAX →
  calculateObservationMatrixAndResiduals observationsAndTimes parameterVectorSize
    (total_rows (observed_segments observationsAndTimes)) this
  = (this, Returns
      (concat (residual_segment managers this <$> segments_of observationsAndTimes),
       concat (partial_segment managers this <$> segments_of observationsAndTimes))).
Proof.
  intros Hall Hmax. unfold calculateObservationMatrixAndResiduals, bind.
  rewrite calculate_loops_flat.
  pose proof (total_rows_nonneg (observed_segments observationsAndTimes)) as Hnn.
  unfold observed_segments in *.
  set (total := total_rows ((λ seg : Segment, seg.2.1) <$> segments_of observationsAndTimes)) in *.
  pose proof (calculate_loop managers this parameterVectorSize
                (segments_of observationsAndTimes)
                [] (Zero total) [] (MatrixZero total parameterVectorSize) Hall) as Hloop.
  simpl in Hloop. change (rows []) with 0 in Hloop. fold total in Hloop.
  rewrite Hloop.
  - unfold ret. simpl. unfold Zero, MatrixZero.
    rewrite !drop_replicate, Nat.sub_diag. simpl. by rewrite !app_nil_r.
  - done.
  - unfold Zero, rows. rewrite length_replicate. lia.
  - unfold MatrixZero, rows. rewrite length_replicate. lia.
  - lia.
Qed.

(** **** Maps with the same keys *)

(** Two [std::map]s with the same set of keys are visited in the same order of
    keys. *)
Lemma std_map_keys_eq {K V1 V2} (lt : K → K → Prop) `{!StrictOrder lt}
    (m1 : list (K * V1)) (m2 : list (K * V2)) :
  std_map_ordered lt m1 → std_map_ordered lt m2 →
  (∀ k, k ∈ m1.*1 ↔ k ∈ m2.*1) → m1.*1 = m2.*1.
Proof.
  unfold std_map_ordered. generalize (m1.*1) (m2.*1). clear m1 m2.
  intros l1 l2 H1. revert l2.
  induction H1 as [|x1 l1 Hs1 IH Hx1]; intros l2 H2 Hsame.
  - destruct l2 as [|x2 l2]; [done|].
    exfalso. apply (not_elem_of_nil x2), Hsame. by left.
  - destruct H2 as [|x2 l2 Hs2 Hx2].
    { exfalso. apply (not_elem_of_nil x1), Hsame. by left. }
    rewrite Forall_forall in Hx1, Hx2.
    assert (x1 = x2) as <-.
    { assert (x1 ∈ x2 :: l2) as [->|Hin1]%elem_of_cons by (apply Hsame; by left); [done|].
      assert (x2 ∈ x1 :: l1) as [->|Hin2]%elem_of_cons by (apply Hsame; by left); [done|].
      exfalso. apply (irreflexivity lt x1). transitivity x2; auto. }
    f_equal. apply IH; [done|]. intros k. split; intros Hk.
    + assert (k ∈ x1 :: l2) as [->|]%elem_of_cons by (apply Hsame; by right); [|done].
      exfalso. apply (irreflexivity lt x1). auto.
    + assert (k ∈ x1 :: l1) as [->|]%elem_of_cons by (apply Hsame; by right); [|done].
      exfalso. apply (irreflexivity lt x1). auto.
Qed.

Lemma Forall2_same_keys {K V1 V2} (m1 : list (K * V1)) (m2 : list (K * V2)) :
  m1.*1 = m2.*1 → Forall2 (λ a b, a.1 = b.1) m1 m2.
Proof.
  revert m2. induction m1 as [|a m1 IH]; intros [|b m2] Heq; try done.
  simpl in Heq. injection Heq as Hab Hrest. constructor; auto.
Qed.

Lemma Forall2_impl_elem_of {A B} (P Q : A → B → Prop) (l : list A) (k : list B) :
  Forall2 P l k → (∀ a b, a ∈ l → b ∈ k → P a b → Q a b) → Forall2 Q l k.
Proof.
  induction 1 as [|a b l k Hab Hlk IH]; intros Himpl; constructor.
  - apply Himpl; [by left | by left | done].
  - apply IH. intros a' b' Ha Hb. apply Himpl; by right.
Qed.

Lemma Forall2_fmap_eq {A B C} (f : A → C) (g : B → C) (l : list A) (k : list B) :
  Forall2 (λ a b, f a = g b) l k → f <$> l = g <$> k.
Proof.
  induction 1 as [|a b l k Hab _ IH]; [done|].
  rewrite !fmap_cons. by f_equal.
Qed.

(** Weights that mirror the observations have the same segments, in the same
    order and of the same sizes. *)
Lemma mirrors_segments (weightsData : WeightsDataStructure) (observationsAndTimes : PodInputType) :
  std_maps_ordered weightsData → std_maps_ordered observationsAndTimes →
  mirrors weightsData observationsAndTimes →
  (λ seg, (seg.1, length seg.2)) <$> segments_of weightsData
  = (λ seg : Segment, (seg.1, length seg.2.1)) <$> segments_of observationsAndTimes.
Proof.
  intros [HW HWin] [HO HOin] [Hkeys Hinner].
  pose proof LinkEnds_lt_strict as Hstrict.
  assert (Hpair : Forall2 (λ a b,
            (λ d, ((a.1, d.1), length d.2)) <$> a.2
            = (λ d, ((b.1, d.1), length d.2.1)) <$> b.2)
          weightsData observationsAndTimes).
  { eapply Forall2_impl_elem_of.
    - apply Forall2_same_keys, (std_map_keys_eq lt); [apply HW | apply HO | apply Hkeys].
    - intros [t weights] [t' observations] Ha Hb Ht. simpl in Ht. subst t'. simpl.
      destruct (Hinner t weights observations Ha Hb) as [Hl Hsize].
      pose proof (proj1 (Forall_forall _ _) HWin _ Ha) as HWt.
      pose proof (proj1 (Forall_forall _ _) HOin _ Hb) as HOt.
      simpl in HWt, HOt.
      apply Forall2_fmap_eq.
      eapply Forall2_impl_elem_of.
      + apply Forall2_same_keys, (std_map_keys_eq LinkEnds_lt); [apply HWt | apply HOt | apply Hl].
      + intros [l w] [l' d] Hw Hd Hll. simpl in Hll. subst l'. simpl.
        f_equal. by apply (Hsize l). }
  clear -Hpair. unfold segments_of.
  induction Hpair as [|a b W O Hab _ IH]; [done|].
  rewrite !bind_cons, !fmap_app, IH. f_equal.
  rewrite <- !list_fmap_compose. exact Hab.
Qed.

(** C1.  For weights that mirror the observations, with both as [std::map]s,
    a number of observations that fits an [int], and managers that answer with
    one value and one row of partials for each observation: the weight vector
    has as many entries as there are observations, as have the residuals and
    the rows of partials that [calculateObservationMatrixAndResiduals] returns,
    and entry [i] of the three belongs to the same triple of observable type,
    link ends and position among the observations of these: it is the entry at
    this position of the weights, of the residuals and of the rows of partials
    under these two keys. *)
Theorem weights_follow_residuals managers this
    (weightsData : WeightsDataStructure) (observationsAndTimes : PodInputType)
    (parameterVectorSize : Z) :
  std_maps_ordered weightsData → std_maps_ordered observationsAndTimes →
  mirrors weightsData observationsAndTimes →
  total_rows (observed_segments observationsAndTimes) <= INT_MAX →
  Forall (manager_answers managers this) (segments_of observationsAndTimes) →
  let totalNumberOfObservations :=
    (getNumberOfObservationsPerObservable observationsAndTimes).2 in
  let weights := getConcatenatedWeightsVector weightsData in
  ∃ residuals partials,
    calculateObservationMatrixAndResiduals observationsAndTimes parameterVectorSize
      totalNumberOfObservations this = (this, Returns (residuals, partials)) ∧
    rows weights = totalNumberOfObservations ∧
    rows residuals = totalNumberOfObservations ∧
    rows partials = totalNumberOfObservations ∧
    ∀ i : nat, Z.of_nat i < totalNumberOfObservations →
      ∃ triple w r row,
        weights !! i = Some w ∧
        labelled (λ seg, seg.2) weightsData !! i = Some (triple, w) ∧
        entry_of (λ seg, seg.2) weightsData triple w ∧
        residuals !! i = Some r ∧
        labelled (residual_segment managers this) observationsAndTimes !! i = Some (triple, r) ∧
        entry_of (residual_segment managers this) observationsAndTimes triple r ∧
        partials !! i = Some row ∧
        labelled (partial_segment managers this) observationsAndTimes !! i = Some (triple, row) ∧
        entry_of (partial_segment managers this) observationsAndTimes triple row.
Proof.
  intros HW HO Hmirror Hmax Hall total weights. subst total weights.
  rewrite getNumberOfObservationsPerObservable_total by done.
  pose proof (mirrors_segments _ _ HW HO Hmirror) as Hshape.
  (* the sizes of the residual and partial segments are those of the observations *)
  assert (HshapeR : (λ seg, (seg.1, length (residual_segment managers this seg)))
                      <$> segments_of observationsAndTimes
                    = (λ seg : Segment, (seg.1, length seg.2.1)) <$> segments_of observationsAndTimes).
  { apply Forall2_fmap_eq, Forall_Forall2_diag. eapply Forall_impl; [exact Hall|].
    intros seg Hseg. f_equal.
    pose proof (residual_segment_rows _ _ _ Hseg). unfold rows in *. lia. }
  assert (HshapeP : (λ seg, (seg.1, length (partial_segment managers this seg)))
                      <$> segments_of observationsAndTimes
                    = (λ seg : Segment, (seg.1, length seg.2.1)) <$> segments_of observationsAndTimes).
  { apply Forall2_fmap_eq, Forall_Forall2_diag. eapply Forall_impl; [exact Hall|].
    intros seg Hseg. f_equal.
    pose proof (partial_segment_rows _ _ _ Hseg). unfold rows in *. lia. }
  (* the three labelled sequences have the same triples *)
  pose proof (labelled_keys (λ seg, seg.2) weightsData) as HkW.
  pose proof (labelled_keys (residual_segment managers this) observationsAndTimes) as HkR.
  pose proof (labelled_keys (partial_segment managers this) observationsAndTimes) as HkP.
  cbv beta in HkW. rewrite Hshape in HkW. rewrite HshapeR in HkR. rewrite HshapeP in HkP.
  rewrite <- HkW in HkR, HkP.
  (* the sizes *)
  assert (Hsizes : total_rows ((λ seg, seg.2) <$> segments_of weightsData)
                   = total_rows (observed_segments observationsAndTimes)).
  { unfold total_rows, observed_segments, rows. f_equal.
    rewrite !length_concat. f_equal.
    rewrite <- !list_fmap_compose.
    apply (f_equal (fmap snd)) in Hshape. rewrite <- !list_fmap_compose in Hshape.
    exact Hshape. }
  rewrite getConcatenatedWeightsVector_concat by (rewrite Hsizes; done).
  rewrite <- !labelled_values.
  exists ((labelled (residual_segment managers this) observationsAndTimes).*2),
         ((labelled (partial_segment managers this) observationsAndTimes).*2).
  assert (HlenW : rows ((labelled (λ seg, seg.2) weightsData).*2)
                  = total_rows (observed_segments observationsAndTimes)).
  { rewrite labelled_values. exact Hsizes. }
  assert (HlenR : rows ((labelled (residual_segment managers this) observationsAndTimes).*2)
                  = rows ((labelled (λ seg, seg.2) weightsData).*2)).
  { unfold rows. rewrite !length_fmap.
    rewrite <- (length_fmap fst), HkR, length_fmap. done. }
  assert (HlenP : rows ((labelled (partial_segment managers this) observationsAndTimes).*2)
                  = rows ((labelled (λ seg, seg.2) weightsData).*2)).
  { unfold rows. rewrite !length_fmap.
    rewrite <- (length_fmap fst), HkP, length_fmap. done. }
  split; [|split; [|split; [|split]]].
  - rewrite !labelled_values. by apply calculateObservationMatrixAndResiduals_concat.
  - exact HlenW.
  - by rewrite HlenR.
  - by rewrite HlenP.
  - intros i Hi. rewrite <- HlenW in Hi. unfold rows in Hi. rewrite length_fmap in Hi.
    destruct (lookup_lt_is_Some_2 (labelled (λ seg, seg.2) weightsData) i) as [[triple w] HiW];
      [lia|].
    assert (HiR : (labelled (residual_segment managers this) observationsAndTimes).*1 !! i
                  = Some triple) by (rewrite HkR, list_lookup_fmap, HiW; done).
    assert (HiP : (labelled (partial_segment managers this) observationsAndTimes).*1 !! i
                  = Some triple) by (rewrite HkP, list_lookup_fmap, HiW; done).
    rewrite list_lookup_fmap in HiR. rewrite list_lookup_fmap in HiP.
    destruct (labelled (residual_segment managers this) observationsAndTimes !! i)
      as [[tripleR r]|] eqn:HR; [|done].
    destruct (labelled (partial_segment managers this) observationsAndTimes !! i)
      as [[tripleP row]|] eqn:HP; [|done].
    simpl in HiR, HiP. simplify_eq.
    exists triple, w, r, row.
    rewrite !list_lookup_fmap, HiW, HR, HP. simpl.
    repeat split; try done; by eapply labelled_entry_of.
Qed.

End WeightsAndResiduals.

(** *** The weight vector by segments *)

Section Weights.
Context {Sc : Scalar} {Ext : External}.

(** X3.  As long as the number of weights fits an [int], the vector that
    [getConcatenatedWeightsVector] returns is the concatenation of the weight
    vectors in the order of the iterators of the outer and the inner maps; the
    weights held under an observable type and a set of link ends are found in
    it at the offset that is the number of the weights before them. *)
Theorem getConcatenatedWeightsVector_segments (weightsData : WeightsDataStructure) :
  total_rows ((λ seg, seg.2) <$> segments_of weightsData) <= INT_MAX →
  getConcatenatedWeightsVector weightsData
  = concat ((λ seg, seg.2) <$> segments_of weightsData) ∧
  ∀ before (seg : ObservableType * LinkEnds * list double) after,
    segments_of weightsData = before ++ seg :: after →
    take (length seg.2)
         (drop (Z.to_nat (total_rows ((λ seg, seg.2) <$> before)))
               (getConcatenatedWeightsVector weightsData))
    = seg.2.
Proof.
  intros Hmax.
  pose proof (getConcatenatedWeightsVector_concat weightsData Hmax) as Hconcat.
  split; [done|]. intros before seg after Hsegs.
  rewrite Hconcat, Hsegs, fmap_app, fmap_cons, concat_app. simpl.
  unfold total_rows, rows. rewrite Nat2Z.id, drop_app_length, take_app_length. done.
Qed.

End Weights.

(** *** The numbers of observations *)

Section Counts.
Context {Sc : Scalar} {Ext : External}.

Lemma std_map_ordered_NoDup {K V} (less : K → K → Prop) `{!StrictOrder less}
    (m : list (K * V)) :
  std_map_ordered less m → NoDup (m.*1).
Proof.
  unfold std_map_ordered. generalize (m.*1). clear m. intros keys.
  induction 1 as [|k keys Hsorted IH Hall]; [constructor|].
  constructor; [|done]. intros Hin. apply (proj1 (Forall_forall _ _) Hall) in Hin. exact (irreflexivity less _ Hin).
Qed.

Lemma observed_segments_cons (t : ObservableType) (inner : SingleObservablePodInputType)
    (observationsAndTimes : PodInputType) :
  total_rows (observed_segments ((t, inner) :: observationsAndTimes))
  = observations_under inner + total_rows (observed_segments observationsAndTimes).
Proof.
  unfold observed_segments, segments_of, observations_under.
  rewrite bind_cons, fmap_app, total_rows_app, <- list_fmap_compose. done.
Qed.

Lemma per_link_end_loop (dataPerLinkEnd : SingleObservablePodInputType) (pushed : list Z) :
  Forall (λ d, rows d.2.1 <= INT_MAX) dataPerLinkEnd →
  fold_left (λ numberOfObservations dataIterator,
      numberOfObservations ++ [to_int (rows dataIterator.2.1)]) dataPerLinkEnd pushed
  = pushed ++ ((λ d, rows d.2.1) <$> dataPerLinkEnd).
Proof.
  intros Hall. revert pushed.
  induction Hall as [|d inner Hd Hall IH]; intros pushed; simpl.
  - by rewrite app_nil_r.
  - rewrite IH, <- app_assoc. simpl.
    rewrite to_int_small; [done|]. pose proof (rows_nonneg d.2.1). lia.
Qed.

Lemma sum_of_rows (dataPerLinkEnd : SingleObservablePodInputType) :
  foldr Z.add 0 ((λ d, rows d.2.1) <$> dataPerLinkEnd) = observations_under dataPerLinkEnd.
Proof.
  unfold observations_under.
  induction dataPerLinkEnd as [|d inner IH]; [done|].
  rewrite !fmap_cons, total_rows_cons. simpl. by rewrite IH.
Qed.

Lemma observations_under_bounds (d : LinkEnds * (list double * (list TimeType * LinkEndType)))
    (dataPerLinkEnd : SingleObservablePodInputType) :
  d ∈ dataPerLinkEnd → 0 <= rows d.2.1 <= observations_under dataPerLinkEnd.
Proof.
  unfold observations_under. intros Hin.
  induction dataPerLinkEnd as [|d' inner IH]; [by apply not_elem_of_nil in Hin|].
  rewrite fmap_cons, total_rows_cons.
  pose proof (rows_nonneg d'.2.1). pose proof (total_rows_nonneg ((λ d, d.2.1) <$> inner)).
  apply elem_of_cons in Hin as [->|Hin]; [simpl; lia|]. specialize (IH Hin). simpl. lia.
Qed.

Lemma count_for_observable_map (t : ObservableType)
    (inner : SingleObservablePodInputType) (n : gmap ObservableType Z) (a : Z) :
  0 <= a → a + observations_under inner <= INT_MAX →
  fold_left (λ numberOfObservations dataIterator,
      <[t := to_int (numberOfObservations !!! t + rows dataIterator.2.1)]> numberOfObservations)
    inner (<[t := a]> n)
  = <[t := a + observations_under inner]> n.
Proof.
  unfold observations_under. revert a.
  induction inner as [|d inner IH]; intros a Ha Hmax.
  - simpl. unfold total_rows, rows. simpl. by rewrite Z.add_0_r.
  - rewrite fmap_cons, total_rows_cons in Hmax. rewrite fmap_cons, total_rows_cons. simpl in *.
    pose proof (rows_nonneg d.2.1). pose proof (total_rows_nonneg ((λ d, d.2.1) <$> inner)).
    rewrite lookup_total_insert_eq, insert_insert_eq.
    rewrite to_int_small by (unfold INT_MAX in *; lia).
    rewrite IH by lia. f_equal. lia.
Qed.

Lemma countForObservable_map (n : gmap ObservableType Z) (count : Z) (t : ObservableType)
    (inner : SingleObservablePodInputType) :
  observations_under inner <= INT_MAX →
  (countForObservable (n, count) (t, inner)).1 = <[t := observations_under inner]> n.
Proof.
  intros Hmax. unfold countForObservable. simpl.
  pose proof (total_rows_nonneg ((λ d, d.2.1) <$> inner)).
  rewrite count_for_observable_map by (unfold observations_under in *; lia).
  by rewrite Z.add_0_l.
Qed.

Lemma count_loop_map (observationsAndTimes : PodInputType)
    (n : gmap ObservableType Z) (count : Z) :
  NoDup (observationsAndTimes.*1) →
  Forall (λ o, observations_under o.2 <= INT_MAX) observationsAndTimes →
  (fold_left countForObservable observationsAndTimes (n, count)).1
  = list_to_map ((λ o, (o.1, observations_under o.2)) <$> observationsAndTimes) ∪ n.
Proof.
  intros Hdup Hall. revert n count.
  induction Hall as [|[t inner] O Ho Hall IH]; intros n count.
  - simpl. by rewrite (left_id_L ∅ (∪)).
  - rewrite fmap_cons in Hdup. apply NoDup_cons in Hdup as [Hnew Hdup].
    change (fold_left countForObservable ((t, inner) :: O) (n, count))
      with (fold_left countForObservable O (countForObservable (n, count) (t, inner))).
    pose proof (countForObservable_map n count t inner Ho) as Hmap.
    destruct (countForObservable (n, count) (t, inner)) as [n' count']. simpl in Hmap.
    rewrite IH, Hmap by done.
    rewrite fmap_cons, list_to_map_cons, <- insert_union_l. symmetry. apply insert_union_r.
    apply not_elem_of_list_to_map_1. by rewrite <- list_fmap_compose.
Qed.

Lemma observations_under_fit (observationsAndTimes : PodInputType) :
  total_rows (observed_segments observationsAndTimes) <= INT_MAX →
  Forall (λ o, observations_under o.2 <= INT_MAX) observationsAndTimes.
Proof.
  induction observationsAndTimes as [|[t inner] O IH]; intros Hmax; [done|].
  rewrite observed_segments_cons in Hmax.
  pose proof (total_rows_nonneg (observed_segments O)).
  pose proof (total_rows_nonneg ((λ d, d.2.1) <$> inner)). unfold observations_under in *.
  constructor; [simpl; lia|]. apply IH. lia.
Qed.

Lemma sum_of_counts (observationsAndTimes : PodInputType) :
  foldr (λ o s, observations_under o.2 + s) 0 observationsAndTimes
  = total_rows (observed_segments observationsAndTimes).
Proof.
  induction observationsAndTimes as [|[t inner] O IH]; [done|].
  rewrite observed_segments_cons. simpl. by rewrite IH.
Qed.

(** X4.  For observations whose number fits an [int]:
    [getNumberOfObservationsPerLinkEnd] returns the numbers of observations
    of the sets of link ends in the order of the map, and the number that
    [getNumberOfObservationsPerObservable] holds under an observable type is
    their sum. *)
Theorem observations_per_observable_and_per_link_end (observationsAndTimes : PodInputType)
    (observableType : ObservableType) (dataPerLinkEnd : SingleObservablePodInputType) :
  std_map_ordered lt observationsAndTimes →
  total_rows (observed_segments observationsAndTimes) <= INT_MAX →
  (observableType, dataPerLinkEnd) ∈ observationsAndTimes →
  getNumberOfObservationsPerLinkEnd dataPerLinkEnd = (λ d, rows d.2.1) <$> dataPerLinkEnd ∧
  (getNumberOfObservationsPerObservable observationsAndTimes).1 !! observableType
  = Some (foldr Z.add 0 (getNumberOfObservationsPerLinkEnd dataPerLinkEnd)).
Proof.
  intros Hordered Hmax Hin.
  pose proof (std_map_ordered_NoDup lt observationsAndTimes Hordered) as Hdup.
  pose proof (observations_under_fit observationsAndTimes Hmax) as Hfit.
  assert (Hsizes : getNumberOfObservationsPerLinkEnd dataPerLinkEnd
                   = (λ d, rows d.2.1) <$> dataPerLinkEnd).
  { unfold getNumberOfObservationsPerLinkEnd. rewrite per_link_end_loop; [done|].
    apply Forall_forall. intros d Hd.
    pose proof (observations_under_bounds d dataPerLinkEnd Hd).
    pose proof (proj1 (Forall_forall _ _) Hfit _ Hin). simpl in *. lia. }
  split; [done|]. rewrite Hsizes, sum_of_rows.
  unfold getNumberOfObservationsPerObservable. rewrite count_loop_map by done.
  rewrite (right_id_L ∅ (∪)). apply elem_of_list_to_map.
  - by rewrite <- list_fmap_compose.
  - apply list_elem_of_fmap. by exists (observableType, dataPerLinkEnd).
Qed.

(** X5.  For observations whose number fits an [int], the map that
    [getNumberOfObservationsPerObservable] returns has exactly the observable
    types of the observations as its keys, and the total that it returns is
    the sum of the values of that map, which is the number of observations. *)
Theorem getNumberOfObservationsPerObservable_sum (observationsAndTimes : PodInputType) :
  std_map_ordered lt observationsAndTimes →
  total_rows (observed_segments observationsAndTimes) <= INT_MAX →
  let counted := getNumberOfObservationsPerObservable observationsAndTimes in
  (∀ observableType : ObservableType,
     is_Some (counted.1 !! observableType) ↔ observableType ∈ observationsAndTimes.*1) ∧
  counted.2 = map_fold (λ _ number sum, number + sum) 0 counted.1 ∧
  counted.2 = total_rows (observed_segments observationsAndTimes).
Proof.
  intros Hordered Hmax counted.
  pose proof (std_map_ordered_NoDup lt observationsAndTimes Hordered) as Hdup.
  pose proof (observations_under_fit observationsAndTimes Hmax) as Hfit.
  assert (Hmap : counted.1
                 = list_to_map ((λ o, (o.1, observations_under o.2)) <$> observationsAndTimes)).
  { subst counted. unfold getNumberOfObservationsPerObservable.
    rewrite count_loop_map by done. by rewrite (right_id_L ∅ (∪)). }
  assert (Hkeys : ((λ o : ObservableType * SingleObservablePodInputType,
                      (o.1, observations_under o.2)) <$> observationsAndTimes).*1
                  = observationsAndTimes.*1) by (by rewrite <- list_fmap_compose).
  assert (Htotal : counted.2 = total_rows (observed_segments observationsAndTimes)).
  { subst counted. by apply getNumberOfObservationsPerObservable_total. }
  split; [|split; [|done]].
  - intros t. rewrite Hmap. split.
    + intros [n Hn]. apply elem_of_list_to_map in Hn; [|by rewrite Hkeys].
      rewrite <- Hkeys. apply list_elem_of_fmap. by exists (t, n).
    + intros Hin. rewrite <- Hkeys in Hin.
      apply list_elem_of_fmap in Hin as ([t' n] & -> & Hin). exists n.
      apply elem_of_list_to_map; [by rewrite Hkeys | done].
  - rewrite Htotal, Hmap, map_fold_foldr, <- sum_of_counts.
    transitivity (foldr (uncurry (λ (_ : ObservableType) number sum, number + sum)) 0
                    ((λ o, (o.1, observations_under o.2)) <$> observationsAndTimes)).
    + clear. induction observationsAndTimes as [|o O IH]; [done|]. simpl. by rewrite IH.
    + symmetry. apply (foldr_permutation_proper (=)).
      * intros x. solve_proper.
      * intros [t1 n1] [t2 n2] s. simpl. lia.
      * apply map_to_list_to_map. by rewrite Hkeys.
Qed.

End Counts.

(** *** Observable types without a manager *)

Section MissingManagers.
Context {Sc : Scalar} {Ext : External}.
Implicit Types (this : OrbitDeterminationManager).

Lemma registered_or_not this (t : ObservableType) :
  registered this t ∨
  ¬ registered this t ∧
    (observationManagers_ this !! t = None ∨ observationManagers_ this !! t = Some None).
Proof.
  unfold registered. destruct (observationManagers_ this !! t) as [[manager|]|] eqn:Hl.
  - left. eauto.
  - right. split; [intros [? [=]] | by right].
  - right. split; [intros [? [=]] | by left].
Qed.

Lemma first_unregistered this (segs : list Segment) :
  Forall (λ seg : Segment, registered this seg.1.1) segs ∨
  ∃ pre seg post, segs = pre ++ seg :: post ∧
    Forall (λ seg : Segment, registered this seg.1.1) pre ∧ ¬ registered this seg.1.1.
Proof.
  induction segs as [|seg segs IH]; [by left|].
  destruct (registered_or_not this seg.1.1) as [Hreg | [Hno _]].
  - destruct IH as [Hall | (pre & seg' & post & -> & Hpre & Hno)].
    + left. by constructor.
    + right. exists (seg :: pre), seg', post. split; [done|]. split; [by constructor | done].
  - right. exists [], seg, segs. split; [done|]. split; [constructor | done].
Qed.

Lemma calculateForLinkEnds_returns this (t : ObservableType) P dataIterator state :
  registered this t →
  ∃ state', calculateForLinkEnds t P dataIterator state this = (this, Returns state').
Proof.
  intros [manager Hreg].
  unfold calculateForLinkEnds, bind, observationManagers_subscript, arrow, get_environment, ret.
  rewrite Hreg. eauto.
Qed.

Lemma calculateForLinkEnds_fails this (t : ObservableType) P dataIterator state :
  ¬ registered this t →
  calculateForLinkEnds t P dataIterator state this
  = ((observationManagers_subscript t this).1, Fails NullPointerDereference).
Proof.
  intros Hno.
  unfold calculateForLinkEnds, bind, observationManagers_subscript, arrow.
  destruct (observationManagers_ this !! t) as [[manager|]|] eqn:Hl; [|done..].
  exfalso. apply Hno. by exists manager.
Qed.

Lemma calculate_loop_returns this P (segs : list Segment) state :
  Forall (λ seg : Segment, registered this seg.1.1) segs →
  ∃ state',
    for_each (λ seg : Segment, calculateForLinkEnds seg.1.1 P (seg.1.2, seg.2)) segs state this
    = (this, Returns state').
Proof.
  intros Hall. revert state. induction Hall as [|seg segs Hseg Hall IH]; intros state; simpl.
  - unfold ret. eauto.
  - unfold bind.
    destruct (calculateForLinkEnds_returns this seg.1.1 P (seg.1.2, seg.2) state Hseg)
      as [state' ->].
    apply IH.
Qed.

Lemma calculate_loop_fails this P (pre : list Segment) (seg : Segment) post state :
  Forall (λ seg : Segment, registered this seg.1.1) pre → ¬ registered this seg.1.1 →
  for_each (λ seg : Segment, calculateForLinkEnds seg.1.1 P (seg.1.2, seg.2))
    (pre ++ seg :: post) state this
  = ((observationManagers_subscript seg.1.1 this).1, Fails NullPointerDereference).
Proof.
  intros Hpre Hno. rewrite for_each_app. unfold bind at 1.
  destruct (calculate_loop_returns this P pre state Hpre) as [state' ->].
  simpl. unfold bind. by rewrite calculateForLinkEnds_fails.
Qed.

Lemma observationManagers_subscript_frame this (t : ObservableType) :
  let this' := (observationManagers_subscript t this).1 in
  integrateAndEstimateOrbit_ this' = integrateAndEstimateOrbit_ this ∧
  environment this' = environment this ∧
  currentParameterEstimate_ this' = currentParameterEstimate_ this ∧
  ∀ t', t' ≠ t → observationManagers_ this' !! t' = observationManagers_ this !! t'.
Proof.
  unfold observationManagers_subscript.
  destruct (observationManagers_ this !! t); simpl; [done|].
  repeat split. intros t' Ht'. by rewrite lookup_insert_ne.
Qed.

Lemma observationManagers_subscript_null this (t : ObservableType) :
  ¬ registered this t →
  observationManagers_ (observationManagers_subscript t this).1 !! t = Some None.
Proof.
  intros Hno. unfold observationManagers_subscript.
  destruct (observationManagers_ this !! t) as [[manager|]|] eqn:Hl; simpl.
  - exfalso. apply Hno. by exists manager.
  - done.
  - apply lookup_insert_eq.
Qed.

(** X6.  [calculateObservationMatrixAndResiduals] returns exactly when the
    manager holds an observation manager, under a pointer that is not null,
    for every observable type under which the observations hold a set of link
    ends; when it returns it has not changed the manager. *)
Theorem calculateObservationMatrixAndResiduals_returns_iff
    (observationsAndTimes : PodInputType) (P total : Z) this :
  (Forall (λ seg : Segment, registered this seg.1.1) (segments_of observationsAndTimes) →
   ∃ residualsAndPartials,
     calculateObservationMatrixAndResiduals observationsAndTimes P total this
     = (this, Returns residualsAndPartials)) ∧
  (∀ this' residualsAndPartials,
     calculateObservationMatrixAndResiduals observationsAndTimes P total this
     = (this', Returns residualsAndPartials) →
     this' = this ∧
     Forall (λ seg : Segment, registered this seg.1.1) (segments_of observationsAndTimes)).
Proof.
  unfold calculateObservationMatrixAndResiduals, bind. rewrite calculate_loops_flat.
  split.
  - intros Hall.
    destruct (calculate_loop_returns this P (segments_of observationsAndTimes)
                (Zero total, MatrixZero total P, 0) Hall) as [state' ->].
    unfold ret. eauto.
  - intros this' rp.
    destruct (first_unregistered this (segments_of observationsAndTimes))
      as [Hall | (pre & seg & post & -> & Hpre & Hno)].
    + destruct (calculate_loop_returns this P (segments_of observationsAndTimes)
                  (Zero total, MatrixZero total P, 0) Hall) as [state' ->].
      unfold ret. intros [= <- _]. done.
    + rewrite calculate_loop_fails by done. discriminate.
Qed.

(** X7.  At the first set of link ends whose observable type has no
    observation manager, [calculateObservationMatrixAndResiduals] fails on a
    null pointer, whatever comes after; it leaves a null pointer under that
    observable type in [observationManagers_], and nothing else in the manager
    is changed. *)
Theorem calculateObservationMatrixAndResiduals_first_missing_manager
    (observationsAndTimes : PodInputType) (P total : Z) this
    (pre : list Segment) (seg : Segment) (post : list Segment) :
  segments_of observationsAndTimes = pre ++ seg :: post →
  Forall (λ seg : Segment, registered this seg.1.1) pre → ¬ registered this seg.1.1 →
  ∃ this',
    calculateObservationMatrixAndResiduals observationsAndTimes P total this
    = (this', Fails NullPointerDereference) ∧
    observationManagers_ this' !! seg.1.1 = Some None ∧
    (∀ t, t ≠ seg.1.1 → observationManagers_ this' !! t = observationManagers_ this !! t) ∧
    integrateAndEstimateOrbit_ this' = integrateAndEstimateOrbit_ this ∧
    environment this' = environment this ∧
    currentParameterEstimate_ this' = currentParameterEstimate_ this.
Proof.
  intros Hsegs Hpre Hno.
  exists (observationManagers_subscript seg.1.1 this).1.
  destruct (observationManagers_subscript_frame this seg.1.1) as (Hi & He & Hc & Hother).
  split; [|split; [by apply observationManagers_subscript_null | done]].
  unfold calculateObservationMatrixAndResiduals, bind. rewrite calculate_loops_flat, Hsegs.
  by rewrite calculate_loop_fails.
Qed.

(** X8.  [calculateObservationMatrixAndResiduals] fails on a null pointer only;
    after it has failed, [getObservationManager] returns a null pointer for
    one of the observable types of the observations, also when the same call
    threw the [std::runtime_error] that names the type before. *)
Theorem getObservationManager_after_failed_calculation
    (observationsAndTimes : PodInputType) (P total : Z) this this' (f : Failure) :
  calculateObservationMatrixAndResiduals observationsAndTimes P total this = (this', Fails f) →
  f = NullPointerDereference ∧
  ∃ observableType : ObservableType,
    observableType ∈ observationsAndTimes.*1 ∧
    getObservationManager this' observableType = Returns None ∧
    (observationManagers_ this !! observableType = None →
     getObservationManager this observableType
     = Fails (runtime_error ("Error when retrieving observation manager of type " +:+
                             pretty observableType +:+ ", manager not found"))).
Proof.
  intros Hcalc.
  destruct (first_unregistered this (segments_of observationsAndTimes))
    as [Hall | (pre & seg & post & Hsegs & Hpre & Hno)].
  - unfold calculateObservationMatrixAndResiduals, bind in Hcalc.
    rewrite calculate_loops_flat in Hcalc.
    destruct (calculate_loop_returns this P (segments_of observationsAndTimes)
                (Zero total, MatrixZero total P, 0) Hall) as [state' Hret].
    rewrite Hret in Hcalc. discriminate.
  - unfold calculateObservationMatrixAndResiduals, bind in Hcalc.
    rewrite calculate_loops_flat, Hsegs, calculate_loop_fails in Hcalc by done.
    injection Hcalc as <- <-. split; [done|].
    exists seg.1.1. split; [|split].
    + assert (Hin : seg ∈ segments_of observationsAndTimes).
      { rewrite Hsegs. apply elem_of_app. right. by left. }
      unfold segments_of in Hin.
      apply list_elem_of_bind in Hin as (o & Hin & Ho).
      apply list_elem_of_fmap in Hin as (d & -> & _). simpl.
      apply list_elem_of_fmap. by exists o.
    + unfold getObservationManager. by rewrite observationManagers_subscript_null.
    + intros Hnone. unfold getObservationManager. by rewrite Hnone.
Qed.

End MissingManagers.

(** *** The observation simulators *)

Section Simulators.
Context {Sc : Scalar} {Ext : External} {Acc : Accessors}.
Implicit Types (this : OrbitDeterminationManager).

Lemma begin_to_end_elem_of {V} (m : gmap ObservableType V) (t : ObservableType) (v : V) :
  (t, v) ∈ begin_to_end m ↔ m !! t = Some v.
Proof.
  unfold begin_to_end. rewrite merge_sort_Permutation. apply elem_of_map_to_list.
Qed.

Lemma begin_to_end_ordered {V} (m : gmap ObservableType V) :
  std_map_ordered lt (begin_to_end m).
Proof.
  unfold std_map_ordered, begin_to_end.
  assert (Hsorted : StronglySorted key_le (merge_sort key_le (map_to_list m))).
  { apply StronglySorted_merge_sort.
    - intros a b c. unfold key_le. lia.
    - intros a b. unfold key_le. lia. }
  assert (Hdup : NoDup ((merge_sort key_le (map_to_list m)).*1)).
  { rewrite merge_sort_Permutation. apply NoDup_fst_map_to_list. }
  revert Hsorted Hdup. generalize (merge_sort key_le (map_to_list m)). intros l.
  induction 1 as [|a l Hsorted IH Hall]; intros Hdup; [constructor|].
  rewrite fmap_cons in Hdup. apply NoDup_cons in Hdup as [Hnew Hdup].
  rewrite fmap_cons. constructor; [by apply IH|].
  apply Forall_fmap, Forall_forall. intros b Hb.
  pose proof (proj1 (Forall_forall _ _) Hall b Hb) as Hle. unfold key_le in Hle. simpl.
  assert (a.1 ≠ b.1); [|lia].
  intros Heq. apply Hnew. rewrite Heq. apply list_elem_of_fmap. by exists b.
Qed.

Lemma addObservationSimulator_failed (f : Failure)
    (managers : list (ObservableType * option ObservationManagerBase)) :
  fold_left addObservationSimulator managers (Fails f) = Fails f.
Proof. induction managers as [|entry managers IH]; [done | exact IH]. Qed.

Lemma simulators_loop (managers : list (ObservableType * option ObservationManagerBase))
    (observationSimulators : gmap ObservableType (option ObservationSimulatorBase)) :
  Forall (λ entry, entry.2 ≠ None) managers →
  fold_left addObservationSimulator managers (Returns observationSimulators)
  = Returns (list_to_map (reverse (prod_map id simulator_of <$> managers))
             ∪ observationSimulators).
Proof.
  intros Hall. revert observationSimulators.
  induction Hall as [|[t pointer] managers Hentry Hall IH]; intros observationSimulators.
  - simpl. by rewrite (left_id_L ∅ (∪)).
  - destruct pointer as [manager|]; [|done]. simpl. rewrite IH.
    rewrite reverse_cons, list_to_map_app. simpl.
    rewrite <- (assoc_L (∪)). f_equal.
    rewrite insert_union_singleton_l, insert_empty. done.
Qed.

Lemma simulators_loop_null (managers : list (ObservableType * option ObservationManagerBase))
    (state : Outcome (gmap ObservableType (option ObservationSimulatorBase))) :
  Exists (λ entry, entry.2 = None) managers →
  ∃ f, fold_left addObservationSimulator managers state = Fails f ∧
       (∀ simulators, state = Returns simulators → f = NullPointerDereference).
Proof.
  intros Hex. revert state.
  induction Hex as [[t pointer] managers Hnull | [t pointer] managers Hex IH]; intros state.
  - simpl in Hnull. subst pointer. destruct state as [simulators|f]; simpl.
    + rewrite addObservationSimulator_failed. eauto.
    + rewrite addObservationSimulator_failed. exists f. split; [done|]. intros ? [=].
  - simpl. destruct state as [simulators|f].
    + destruct pointer as [manager|]; simpl.
      * destruct (IH (Returns (<[t := getObservationSimulator manager]> simulators)))
          as (f & Hf & Hnull). exists f. split; [done|]. intros ? _. by eapply Hnull.
      * rewrite addObservationSimulator_failed. eauto.
    + simpl. rewrite addObservationSimulator_failed. exists f. split; [done|]. intros ? [=].
Qed.

(** X9.  [getObservationSimulators] fails on a null pointer when
    [observationManagers_] holds a null pointer; when it holds none, the map
    returned has the observable types of [observationManagers_] as its keys,
    each with the simulator of its manager. *)
Theorem getObservationSimulators_returns_iff this :
  ((∃ observableType : ObservableType,
      observationManagers_ this !! observableType = Some None) →
   getObservationSimulators this = Fails NullPointerDereference) ∧
  ((∀ observableType : ObservableType,
      observationManagers_ this !! observableType ≠ Some None) →
   ∃ observationSimulators,
     getObservationSimulators this = Returns observationSimulators ∧
     ∀ observableType : ObservableType,
       observationSimulators !! observableType
       = getObservationSimulator
           <$> (observationManagers_ this !! observableType ≫= id)).
Proof.
  unfold getObservationSimulators. split.
  - intros [t Ht].
    destruct (simulators_loop_null (begin_to_end (observationManagers_ this)) (Returns ∅))
      as (f & -> & Hf).
    + apply Exists_exists. exists (t, None). split; [|done]. by apply begin_to_end_elem_of.
    + by rewrite (Hf ∅).
  - intros Hall. eexists. split.
    + apply simulators_loop. apply Forall_forall. intros [t pointer] Hin. simpl.
      apply begin_to_end_elem_of in Hin. intros ->. by apply (Hall t).
    + intros t. rewrite (right_id_L ∅ (∪)).
      assert (Hperm : reverse (prod_map id simulator_of
                                 <$> begin_to_end (observationManagers_ this))
                      ≡ₚ prod_map id simulator_of <$> map_to_list (observationManagers_ this)).
      { rewrite reverse_Permutation. unfold begin_to_end. by rewrite merge_sort_Permutation. }
      assert (Hdup : NoDup ((prod_map id simulator_of
                               <$> map_to_list (observationManagers_ this)).*1)).
      { rewrite <- list_fmap_compose.
        replace (fst ∘ prod_map id simulator_of) with (@fst ObservableType (option ObservationManagerBase)) by done.
        apply NoDup_fst_map_to_list. }
      rewrite (list_to_map_proper _ _ (proj2 (NoDup_Permutation_proper _ _ (fmap_Permutation fst _ _ Hperm)) Hdup) Hperm).
      rewrite list_to_map_fmap, list_to_map_to_list, lookup_fmap.
      destruct (observationManagers_ this !! t) as [[manager|]|] eqn:Hl; simpl; try done.
      by destruct (Hall t).
Qed.

(** X10.  After [calculateObservationMatrixAndResiduals] has failed,
    [getObservationSimulators] fails on a null pointer, also when it returned
    before the call. *)
Theorem getObservationSimulators_after_failed_calculation
    (observationsAndTimes : PodInputType) (P total : Z) this this' (f : Failure) :
  calculateObservationMatrixAndResiduals observationsAndTimes P total this = (this', Fails f) →
  getObservationSimulators this' = Fails NullPointerDereference ∧
  ((∀ observableType : ObservableType,
      observationManagers_ this !! observableType ≠ Some None) →
   ∃ observationSimulators, getObservationSimulators this = Returns observationSimulators).
Proof.
  intros Hcalc. split.
  - destruct (first_unregistered this (segments_of observationsAndTimes))
      as [Hall | (pre & seg & post & Hsegs & Hpre & Hno)].
    + unfold calculateObservationMatrixAndResiduals, bind in Hcalc.
      rewrite calculate_loops_flat in Hcalc.
      destruct (calculate_loop_returns this P (segments_of observationsAndTimes)
                  (Zero total, MatrixZero total P, 0) Hall) as [state' Hret].
      rewrite Hret in Hcalc. discriminate.
    + unfold calculateObservationMatrixAndResiduals, bind in Hcalc.
      rewrite calculate_loops_flat, Hsegs, calculate_loop_fails in Hcalc by done.
      injection Hcalc as <- _.
      pose proof (observationManagers_subscript_null this seg.1.1 Hno) as Hnull.
      unfold getObservationSimulators.
      destruct (simulators_loop_null
                  (begin_to_end (observationManagers_ (observationManagers_subscript seg.1.1 this).1))
                  (Returns ∅)) as (f' & -> & Hf).
      * apply Exists_exists. exists (seg.1.1, None). split; [|done].
        by apply begin_to_end_elem_of.
      * by rewrite (Hf ∅).
  - intros Hall. unfold getObservationSimulators. eexists.
    apply simulators_loop. apply Forall_forall. intros [t pointer] Hin. simpl.
    apply begin_to_end_elem_of in Hin. intros ->. by apply (Hall t).
Qed.

End Simulators.

(** *** The conversion of the observations *)

Section MapAssignment.
Context {K V : Type} (less : K → K → Prop) `{!StrictOrder less} `{∀ a b, Decision (less a b)}.

(** Assigning under a key above all the keys of the map adds the entry at the
    end. *)
Lemma std_map_assign_above (m : list (K * V)) (k : K) (v : V) :
  Forall (λ k', less k' k) (m.*1) → std_map_assign less m k v = m ++ [(k, v)].
Proof.
  induction m as [|entry m IH]; intros Hall; [done|].
  rewrite fmap_cons in Hall. apply Forall_cons in Hall as [Hentry Hall]. simpl.
  destruct (decide (less k entry.1)) as [Hlt|_].
  - exfalso. apply (irreflexivity less k). by transitivity entry.1.
  - destruct (decide (less entry.1 k)); [|done]. by rewrite IH.
Qed.

(** A loop that assigns the images of the entries of a [std::map], in its
    order, builds the map of the images. *)
Lemma std_map_assign_loop {W} (f : K * W → V) (todo : list (K * W)) (built : list (K * W)) :
  std_map_ordered less (built ++ todo) →
  fold_left (λ m entry, std_map_assign less m entry.1 (f entry)) todo
            ((λ entry, (entry.1, f entry)) <$> built)
  = (λ entry, (entry.1, f entry)) <$> (built ++ todo).
Proof.
  revert built. induction todo as [|entry todo IH]; intros built Hordered; simpl.
  - by rewrite app_nil_r.
  - rewrite std_map_assign_above.
    + change [(entry.1, f entry)] with ((λ entry : K * W, (entry.1, f entry)) <$> [entry]).
      rewrite <- fmap_app, (IH (built ++ [entry])); by rewrite <- ?app_assoc.
    + replace (((λ entry : K * W, (entry.1, f entry)) <$> built).*1) with (built.*1)
        by (by rewrite <- list_fmap_compose).
      unfold std_map_ordered in Hordered.
      rewrite fmap_app, fmap_cons in Hordered.
      apply Forall_forall. intros k' Hk'.
      revert Hordered Hk'. generalize (built.*1). intros keys Hsorted Hk'.
      induction keys as [|k0 keys IHk]; [by apply not_elem_of_nil in Hk'|].
      simpl in Hsorted. apply StronglySorted_inv in Hsorted as [Hsorted Hall].
      apply elem_of_cons in Hk' as [->|Hk'].
      * apply (proj1 (Forall_forall _ _) Hall). apply elem_of_app. right. by left.
      * by apply IHk.
Qed.

End MapAssignment.

Section Conversion.
Context {Sc : Scalar} {Ext : External} {Acc : Accessors}.
Local Existing Instance LinkEnds_lt_strict.

Lemma split_loop (todo : list (TimeType * double)) (times : list TimeType)
    (observations : list double) :
  length times = length observations →
  rows times + rows todo <= INT_MAX →
  fold_left (λ state singleDataSetIterator,
      ((<[Z.to_nat state.2 := singleDataSetIterator.1]> state.1.1,
        <[Z.to_nat state.2 := singleDataSetIterator.2]> state.1.2),
       to_int (state.2 + 1)))
    todo ((times ++ replicate (length todo) TimeType_default,
           observations ++ replicate (length todo) dzero), rows times)
  = ((times ++ todo.*1, observations ++ todo.*2), rows times + rows todo).
Proof.
  revert times observations.
  induction todo as [|entry todo IH]; intros times observations Hlen Hmax.
  - simpl. unfold rows. simpl. by rewrite Z.add_0_r.
  - unfold rows in *. simpl in *.
    rewrite Nat2Z.id.
    rewrite (insert_app_r_alt times) by lia.
    rewrite (insert_app_r_alt observations) by lia.
    rewrite Nat.sub_diag.
    replace (length times - length observations)%nat with 0%nat by lia. simpl.
    rewrite to_int_small by (unfold INT_MAX in *; lia).
    rewrite !cons_middle, !app_assoc.
    replace (Z.of_nat (length times) + 1) with (Z.of_nat (length (times ++ [entry.1])))
      by (rewrite length_app; simpl; lia).
    rewrite IH.
    + f_equal. rewrite length_app. simpl. lia.
    + rewrite !length_app. simpl. lia.
    + rewrite length_app. simpl. lia.
Qed.

Lemma splitTimesAndObservations_split (dataSet : list (TimeType * double)) :
  rows dataSet <= INT_MAX →
  splitTimesAndObservations dataSet = (dataSet.*1, dataSet.*2).
Proof.
  intros Hmax. unfold splitTimesAndObservations, Zero, rows. rewrite Nat2Z.id.
  pose proof (split_loop dataSet [] []) as Hloop. simpl in Hloop.
  change (rows []) with 0 in Hloop. rewrite Hloop; [done | done | lia].
Qed.

Lemma observations_fit_cons (o : ObservableType * list (LinkEnds * (list (TimeType * double) * LinkEndType)))
    (alternativePodInput : AlternativePodInputType) :
  observations_fit (o :: alternativePodInput) ↔
  Forall (λ d, rows d.2.1 <= INT_MAX) o.2 ∧ observations_fit alternativePodInput.
Proof.
  unfold observations_fit, segments_of. rewrite bind_cons, Forall_app, Forall_fmap.
  done.
Qed.

Lemma convert_link_ends (stations : list (LinkEnds * (list (TimeType * double) * LinkEndType))) :
  std_map_ordered LinkEnds_lt stations →
  Forall (λ d, rows d.2.1 <= INT_MAX) stations →
  fold_left (λ singleTypeObservations stationIterator,
      std_map_assign LinkEnds_lt (H:=LinkEnds_less) singleTypeObservations stationIterator.1
        ((splitTimesAndObservations stationIterator.2.1).2,
         ((splitTimesAndObservations stationIterator.2.1).1, stationIterator.2.2)))
    stations []
  = split_map <$> stations.
Proof.
  intros Hordered Hfit.
  pose proof (std_map_assign_loop LinkEnds_lt (H:=LinkEnds_less)
                (λ d : LinkEnds * (list (TimeType * double) * LinkEndType),
                   ((splitTimesAndObservations d.2.1).2,
                    ((splitTimesAndObservations d.2.1).1, d.2.2)))
                stations [] Hordered) as Hloop.
  simpl in Hloop. rewrite Hloop.
  apply Forall_fmap_ext_1. eapply Forall_impl; [exact Hfit|].
  intros d Hd. simpl in Hd. unfold split_map. by rewrite splitTimesAndObservations_split.
Qed.

Lemma convertPodInput_split_maps (alternativePodInput : AlternativePodInputType) :
  std_maps_ordered alternativePodInput → observations_fit alternativePodInput →
  convertPodInput alternativePodInput = split_maps alternativePodInput.
Proof.
  intros [Houter Hinner] Hfit. unfold convertPodInput, split_maps.
  pose proof (std_map_assign_loop lt
                (λ o : ObservableType * list (LinkEnds * (list (TimeType * double) * LinkEndType)),
                   split_map <$> o.2)
                alternativePodInput [] Houter) as Hloop.
  simpl in Hloop. rewrite <- Hloop. clear Hloop Houter.
  generalize (@nil (ObservableType * SingleObservablePodInputType)).
  induction alternativePodInput as [|o a IH]; intros built; [done|].
  apply Forall_cons in Hinner as [Ho Hinner].
  apply observations_fit_cons in Hfit as [Hfo Hfit]. simpl.
  rewrite convert_link_ends by done. by apply IH.
Qed.

(** X11.  For maps from time to observation whose sizes fit an [int],
    [convertPodInput] keeps the observable types and the sets of link ends in
    their order, with their reference link ends, and puts in place of each map
    the vector of its observations and the vector of its times, both in the
    order of the times: pairing the two vectors entry by entry gives the map
    back. *)
Theorem convertPodInput_splits_the_maps (alternativePodInput : AlternativePodInputType) :
  std_maps_ordered alternativePodInput → observations_fit alternativePodInput →
  convertPodInput alternativePodInput = split_maps alternativePodInput ∧
  std_maps_ordered (convertPodInput alternativePodInput) ∧
  Forall2 (λ given converted,
      converted.1 = given.1 ∧
      zip converted.2.2.1 converted.2.1 = given.2.1 ∧
      converted.2.2.2 = given.2.2)
    (segments_of alternativePodInput) (segments_of (convertPodInput alternativePodInput)).
Proof.
  intros Hordered Hfit.
  pose proof (convertPodInput_split_maps alternativePodInput Hordered Hfit) as Hclosed.
  destruct Hordered as [Houter Hinner].
  split; [done|]. rewrite Hclosed. unfold split_maps. split; [split|].
  - unfold std_map_ordered. by rewrite <- list_fmap_compose.
  - apply Forall_fmap. eapply Forall_impl; [exact Hinner|].
    intros o Ho. simpl. unfold std_map_ordered. by rewrite <- list_fmap_compose.
  - clear. unfold segments_of.
    induction alternativePodInput as [|o a IH]; [constructor|].
    rewrite fmap_cons, !bind_cons. apply Forall2_app; [|done]. simpl.
    rewrite <- list_fmap_compose. apply Forall2_fmap, Forall_Forall2_diag, Forall_forall.
    intros d _. simpl. split; [done|]. split; [|done].
    generalize (d.2.1). clear. intros dataSet.
    induction dataSet as [|[time value] dataSet IH]; [done|]. simpl. f_equal. exact IH.
Qed.

Lemma each_below_total {A} (segments : list (list A)) (bound : Z) :
  total_rows segments <= bound → Forall (λ v, rows v <= bound) segments.
Proof.
  induction segments as [|v segments IH]; intros Hmax; [done|].
  rewrite total_rows_cons in Hmax.
  pose proof (rows_nonneg v). pose proof (total_rows_nonneg segments).
  constructor; [lia | apply IH; lia].
Qed.

Lemma total_rows_same_lengths {A B} (xs : list (list A)) (ys : list (list B)) :
  Forall2 (λ x y, length x = length y) xs ys → total_rows xs = total_rows ys.
Proof.
  induction 1 as [|x y xs ys Hxy _ IH]; [done|].
  rewrite !total_rows_cons, IH. unfold rows. by rewrite Hxy.
Qed.

(** X12.  The number of observations that
    [getNumberOfObservationsPerObservable] counts in the result of
    [convertPodInput] is the number of entries of the maps from time to
    observation, and [getNumberOfObservationsPerLinkEnd] finds the sizes of
    these maps under each observable type. *)
Theorem converted_observations_are_counted (alternativePodInput : AlternativePodInputType) :
  std_maps_ordered alternativePodInput →
  total_rows ((λ seg, seg.2.1) <$> segments_of alternativePodInput) <= INT_MAX →
  (getNumberOfObservationsPerObservable (convertPodInput alternativePodInput)).2
  = total_rows ((λ seg, seg.2.1) <$> segments_of alternativePodInput) ∧
  ∀ (observableType : ObservableType) stations,
    (observableType, stations) ∈ alternativePodInput →
    ∃ dataPerLinkEnd,
      (observableType, dataPerLinkEnd) ∈ convertPodInput alternativePodInput ∧
      getNumberOfObservationsPerLinkEnd dataPerLinkEnd = (λ d, rows d.2.1) <$> stations.
Proof.
  intros Hordered Hmax.
  assert (Hfit : observations_fit alternativePodInput).
  { unfold observations_fit. apply each_below_total in Hmax.
    rewrite Forall_fmap in Hmax. eapply Forall_impl; [exact Hmax|]. by intros seg. }
  rewrite (convertPodInput_split_maps alternativePodInput Hordered Hfit).
  assert (Hsame : total_rows (observed_segments (split_maps alternativePodInput))
                  = total_rows ((λ seg, seg.2.1) <$> segments_of alternativePodInput)).
  { apply total_rows_same_lengths. unfold observed_segments, split_maps, segments_of.
    clear. induction alternativePodInput as [|o a IH]; [constructor|].
    rewrite fmap_cons, !bind_cons, !fmap_app. apply Forall2_app; [|done]. simpl.
    rewrite <- !list_fmap_compose. apply Forall2_fmap, Forall_Forall2_diag, Forall_forall.
    intros d _. simpl. by rewrite length_fmap. }
  split.
  - rewrite getNumberOfObservationsPerObservable_total; [done|]. by rewrite Hsame.
  - intros t stations Hin. exists (split_map <$> stations). split.
    + unfold split_maps. apply list_elem_of_fmap. by exists (t, stations).
    + unfold getNumberOfObservationsPerLinkEnd. rewrite per_link_end_loop.
      * simpl. rewrite <- list_fmap_compose. apply list_fmap_ext. intros i d _. simpl.
        unfold rows. by rewrite length_fmap.
      * apply Forall_fmap, Forall_forall. intros d Hd. simpl.
        unfold rows. rewrite length_fmap.
        unfold observations_fit, segments_of in Hfit.
        apply (proj1 (Forall_forall _ _) Hfit (t, d.1, d.2)).
        apply list_elem_of_bind. exists (t, stations). split; [|done].
        apply list_elem_of_fmap. by exists d.
Qed.

End Conversion.

(** ** Normalization of the columns *)

Section Normalization.
Context {Sc : Scalar}.
Implicit Types (m : list (list double)) (v terms : list double).

Lemma nth_insert_eq {A} (l : list A) (i : nat) (x d : A) :
  (i < length l)%nat → nth i (<[i := x]> l) d = x.
Proof. intros Hi. by rewrite nth_lookup, list_lookup_insert_eq. Qed.

Lemma nth_insert_ne {A} (l : list A) (i j : nat) (x d : A) :
  i ≠ j → nth i (<[j := x]> l) d = nth i l d.
Proof. intros Hij. by rewrite !nth_lookup, list_lookup_insert_ne. Qed.

Lemma column_length i m : length (column i m) = length m.
Proof. unfold column. apply length_map. Qed.

Lemma column_assign_length i v m :
  length v = length m → length (column_assign i v m) = length m.
Proof. intros Hv. unfold column_assign. rewrite length_zip_with. lia. Qed.

Lemma column_assign_row_length n i v m :
  row_length n m → row_length n (column_assign i v m).
Proof.
  unfold row_length, column_assign. intros Hm. revert v.
  induction Hm as [|row m Hrow Hm IH]; intros [|x v]; simpl; constructor.
  - by rewrite length_insert.
  - apply IH.
Qed.

Lemma column_assign_other i j v m :
  i ≠ j → length v = length m → column i (column_assign j v m) = column i m.
Proof.
  intros Hij. unfold column, column_assign. revert v.
  induction m as [|row m IH]; intros [|x v] Hlen; simpl in *; try done.
  rewrite nth_insert_ne by done. f_equal. apply IH. lia.
Qed.

Lemma column_assign_same n i v m :
  row_length n m → (i < n)%nat → length v = length m →
  column i (column_assign i v m) = v.
Proof.
  unfold column, column_assign. intros Hm Hi. revert v.
  induction Hm as [|row m Hrow Hm IH]; intros [|x v] Hlen; simpl in *; try done.
  rewrite nth_insert_eq by lia. f_equal. apply IH. lia.
Qed.

Lemma divide_by_length v s : length (divide_by v s) = length v.
Proof. unfold divide_by. apply length_map. Qed.

(** One turn of the loop, on a vector of scaling values that has an entry
    [i]. *)
Lemma normalizeColumn_eq m terms i :
  (i < length terms)%nat →
  normalizeColumn (m, terms) i
  = (column_assign i (divide_by (column i m) (scale_factor (column i m))) m,
     <[i := scale_factor (column i m)]> terms).
Proof.
  intros Hi. unfold normalizeColumn, scale_factor, coeff.
  destruct (dlt (maxCoeff (column i m)) (fabs (minCoeff (column i m))));
    by rewrite nth_insert_eq.
Qed.

Lemma normalize_loop m terms (n : nat) :
  row_length (cols m) m → length terms = cols m → (n <= cols m)%nat →
  normalized_below n m terms (fold_left normalizeColumn (seq 0 n) (m, terms)).
Proof.
  intros Hm Hterms. induction n as [|n IH]; intros Hn.
  - simpl. repeat split; try done; lia.
  - rewrite seq_S, fold_left_app.
    destruct IH as (Hlen & Hrows & Hlt & Hcols); [lia|].
    destruct (fold_left normalizeColumn (seq 0 n) (m, terms)) as [m' terms'].
    simpl in Hlen, Hrows, Hlt, Hcols.
    change (fold_left normalizeColumn [(0 + n)%nat] (m', terms'))
      with (normalizeColumn (m', terms') n).
    rewrite normalizeColumn_eq by lia.
    destruct (Hcols n) as [_ [Hn_col Hn_term]]; [lia|]. rewrite Hn_col.
    assert (Hdiv : length (divide_by (column n m) (scale_factor (column n m))) = length m')
      by (rewrite divide_by_length, column_length; lia).
    repeat split; simpl.
    + rewrite column_assign_length; lia.
    + by apply column_assign_row_length.
    + rewrite length_insert. lia.
    + destruct (decide (j = n)) as [->|Hjn].
      * by apply (column_assign_same (cols m)); [|lia|].
      * rewrite column_assign_other by done. apply Hcols. lia.
    + unfold coeff. destruct (decide (j = n)) as [->|Hjn].
      * apply nth_insert_eq. lia.
      * rewrite nth_insert_ne by done. apply Hcols. lia.
    + rewrite column_assign_other by lia. apply Hcols. lia.
    + unfold coeff. rewrite nth_insert_ne by lia. apply Hcols. lia.
Qed.

(** What [normalizeObservationMatrix] does to column [i]: it divides it by its
    scaling value, which it returns as entry [i]. *)
Lemma normalizeObservationMatrix_column m (i : nat) :
  row_length (cols m) m → (i < cols m)%nat →
  column i (normalizeObservationMatrix m).1
    = divide_by (column i m) (scale_factor (column i m)) ∧
  coeff (normalizeObservationMatrix m).2 i = scale_factor (column i m).
Proof.
  intros Hm Hi. unfold normalizeObservationMatrix.
  destruct (normalize_loop m (Zero (Z.of_nat (cols m))) (cols m)) as (_ & _ & _ & Hcols);
    [done | | lia |].
  - unfold Zero. rewrite length_replicate. lia.
  - apply Hcols. done.
Qed.




End Normalization.

(** *** In exact arithmetic *)

Section NormalizationExact.
Local Open Scope Q_scope.
Local Existing Instance rational.
Implicit Types (v : list Q) (m : list (list Q)).

Lemma minCoeff_fold_spec v (x0 : Q) :
  let res := fold_left (λ res value : Q, if Qltb value res then value else res) v x0 in
  res ∈ x0 :: v ∧ res <= x0 ∧ ∀ x, x ∈ v → res <= x.
Proof.
  revert x0. induction v as [|y v IH]; intros x0; simpl.
  - split; [by left|]. split; [lra|]. intros x Hx. by apply not_elem_of_nil in Hx.
  - destruct (Qltb y x0) eqn:Hlt.
    + apply Qltb_lt in Hlt.
      destruct (IH y) as (Hin & Hle & Hall). split; [by right|]. split; [lra|].
      intros x [->|Hx]%elem_of_cons; [done | by apply Hall].
    + apply Qltb_ge in Hlt.
      destruct (IH x0) as (Hin & Hle & Hall). split.
      { apply elem_of_cons in Hin as [->|Hin]; [by left | by right; right]. }
      split; [done|].
      intros x [->|Hx]%elem_of_cons; [lra | by apply Hall].
Qed.

Lemma maxCoeff_fold_spec v (x0 : Q) :
  let res := fold_left (λ res value : Q, if Qltb res value then value else res) v x0 in
  res ∈ x0 :: v ∧ x0 <= res ∧ ∀ x, x ∈ v → x <= res.
Proof.
  revert x0. induction v as [|y v IH]; intros x0; simpl.
  - split; [by left|]. split; [lra|]. intros x Hx. by apply not_elem_of_nil in Hx.
  - destruct (Qltb x0 y) eqn:Hlt.
    + apply Qltb_lt in Hlt.
      destruct (IH y) as (Hin & Hle & Hall). split; [by right|]. split; [lra|].
      intros x [->|Hx]%elem_of_cons; [done | by apply Hall].
    + apply Qltb_ge in Hlt.
      destruct (IH x0) as (Hin & Hle & Hall). split.
      { apply elem_of_cons in Hin as [->|Hin]; [by left | by right; right]. }
      split; [done|].
      intros x [->|Hx]%elem_of_cons; [lra | by apply Hall].
Qed.

(** In exact arithmetic [minCoeff] and [maxCoeff] of a vector with an entry
    are its least and its greatest entry. *)
Lemma minCoeff_spec v :
  v ≠ [] → minCoeff (Sc:=rational) v ∈ v ∧ ∀ x, x ∈ v → minCoeff (Sc:=rational) v <= x.
Proof.
  destruct v as [|x0 v]; [done|]. intros _. simpl.
  destruct (minCoeff_fold_spec v x0) as (Hin & Hle & Hall). split; [done|].
  intros x [->|Hx]%elem_of_cons; [done | by apply Hall].
Qed.

Lemma maxCoeff_spec v :
  v ≠ [] → maxCoeff (Sc:=rational) v ∈ v ∧ ∀ x, x ∈ v → x <= maxCoeff (Sc:=rational) v.
Proof.
  destruct v as [|x0 v]; [done|]. intros _. simpl.
  destruct (maxCoeff_fold_spec v x0) as (Hin & Hle & Hall). split; [done|].
  intros x [->|Hx]%elem_of_cons; [done | by apply Hall].
Qed.

Lemma Qabs_between (lo hi x : Q) : lo <= x <= hi → Qabs x <= Qabs lo ∨ Qabs x <= Qabs hi.
Proof.
  intros [Hlo Hhi]. destruct (Qlt_le_dec x 0) as [Hneg|Hpos].
  - left. rewrite (Qabs_neg x) by lra. rewrite (Qabs_neg lo) by lra. lra.
  - right. rewrite (Qabs_pos x) by done. rewrite (Qabs_pos hi) by lra. lra.
Qed.

(** The scaling value is the one of the least and the greatest entry that is
    larger in absolute value, and it bounds every entry in absolute value. *)
Lemma scale_factor_spec v :
  v ≠ [] →
  let lo := minCoeff (Sc:=rational) v in
  let hi := maxCoeff (Sc:=rational) v in
  let s := scale_factor (Sc:=rational) v in
  (s = lo ∨ s = hi) ∧ Qabs lo <= Qabs s ∧ Qabs hi <= Qabs s ∧
  ∀ x, x ∈ v → Qabs x <= Qabs s.
Proof.
  intros Hne lo hi s.
  destruct (minCoeff_spec v Hne) as [Hlo_in Hlo]. destruct (maxCoeff_spec v Hne) as [Hhi_in Hhi].
  fold lo in Hlo_in, Hlo. fold hi in Hhi_in, Hhi.
  assert (Hlohi : lo <= hi) by (by apply Hlo).
  assert (Hs : (s = lo ∧ hi < Qabs lo) ∨ (s = hi ∧ Qabs lo <= hi)).
  { subst s. unfold scale_factor. fold lo hi. simpl.
    destruct (Qltb hi (Qabs lo)) eqn:Hc.
    - left. split; [done|]. by apply Qltb_lt.
    - right. split; [done|]. by apply Qltb_ge. }
  assert (Hbounds : Qabs lo <= Qabs s ∧ Qabs hi <= Qabs s).
  { destruct Hs as [[-> Hc] | [-> Hc]].
    - split; [lra|]. pose proof (Qabs_between lo hi hi). pose proof (Qabs_nonneg lo).
      destruct (Qlt_le_dec hi 0).
      + rewrite (Qabs_neg hi) by lra. rewrite (Qabs_neg lo) by lra. lra.
      + rewrite (Qabs_pos hi) by done. lra.
    - pose proof (Qabs_nonneg lo). rewrite (Qabs_pos hi) by lra. lra. }
  split; [destruct Hs as [[? _]|[? _]]; auto|].
  split; [apply Hbounds|]. split; [apply Hbounds|].
  intros x Hx.
  destruct (Qabs_between lo hi x) as [H|H]; [split; auto | |]; destruct Hbounds; lra.
Qed.

Lemma quotient_bounded (x s : Q) : ¬ s == 0 → Qabs x <= Qabs s → -1 <= x / s <= 1.
Proof.
  intros Hs Hx.
  assert (Hpos : 0 < Qabs s).
  { pose proof (Qabs_nonneg s). destruct (Qlt_le_dec 0 (Qabs s)); [done|].
    exfalso. apply Hs. apply Qabs_Qle_condition in q. lra. }
  enough (Qabs (x / s) <= 1) as H by (apply Qabs_Qle_condition in H; exact H).
  unfold Qdiv. rewrite Qabs_Qmult, Qabs_Qinv.
  apply Qle_shift_div_r; [done | lra].
Qed.

(** In exact arithmetic, for a column with an entry that is not zero:
    [minCoeff] and [maxCoeff] are its least and greatest entries; the scaling
    value that normalization returns for it is one of the two, with its sign,
    and neither is larger in absolute value; the column is divided by it; and
    every entry of the column is afterwards between -1 and 1. *)
Lemma normalizeObservationMatrix_bounds_exact m (i : nat) :
  row_length (cols m) m → (i < cols m)%nat →
  (∃ x, x ∈ column i m ∧ ¬ x == 0) →
  let col := column i m in
  let lo := minCoeff col in
  let hi := maxCoeff col in
  let s := coeff (normalizeObservationMatrix m).2 i in
  (lo ∈ col ∧ hi ∈ col ∧ ∀ x, x ∈ col → lo <= x <= hi) ∧
  (s = lo ∨ s = hi) ∧ Qabs lo <= Qabs s ∧ Qabs hi <= Qabs s ∧
  column i (normalizeObservationMatrix m).1 = divide_by col s ∧
  ∀ y, y ∈ column i (normalizeObservationMatrix m).1 → -1 <= y <= 1.
Proof.
  intros Hm Hi (x0 & Hx0 & Hnz) col lo hi s.
  destruct (normalizeObservationMatrix_column (Sc:=rational) m i Hm Hi) as [Hcol Hterm].
  fold col in Hcol, Hterm, Hx0. fold s in Hterm.
  assert (Hne : col ≠ []) by (intros Hnil; rewrite Hnil in Hx0; by apply not_elem_of_nil in Hx0).
  destruct (minCoeff_spec col Hne) as [Hlo_in Hlo].
  destruct (maxCoeff_spec col Hne) as [Hhi_in Hhi].
  destruct (scale_factor_spec col Hne) as (Hchoice & Hlo_s & Hhi_s & Hall).
  rewrite <- Hterm in Hchoice, Hlo_s, Hhi_s, Hall, Hcol.
  split; [by auto|]. split; [done|]. split; [done|]. split; [done|]. split; [done|].
  assert (Hs : ¬ s == 0).
  { intros Hs0. apply Hnz. specialize (Hall x0 Hx0).
    rewrite Hs0 in Hall. change (Qabs 0) with 0 in Hall.
    apply Qabs_Qle_condition in Hall. lra. }
  intros y Hy. rewrite Hcol in Hy. unfold divide_by in Hy.
  apply list_elem_of_fmap in Hy as (x & -> & Hx).
  apply quotient_bounded; [done | by apply Hall].
Qed.

End NormalizationExact.

(** *** Normalization on doubles *)

Section NormalizationOnDoubles.
Implicit Types (v : list float) (m : list (list float)).

Lemma minCoeff_fold_doubles v (x0 : float) :
  is_finite x0 = true → Forall (λ x, is_finite x = true) v →
  let res := fold_left (λ res value : float, if PrimFloat.ltb value res then value else res) v x0 in
  res ∈ x0 :: v ∧ scaled res <= scaled x0 ∧ ∀ x, x ∈ v → scaled res <= scaled x.
Proof.
  intros Hx0 Hv. revert x0 Hx0. induction Hv as [|y v Hy Hv IH]; intros x0 Hx0; simpl.
  - split; [by left|]. split; [lia|]. intros x Hx. by apply not_elem_of_nil in Hx.
  - rewrite ltb_scaled, (finite_not_nan _ Hx0), (finite_not_nan _ Hy). simpl.
    destruct (Z.ltb_spec (scaled y) (scaled x0)) as [Hlt|Hge].
    + destruct (IH y Hy) as (Hin & Hle & Hall). split; [by right|]. split; [lia|].
      intros x [->|Hx]%elem_of_cons; [done | by apply Hall].
    + destruct (IH x0 Hx0) as (Hin & Hle & Hall). split.
      { apply elem_of_cons in Hin as [->|Hin]; [by left | by right; right]. }
      split; [done|].
      intros x [->|Hx]%elem_of_cons; [lia | by apply Hall].
Qed.

Lemma maxCoeff_fold_doubles v (x0 : float) :
  is_finite x0 = true → Forall (λ x, is_finite x = true) v →
  let res := fold_left (λ res value : float, if PrimFloat.ltb res value then value else res) v x0 in
  res ∈ x0 :: v ∧ scaled x0 <= scaled res ∧ ∀ x, x ∈ v → scaled x <= scaled res.
Proof.
  intros Hx0 Hv. revert x0 Hx0. induction Hv as [|y v Hy Hv IH]; intros x0 Hx0; simpl.
  - split; [by left|]. split; [lia|]. intros x Hx. by apply not_elem_of_nil in Hx.
  - rewrite ltb_scaled, (finite_not_nan _ Hx0), (finite_not_nan _ Hy). simpl.
    destruct (Z.ltb_spec (scaled x0) (scaled y)) as [Hlt|Hge].
    + destruct (IH y Hy) as (Hin & Hle & Hall). split; [by right|]. split; [lia|].
      intros x [->|Hx]%elem_of_cons; [done | by apply Hall].
    + destruct (IH x0 Hx0) as (Hin & Hle & Hall). split.
      { apply elem_of_cons in Hin as [->|Hin]; [by left | by right; right]. }
      split; [done|].
      intros x [->|Hx]%elem_of_cons; [lia | by apply Hall].
Qed.

(** On doubles that are numbers, [minCoeff] and [maxCoeff] of a vector with an
    entry are entries of it, the least and the greatest. *)
Lemma minCoeff_doubles v :
  v ≠ [] → Forall (λ x, is_finite x = true) v →
  minCoeff (Sc:=binary64) v ∈ v ∧ ∀ x, x ∈ v → scaled (minCoeff (Sc:=binary64) v) <= scaled x.
Proof.
  destruct v as [|x0 v]; [done|]. intros _ [Hx0 Hv]%Forall_cons. simpl.
  destruct (minCoeff_fold_doubles v x0 Hx0 Hv) as (Hin & Hle & Hall). split; [done|].
  intros x [->|Hx]%elem_of_cons; [done | by apply Hall].
Qed.

Lemma maxCoeff_doubles v :
  v ≠ [] → Forall (λ x, is_finite x = true) v →
  maxCoeff (Sc:=binary64) v ∈ v ∧ ∀ x, x ∈ v → scaled x <= scaled (maxCoeff (Sc:=binary64) v).
Proof.
  destruct v as [|x0 v]; [done|]. intros _ [Hx0 Hv]%Forall_cons. simpl.
  destruct (maxCoeff_fold_doubles v x0 Hx0 Hv) as (Hin & Hle & Hall). split; [done|].
  intros x [->|Hx]%elem_of_cons; [done | by apply Hall].
Qed.

(** The scaling value of a column of numbers is its least or its greatest
    entry, and no entry is larger in magnitude. *)
Lemma scale_factor_doubles v :
  v ≠ [] → Forall (λ x, is_finite x = true) v →
  let lo := minCoeff (Sc:=binary64) v in
  let hi := maxCoeff (Sc:=binary64) v in
  let s := scale_factor (Sc:=binary64) v in
  s = (if PrimFloat.ltb hi (abs lo) then lo else hi) ∧
  s ∈ v ∧ ∀ x, x ∈ v → Z.abs (scaled x) <= Z.abs (scaled s).
Proof.
  intros Hne Hv lo hi s.
  destruct (minCoeff_doubles v Hne Hv) as [Hlo_in Hlo].
  destruct (maxCoeff_doubles v Hne Hv) as [Hhi_in Hhi].
  fold lo in Hlo_in, Hlo. fold hi in Hhi_in, Hhi.
  pose proof (proj1 (Forall_forall _ _) Hv) as Hfin.
  assert (Hs : s = (if PrimFloat.ltb hi (abs lo) then lo else hi)) by reflexivity.
  split; [done|]. rewrite Hs.
  rewrite ltb_scaled, (finite_not_nan _ (Hfin _ Hhi_in)),
    (finite_not_nan _ (abs_finite _ (Hfin _ Hlo_in))), abs_scaled.
  simpl. pose proof (Hlo hi Hhi_in).
  destruct (Z.ltb_spec (scaled hi) (Z.abs (scaled lo))) as [Hlt|Hge].
  - split; [done|]. intros x Hx. specialize (Hlo x Hx). specialize (Hhi x Hx). lia.
  - split; [done|]. intros x Hx. specialize (Hlo x Hx). specialize (Hhi x Hx). lia.
Qed.

(** C6, on doubles that are numbers.  For a column whose entries are neither
    infinite nor NaN, one of them not zero: [minCoeff] and [maxCoeff] are its
    least and its greatest entry; the scaling value that normalization returns
    for it is the least entry if the magnitude of this is above the greatest
    entry, and the greatest entry otherwise, with its sign; no entry of the
    column is larger in magnitude and it is not zero; the column is divided
    by it; and every entry of the column is afterwards between -1 and 1. *)
Theorem normalizeObservationMatrix_bounds m (i : nat) :
  row_length (Sc:=binary64) (cols (Sc:=binary64) m) m → (i < cols (Sc:=binary64) m)%nat →
  Forall (λ x, is_finite x = true) (column (Sc:=binary64) i m) →
  (∃ x, x ∈ column (Sc:=binary64) i m ∧ is_zero x = false) →
  let col := column (Sc:=binary64) i m in
  let lo := minCoeff (Sc:=binary64) col in
  let hi := maxCoeff (Sc:=binary64) col in
  let normalized := normalizeObservationMatrix (Sc:=binary64) m in
  let s := coeff (Sc:=binary64) normalized.2 i in
  (lo ∈ col ∧ hi ∈ col ∧
   ∀ x, x ∈ col → PrimFloat.leb lo x = true ∧ PrimFloat.leb x hi = true) ∧
  s = (if PrimFloat.ltb hi (abs lo) then lo else hi) ∧
  (∀ x, x ∈ col → PrimFloat.leb (abs x) (abs s) = true) ∧
  is_finite s = true ∧ is_zero s = false ∧
  column (Sc:=binary64) i normalized.1 = divide_by (Sc:=binary64) col s ∧
  ∀ y, y ∈ column (Sc:=binary64) i normalized.1 →
    PrimFloat.leb (-1) y = true ∧ PrimFloat.leb y 1 = true.
Proof.
  intros Hm Hi Hv (x0 & Hx0 & Hnz) col lo hi normalized s.
  destruct (normalizeObservationMatrix_column (Sc:=binary64) m i Hm Hi) as [Hcol Hterm].
  fold normalized col in Hcol, Hterm. fold s in Hterm. fold col in Hv, Hx0.
  assert (Hne : col ≠ []) by (intros Hnil; rewrite Hnil in Hx0; by apply not_elem_of_nil in Hx0).
  pose proof (proj1 (Forall_forall _ _) Hv) as Hfin.
  destruct (minCoeff_doubles col Hne Hv) as [Hlo_in Hlo].
  destruct (maxCoeff_doubles col Hne Hv) as [Hhi_in Hhi].
  destruct (scale_factor_doubles col Hne Hv) as (Hchoice & Hs_in & Hall).
  rewrite <- Hterm in Hchoice, Hs_in, Hall, Hcol. fold lo hi in Hchoice, Hlo, Hhi, Hlo_in, Hhi_in.
  assert (Hs_fin : is_finite s = true) by (by apply Hfin).
  assert (Hs_nz : scaled s ≠ 0).
  { intros Hs0. specialize (Hall x0 Hx0). rewrite Hs0 in Hall.
    rewrite (is_zero_scaled x0 (Hfin _ Hx0)) in Hnz. apply Z.eqb_neq in Hnz. lia. }
  split.
  { split; [done|]. split; [done|]. intros x Hx.
    rewrite !leb_scaled, (finite_not_nan _ (Hfin _ Hx)), (finite_not_nan _ (Hfin _ Hlo_in)),
      (finite_not_nan _ (Hfin _ Hhi_in)). simpl.
    split; apply Z.leb_le; [by apply Hlo | by apply Hhi]. }
  split; [done|]. split.
  { intros x Hx.
    rewrite leb_scaled, !abs_scaled, (finite_not_nan _ (abs_finite _ (Hfin _ Hx))),
      (finite_not_nan _ (abs_finite _ Hs_fin)). simpl. apply Z.leb_le. by apply Hall. }
  split; [done|]. split.
  { rewrite (is_zero_scaled s Hs_fin). by apply Z.eqb_neq. }
  split; [done|].
  intros y Hy. rewrite Hcol in Hy. unfold divide_by in Hy.
  apply list_elem_of_fmap in Hy as (x & -> & Hx).
  apply div_below_one; [by apply Hfin | done | done | by apply Hall].
Qed.

End NormalizationOnDoubles.

(** *** The normalized matrix entry by entry *)

Section NormalizedEntries.
Context {Sc : Scalar}.
Implicit Types (m : list (list double)) (v terms : list double).

Lemma column_nth m (i j : nat) : nth j (column i m) dzero = coeff2 m j i.
Proof.
  unfold column, coeff2.
  rewrite <- (map_nth (λ row, nth i row dzero) m [] j). by destruct i.
Qed.

Lemma cols_row_length m m' :
  length m' = length m → row_length (cols m) m' → cols m' = cols m.
Proof.
  destruct m' as [|row' m'], m as [|row m]; simpl; try done.
  intros _ Hrows. by apply Forall_cons in Hrows as [-> _].
Qed.

(** X13.  In any arithmetic, [normalizeObservationMatrix] keeps the numbers
    of rows and columns of the matrix, returns one scaling value for each
    column, and leaves at every place of the matrix the entry that was there
    divided by the scaling value of its column. *)
Theorem normalizeObservationMatrix_entries m :
  row_length (cols m) m →
  let normalized := normalizeObservationMatrix m in
  length normalized.1 = length m ∧
  row_length (cols m) normalized.1 ∧
  cols normalized.1 = cols m ∧
  length normalized.2 = cols m ∧
  ∀ j i : nat, (j < length m)%nat → (i < cols m)%nat →
    coeff2 normalized.1 j i = ddiv (coeff2 m j i) (coeff normalized.2 i).
Proof.
  intros Hm normalized.
  destruct (normalize_loop m (Zero (Z.of_nat (cols m))) (cols m)) as (Hlen & Hrows & Hterms & _);
    [done | by unfold Zero; rewrite length_replicate, Nat2Z.id | lia |].
  fold (normalizeObservationMatrix m) in Hlen, Hrows, Hterms.
  fold normalized in Hlen, Hrows, Hterms.
  split; [done|]. split; [done|]. split; [by apply cols_row_length|].
  split; [by rewrite Hterms; unfold Zero; rewrite length_replicate, Nat2Z.id|].
  intros j i Hj Hi.
  destruct (normalizeObservationMatrix_column m i Hm Hi) as [Hcol Hterm].
  fold normalized in Hcol, Hterm.
  rewrite <- !column_nth, Hcol, Hterm. unfold divide_by.
  rewrite (nth_indep _ dzero (ddiv dzero (scale_factor (column i m))))
    by (rewrite length_map, column_length; lia).
  by rewrite (map_nth (λ x, ddiv x (scale_factor (column i m)))).
Qed.

End NormalizedEntries.

(** *** Normalization undone and repeated, in exact arithmetic *)

Section NormalizationRepeated.
Local Open Scope Q_scope.
Local Existing Instance rational.
Implicit Types (v : list (@double rational)) (m : list (list (@double rational))).

Lemma scale_factor_not_zero v :
  (∃ x, x ∈ v ∧ ¬ x == 0) → scale_factor v ∈ v ∧ ¬ scale_factor v == 0.
Proof.
  intros (x0 & Hx0 & Hnz).
  assert (Hne : v ≠ []) by (intros ->; by apply not_elem_of_nil in Hx0).
  destruct (scale_factor_spec v Hne) as (Hchoice & _ & _ & Hall).
  destruct (minCoeff_spec v Hne) as [Hlo _]. destruct (maxCoeff_spec v Hne) as [Hhi _].
  split; [by destruct Hchoice as [-> | ->]|].
  intros Hs0. apply Hnz. specialize (Hall x0 Hx0).
  rewrite Hs0 in Hall. change (Qabs 0) with 0 in Hall.
  apply Qabs_Qle_condition in Hall. lra.
Qed.

(** X14.  In exact arithmetic, a normalized column with an entry that is
    not zero, multiplied by its scaling value, is the column as it was; and
    the normalized column has an entry equal to one, where the scaling value
    was taken from. *)
Theorem normalizeObservationMatrix_scaled_back m (i : nat) :
  row_length (cols m) m → (i < cols m)%nat →
  (∃ x, x ∈ column i m ∧ ¬ x == 0) →
  let normalized := normalizeObservationMatrix m in
  Forall2 Qeq ((λ y, y * coeff normalized.2 i) <$> column i normalized.1) (column i m) ∧
  ∃ y, y ∈ column i normalized.1 ∧ y == 1.
Proof.
  intros Hm Hi Hnz normalized.
  destruct (normalizeObservationMatrix_column (Sc:=rational) m i Hm Hi) as [Hcol Hterm].
  fold normalized in Hcol, Hterm. rewrite Hcol, Hterm.
  destruct (scale_factor_not_zero (column (Sc:=rational) i m) Hnz) as [Hin Hs].
  set (s := scale_factor (Sc:=rational) (column (Sc:=rational) i m)) in *. split.
  - unfold divide_by. rewrite <- list_fmap_compose.
    apply Forall2_fmap_l, Forall_Forall2_diag, Forall_forall. intros x _.
    change (x / s * s == x). field. done.
  - exists (s / s). split.
    + unfold divide_by. apply list_elem_of_fmap. by exists s.
    + field. done.
Qed.

(** X15.  In exact arithmetic, normalizing a normalized matrix changes
    nothing in a column with an entry that is not zero: the second scaling
    value of the column equals one and the column stays as it is. *)
Theorem normalizeObservationMatrix_twice m (i : nat) :
  row_length (cols m) m → (i < cols m)%nat →
  (∃ x, x ∈ column i m ∧ ¬ x == 0) →
  let once := normalizeObservationMatrix m in
  let twice := normalizeObservationMatrix once.1 in
  coeff twice.2 i == 1 ∧
  Forall2 Qeq (column i twice.1) (column i once.1).
Proof.
  intros Hm Hi Hnz once twice.
  destruct (normalizeObservationMatrix_column (Sc:=rational) m i Hm Hi) as [Hcol _].
  fold once in Hcol.
  destruct (normalize_loop (Sc:=rational) m (Zero (Z.of_nat (cols m))) (cols m))
    as (Hlen & Hrows & _);
    [done | by unfold Zero; rewrite length_replicate, Nat2Z.id | lia |].
  fold (normalizeObservationMatrix m) in Hlen, Hrows. fold once in Hlen, Hrows.
  assert (Hcols : cols once.1 = cols m) by (by apply cols_row_length).
  destruct (normalizeObservationMatrix_column (Sc:=rational) once.1 i) as [Hcol2 Hterm2];
    [by rewrite Hcols | by rewrite Hcols |].
  fold twice in Hcol2, Hterm2.
  destruct (scale_factor_not_zero (column (Sc:=rational) i m) Hnz) as [Hin Hs].
  set (s := scale_factor (Sc:=rational) (column (Sc:=rational) i m)) in *.
  set (col1 := column (Sc:=rational) i once.1) in *.
  assert (Hbound : ∀ y, y ∈ col1 → -1 <= y <= 1).
  { intros y Hy. rewrite Hcol in Hy. unfold divide_by in Hy.
    apply list_elem_of_fmap in Hy as (x & -> & Hx).
    apply quotient_bounded; [done|].
    assert (Hne : column i m ≠ []) by (intros Hnil; rewrite Hnil in Hx; by apply not_elem_of_nil in Hx).
    destruct (scale_factor_spec (column (Sc:=rational) i m) Hne) as (_ & _ & _ & Hall). by apply Hall. }
  assert (Hone : ∃ y, y ∈ col1 ∧ y == 1).
  { exists (s / s). split; [|by field].
    rewrite Hcol. unfold divide_by. apply list_elem_of_fmap. by exists s. }
  destruct Hone as (one & Hone_in & Hone).
  assert (Hne1 : col1 ≠ []) by (intros Hnil; rewrite Hnil in Hone_in; by apply not_elem_of_nil in Hone_in).
  destruct (minCoeff_spec col1 Hne1) as [Hlo_in Hlo].
  destruct (maxCoeff_spec col1 Hne1) as [Hhi_in Hhi].
  assert (Hhi1 : maxCoeff col1 == 1).
  { pose proof (Hhi one Hone_in). pose proof (Hbound _ Hhi_in). lra. }
  assert (Hscale : scale_factor col1 = maxCoeff col1).
  { unfold scale_factor. simpl.
    destruct (Qltb (maxCoeff col1) (Qabs (minCoeff col1))) eqn:Hc; [|done].
    apply Qltb_lt in Hc. pose proof (Hbound _ Hlo_in) as Hb.
    assert (Qabs (minCoeff col1) <= 1) by (apply Qabs_Qle_condition; lra). lra. }
  split.
  - by rewrite Hterm2, Hscale.
  - rewrite Hcol2, Hscale. unfold divide_by.
    apply Forall2_fmap_l, Forall_Forall2_diag, Forall_forall. intros y _.
    change (y / maxCoeff col1 == y). rewrite Hhi1. field.
Qed.

End NormalizationRepeated.

(** ** The estimation loop *)

Section EstimationLoop.
Context {Sc : Scalar} {Ext : External}.
Implicit Types (podInput : PodInput) (l : Locals) (this : OrbitDeterminationManager)
  (c : EstimationConvergenceChecker Sc).

(** An iteration that returns has calculated the residuals in the manager
    that [reintegrate] left, and ends with the local variables of
    [finishIteration]. *)
Lemma iteration_returns podInput (P total : Z) l this this1 l1 :
  iteration podInput P total l this = (this1, Returns l1) →
  ∃ histories residualsAndPartials,
    calculateObservationMatrixAndResiduals (getObservationsAndTimes podInput) P total
      (reintegrate podInput l this) = (this1, Returns residualsAndPartials) ∧
    l1 = finishIteration podInput P l histories residualsAndPartials.
Proof.
  unfold iteration, bind, ret.
  destruct (getSaveStateHistoryForEachIteration podInput).
  - destruct (integrateAndEstimateOrbit_ (reintegrate podInput l this)); [|done].
    destruct (calculateObservationMatrixAndResiduals _ P total _) as [this' [rp|f]]; [|done].
    intros [= <- <-]. eauto.
  - destruct (calculateObservationMatrixAndResiduals _ P total _) as [this' [rp|f]]; [|done].
    intros [= <- <-]. eauto.
Qed.

(** A property of the local variables that every iteration keeps holds when
    the loop returns. *)
Lemma estimationLoop_invariant (I : Locals → Prop) (fuel : nat) podInput c (P total : Z)
    l this this' l' :
  (∀ l this this1 l1, I l → iteration podInput P total l this = (this1, Returns l1) → I l1) →
  I l →
  estimationLoop fuel podInput c P total l this = Some (this', Returns l') → I l'.
Proof.
  intros Hstep. revert l this.
  induction fuel as [|fuel IH]; intros l this Hl; simpl; [done|].
  destruct (iteration podInput P total l this) as [this1 [l1|f]] eqn:Hit; [|done].
  pose proof (Hstep _ _ _ _ Hl Hit) as Hl1.
  destruct (isEstimationConverged c (numberOfIterations l1) (rmsResidualHistory l1)).
  - intros [= <- <-]. done.
  - by apply IH.
Qed.

(** The loop returns the local variables of an iteration: its result is never
    the state in which it was entered. *)
Lemma estimationLoop_last_iteration (fuel : nat) podInput c (P total : Z) l this this' l' :
  estimationLoop fuel podInput c P total l this = Some (this', Returns l') →
  ∃ l0 this0, iteration podInput P total l0 this0 = (this', Returns l') ∧
    isEstimationConverged c (numberOfIterations l') (rmsResidualHistory l') = true.
Proof.
  revert l this. induction fuel as [|fuel IH]; intros l this; simpl; [done|].
  destruct (iteration podInput P total l this) as [this1 [l1|f]] eqn:Hit; [|done].
  destruct (isEstimationConverged c (numberOfIterations l1) (rmsResidualHistory l1)) eqn:Hc.
  - intros [= <- <-]. eauto.
  - apply IH.
Qed.

Lemma iteration_counts podInput (P total : Z) l this this1 l1 :
  iteration podInput P total l this = (this1, Returns l1) →
  numberOfIterations l1 = numberOfIterations l + 1 ∧
  rows (rmsResidualHistory l1) = rows (rmsResidualHistory l) + 1.
Proof.
  intros (histories & rp & _ & ->)%iteration_returns. simpl.
  split; [done|]. rewrite rows_app. done.
Qed.

(** The loop with enough fuel ends, and the iterations it has run are at most
    the maximum, or one when the maximum is less. *)
Lemma estimationLoop_ends (fuel : nat) podInput c (P total : Z) l this :
  let bound := Z.max 1 (maximumNumberOfIterations_ c) in
  0 <= numberOfIterations l < bound →
  (Z.to_nat (bound - numberOfIterations l) <= fuel)%nat →
  ∃ this' outcome,
    estimationLoop fuel podInput c P total l this = Some (this', outcome) ∧
    ∀ l', outcome = Returns l' → numberOfIterations l < numberOfIterations l' <= bound.
Proof.
  intros bound. revert l this.
  induction fuel as [|fuel IH]; intros l this Hn Hfuel; [lia|]. simpl.
  destruct (iteration podInput P total l this) as [this1 [l1|f]] eqn:Hit.
  - destruct (iteration_counts _ _ _ _ _ _ _ Hit) as [Hn1 _].
    destruct (isEstimationConverged c (numberOfIterations l1) (rmsResidualHistory l1)) eqn:Hc.
    + eexists _, _. split; [done|]. intros l' [= <-]. lia.
    + rewrite isEstimationConverged_tests in Hc.
      assert (Hmax : maximumIterationsReached c (numberOfIterations l1) = false).
      { destruct (maximumIterationsReached c (numberOfIterations l1)); [done|done]. }
      unfold maximumIterationsReached in Hmax.
      destruct (Z.geb_spec (numberOfIterations l1) (maximumNumberOfIterations_ c)); [done|].
      destruct (IH l1 this1) as (this' & outcome & Hloop & Hcount); [lia | lia |].
      exists this', outcome. split; [done|]. intros l' Hl'. specialize (Hcount l' Hl'). lia.
  - eexists _, _. split; [done|]. intros l' [=].
Qed.

Lemma estimationLoop_more_fuel (fuel fuel' : nat) podInput c (P total : Z) l this result :
  estimationLoop fuel podInput c P total l this = Some result → (fuel <= fuel')%nat →
  estimationLoop fuel' podInput c P total l this = Some result.
Proof.
  revert fuel' l this. induction fuel as [|fuel IH]; intros fuel' l this; simpl; [done|].
  intros Hrun Hle. destruct fuel' as [|fuel']; [lia|]. simpl.
  destruct (iteration podInput P total l this) as [this1 [l1|f]]; [|done].
  destruct (isEstimationConverged c (numberOfIterations l1) (rmsResidualHistory l1)); [done|].
  apply IH; [done | lia].
Qed.

(** C5, as the code has it.  With fuel for [max 1 maximumNumberOfIterations_]
    iterations the run of [estimateParameters] ends, by returning or by
    failing, and more fuel does not change how; when it returns, it has run one
    iteration at least and [max 1 maximumNumberOfIterations_] at most, a number
    that fits an [int], and has recorded one RMS for each. *)
Theorem estimationRun_terminates (fuel : nat) podInput c this :
  (Z.to_nat (Z.max 1 (maximumNumberOfIterations_ c)) <= fuel)%nat →
  ∃ this' outcome,
    estimationRun fuel podInput c this = Some (this', outcome) ∧
    estimateParameters fuel podInput c this
      = Some (this', match outcome with
                     | Returns l' => Returns (makePodOutput l')
                     | Fails f => Fails f
                     end) ∧
    (∀ fuel', (fuel <= fuel')%nat →
       estimationRun fuel' podInput c this = Some (this', outcome)) ∧
    ∀ l', outcome = Returns l' →
      1 <= numberOfIterations l' <= Z.max 1 (maximumNumberOfIterations_ c) ∧
      (checker_representable c → numberOfIterations l' <= INT_MAX) ∧
      rows (rmsResidualHistory l') = numberOfIterations l'.
Proof.
  intros Hfuel. unfold estimateParameters, estimationRun.
  destruct (enterEstimation podInput this) as [this0 [[P total] l0]] eqn:Henter.
  assert (Hn0 : numberOfIterations l0 = 0 ∧ rmsResidualHistory l0 = []).
  { unfold enterEstimation in Henter. by injection Henter as <- <- <- <-. }
  destruct Hn0 as [Hn0 Hh0].
  destruct (estimationLoop_ends fuel podInput c P total l0 this0) as (this' & outcome & Hrun & Hcount);
    [lia | lia |].
  exists this', outcome. split; [done|]. split; [|split].
  - rewrite Hrun. by destruct outcome.
  - intros fuel' Hle. by apply (estimationLoop_more_fuel fuel).
  - intros l' ->. specialize (Hcount l' eq_refl). split; [lia|]. split.
    + intros [Hmax _]. unfold INT_MAX in *. lia.
    + apply (estimationLoop_invariant
               (λ l, rows (rmsResidualHistory l) = numberOfIterations l)) in Hrun; [done| |].
      * intros l this1 this2 l1 Hl Hit.
        destruct (iteration_counts _ _ _ _ _ _ _ Hit). lia.
      * rewrite Hn0, Hh0. done.
Qed.

(** *** The parameter reset *)

(** C9.  After a call of [resetParameterEstimate] the current parameter
    estimate is the vector passed in, whatever the flag; a second call with the
    same vector leaves it as the first call did. *)
Theorem resetParameterEstimate_current_estimate this (v : list double) (flag flag' : bool) :
  getCurrentParameterEstimate (resetParameterEstimate v flag this) = v ∧
  getCurrentParameterEstimate (resetParameterEstimate v flag' (resetParameterEstimate v flag this))
  = getCurrentParameterEstimate (resetParameterEstimate v flag this).
Proof. split; reflexivity. Qed.

(** *** The best iterate *)

(** An iteration whose RMS is not below the best one so far keeps the
    snapshot; one whose RMS is below it records its own RMS, estimate,
    residuals, scaling values, weights and inverse covariance. *)
Lemma finishIteration_snapshot podInput (P : Z) l histories
    (residualsAndPartials : list double * list (list double)) :
  let l1 := finishIteration podInput P l histories residualsAndPartials in
  let correction := computeCorrection podInput P residualsAndPartials in
  let residualRms := getVectorEntryRootMeanSquare residualsAndPartials.1 in
  rmsResidualHistory l1 = rmsResidualHistory l ++ [residualRms] ∧
  newParameterEstimate l1 = vadd (newParameterEstimate l) (parameterAddition correction) ∧
  (dlt residualRms (bestResidual l) = false → bestSnapshot l1 = bestSnapshot l) ∧
  (dlt residualRms (bestResidual l) = true →
     bestResidual l1 = residualRms ∧
     bestParameterEstimate l1 = newParameterEstimate l1 ∧
     bestResiduals l1 = residualsAndPartials.1 ∧
     bestTransformationData l1 = transformationData correction ∧
     bestWeightsMatrixDiagonal l1
       = getConcatenatedWeightsVector (getWeightsMatrixDiagonals podInput) ∧
     bestInverseNormalizedCovarianceMatrix l1 = (leastSquaresOutput correction).2).
Proof.
  intros l1 correction residualRms. subst l1. unfold bestSnapshot. simpl.
  fold correction. fold residualRms.
  split; [done|]. split; [done|]. split; intros ->; simpl; done.
Qed.

Lemma finishIteration_bestResidual podInput (P : Z) l histories
    (residualsAndPartials : list double * list (list double)) :
  bestResidual (finishIteration podInput P l histories residualsAndPartials)
  = if dlt (getVectorEntryRootMeanSquare residualsAndPartials.1) (bestResidual l)
    then getVectorEntryRootMeanSquare residualsAndPartials.1 else bestResidual l.
Proof. reflexivity. Qed.

(** An iteration that returns has calculated its
    residuals in the manager that [reintegrate] left: when the iteration
    re-propagates (every iteration but the first, and the first when
    [getReintegrateEquationsOnFirstIteration] is set) this is the manager reset
    to the estimate before the update; otherwise it is the manager as the
    iteration found it.  The new estimate is the estimate before the update
    plus the correction, and when the RMS of the iteration is the new best,
    the snapshot records the new estimate together with the residuals that
    were calculated before the update.  The next iteration resets the manager
    to the new estimate. *)
Lemma iteration_estimate_and_residuals podInput (P total : Z) l this this1 l1 :
  iteration podInput P total l this = (this1, Returns l1) →
  ∃ residualsAndPartials,
    calculateObservationMatrixAndResiduals (getObservationsAndTimes podInput) P total
      (reintegrate podInput l this) = (this1, Returns residualsAndPartials) ∧
    (numberOfIterations l > 0 ∨ getReintegrateEquationsOnFirstIteration podInput = true →
       reintegrate podInput l this
         = resetParameterEstimate (newParameterEstimate l)
             (getReintegrateVariationalEquations podInput) this ∧
       getCurrentParameterEstimate (reintegrate podInput l this) = newParameterEstimate l) ∧
    (numberOfIterations l <= 0 → getReintegrateEquationsOnFirstIteration podInput = false →
       reintegrate podInput l this = this) ∧
    newParameterEstimate l1
      = vadd (newParameterEstimate l)
             (parameterAddition (computeCorrection podInput P residualsAndPartials)) ∧
    (dlt (getVectorEntryRootMeanSquare residualsAndPartials.1) (bestResidual l) = true →
       bestParameterEstimate l1 = newParameterEstimate l1 ∧
       bestResiduals l1 = residualsAndPartials.1) ∧
    (0 <= numberOfIterations l →
       reintegrate podInput l1 this1
         = resetParameterEstimate (newParameterEstimate l1)
             (getReintegrateVariationalEquations podInput) this1).
Proof.
  intros Hit.
  destruct (iteration_counts _ _ _ _ _ _ _ Hit) as [Hn1 _].
  destruct (iteration_returns _ _ _ _ _ _ _ Hit) as (histories & rp & Hcalc & ->).
  exists rp. split; [done|].
  destruct (finishIteration_snapshot podInput P l histories rp) as (_ & Hnew & _ & Hbest).
  split; [|split; [|split; [done|split]]].
  - intros Hre. unfold reintegrate.
    assert ((numberOfIterations l >? 0) || getReintegrateEquationsOnFirstIteration podInput = true)
      as ->.
    { destruct Hre as [Hn | ->]; [|by rewrite orb_true_r].
      destruct (Z.gtb_spec (numberOfIterations l) 0); [done | lia]. }
    done.
  - intros Hn Hflag. unfold reintegrate. rewrite Hflag.
    destruct (Z.gtb_spec (numberOfIterations l) 0); [lia | done].
  - intros Hbetter. destruct (Hbest Hbetter) as (_ & ? & ? & _). done.
  - intros Hn. unfold reintegrate at 1.
    destruct (Z.gtb_spec (numberOfIterations (finishIteration podInput P l histories rp)) 0);
      [done | lia].
Qed.

End EstimationLoop.

(** ** Runs of the estimation *)

Section Runs.
Context {Sc : Scalar} {Ext : External}.
Implicit Types (podInput : PodInput) (l : Locals) (this : OrbitDeterminationManager)
  (c : EstimationConvergenceChecker Sc).

Lemma reintegrate_frame podInput l this :
  integrateAndEstimateOrbit_ (reintegrate podInput l this) = integrateAndEstimateOrbit_ this ∧
  observationManagers_ (reintegrate podInput l this) = observationManagers_ this.
Proof. unfold reintegrate. by case_match. Qed.

Lemma estimation_ready_frame podInput this this' :
  integrateAndEstimateOrbit_ this' = integrateAndEstimateOrbit_ this →
  observationManagers_ this' = observationManagers_ this →
  estimation_ready podInput this → estimation_ready podInput this'.
Proof.
  intros Hi Hm [Hsolver Hall]. split; [by rewrite Hi|].
  eapply Forall_impl; [exact Hall|]. intros seg. unfold registered. by rewrite Hm.
Qed.

(** An iteration in a manager that is ready returns, in the manager that
    [reintegrate] left. *)
Lemma iteration_ready podInput (P total : Z) l this :
  estimation_ready podInput this →
  ∃ l1, iteration podInput P total l this = (reintegrate podInput l this, Returns l1).
Proof.
  intros Hready.
  destruct (reintegrate_frame podInput l this) as [Hi Hm].
  apply (estimation_ready_frame podInput this (reintegrate podInput l this) Hi Hm) in Hready
    as [Hsolver Hall].
  unfold iteration, bind, ret.
  set (obs := getObservationsAndTimes podInput) in *.
  assert (Hcalc : ∃ rp, calculateObservationMatrixAndResiduals obs P total
                          (reintegrate podInput l this)
                        = (reintegrate podInput l this, Returns rp)).
  { unfold calculateObservationMatrixAndResiduals, bind. rewrite calculate_loops_flat.
    destruct (calculate_loop_returns (reintegrate podInput l this) P (segments_of obs)
                (Zero total, MatrixZero total P, 0) Hall) as [state' ->].
    unfold ret. eauto. }
  destruct Hcalc as [rp Hcalc].
  destruct (getSaveStateHistoryForEachIteration podInput).
  - rewrite Hsolver by done. rewrite Hcalc. eauto.
  - rewrite Hcalc. eauto.
Qed.

(** An iteration that returns was run in a manager that is ready, and leaves
    the manager that [reintegrate] left. *)
Lemma iteration_returns_ready podInput (P total : Z) l this this1 l1 :
  iteration podInput P total l this = (this1, Returns l1) →
  this1 = reintegrate podInput l this ∧ estimation_ready podInput this.
Proof.
  intros Hit.
  destruct (reintegrate_frame podInput l this) as [Hi Hm].
  assert (Hs : getSaveStateHistoryForEachIteration podInput = true →
               integrateAndEstimateOrbit_ this = true).
  { intros Hsave. rewrite <- Hi. unfold iteration, bind in Hit. rewrite Hsave in Hit.
    by destruct (integrateAndEstimateOrbit_ (reintegrate podInput l this)). }
  destruct (iteration_returns _ _ _ _ _ _ _ Hit) as (histories & rp & Hcalc & _).
  unfold calculateObservationMatrixAndResiduals, bind in Hcalc.
  rewrite calculate_loops_flat in Hcalc.
  destruct (first_unregistered (reintegrate podInput l this)
              (segments_of (getObservationsAndTimes podInput)))
    as [Hall | (pre & seg & post & Hsegs & Hpre & Hno)].
  - destruct (calculate_loop_returns (reintegrate podInput l this) P
                (segments_of (getObservationsAndTimes podInput))
                (Zero total, MatrixZero total P, 0) Hall) as [state' Hret].
    rewrite Hret in Hcalc. unfold ret in Hcalc. injection Hcalc as <- _.
    split; [done|]. split; [done|].
    eapply Forall_impl; [exact Hall|]. intros seg. unfold registered. by rewrite Hm.
  - rewrite Hsegs, calculate_loop_fails in Hcalc by done. discriminate.
Qed.

(** An iteration that fails does so on a null pointer, in a manager that is
    not ready. *)
Lemma iteration_fails_not_ready podInput (P total : Z) l this this1 (f : Failure) :
  iteration podInput P total l this = (this1, Fails f) →
  f = NullPointerDereference ∧ ¬ estimation_ready podInput this.
Proof.
  intros Hit. split.
  - unfold iteration, bind, ret in Hit.
    destruct (reintegrate_frame podInput l this) as [Hi Hm].
    set (this0 := reintegrate podInput l this) in *.
    assert (Hcalc : ∀ this2 f2,
      calculateObservationMatrixAndResiduals (getObservationsAndTimes podInput) P total this0
      = (this2, Fails f2) → f2 = NullPointerDereference).
    { intros this2 f2 Hc.
      unfold calculateObservationMatrixAndResiduals, bind in Hc.
      rewrite calculate_loops_flat in Hc.
      destruct (first_unregistered this0 (segments_of (getObservationsAndTimes podInput)))
        as [Hall | (pre & seg & post & Hsegs & Hpre & Hno)].
      - destruct (calculate_loop_returns this0 P
                    (segments_of (getObservationsAndTimes podInput))
                    (Zero total, MatrixZero total P, 0) Hall) as [state' Hret].
        rewrite Hret in Hc. discriminate.
      - rewrite Hsegs, calculate_loop_fails in Hc by done. by injection Hc as _ <-. }
    destruct (getSaveStateHistoryForEachIteration podInput).
    + destruct (integrateAndEstimateOrbit_ this0).
      * destruct (calculateObservationMatrixAndResiduals _ P total this0)
          as [this2 [rp|f2]] eqn:Hc; [done|].
        injection Hit as _ <-. by eapply Hcalc.
      * by injection Hit as _ <-.
    + destruct (calculateObservationMatrixAndResiduals _ P total this0)
        as [this2 [rp|f2]] eqn:Hc; [done|].
      injection Hit as _ <-. by eapply Hcalc.
  - intros Hready.
    destruct (iteration_ready podInput P total l this Hready) as [l1 Hret].
    rewrite Hret in Hit. discriminate.
Qed.


(** The loop in a manager that is ready does not fail; in one that is not, it
    fails in its first iteration. *)
Lemma estimationLoop_ready (fuel : nat) podInput c (P total : Z) l this this' (f : Failure) :
  estimation_ready podInput this →
  estimationLoop fuel podInput c P total l this ≠ Some (this', Fails f).
Proof.
  revert l this. induction fuel as [|fuel IH]; intros l this Hready; simpl; [done|].
  destruct (iteration_ready podInput P total l this Hready) as [l1 ->].
  destruct (isEstimationConverged c (numberOfIterations l1) (rmsResidualHistory l1)); [done|].
  apply IH.
  destruct (reintegrate_frame podInput l this) as [Hi Hm].
  by apply (estimation_ready_frame podInput this).
Qed.

Lemma enterEstimation_frame podInput this :
  let entered := enterEstimation podInput this in
  integrateAndEstimateOrbit_ entered.1 = integrateAndEstimateOrbit_ this ∧
  observationManagers_ entered.1 = observationManagers_ this ∧
  environment entered.1 = environment this ∧
  currentParameterEstimate_ entered.1 = getFullParameterValues (environment this) ∧
  numberOfIterations entered.2.2 = 0 ∧
  newParameterEstimate entered.2.2
  = vadd (getFullParameterValues (environment this))
         (getInitialParameterDeviationEstimate podInput).
Proof. done. Qed.

Lemma estimationLoop_returns_ready (fuel : nat) podInput c (P total : Z) l this this' l' :
  estimationLoop fuel podInput c P total l this = Some (this', Returns l') →
  estimation_ready podInput this ∧
  integrateAndEstimateOrbit_ this' = integrateAndEstimateOrbit_ this ∧
  observationManagers_ this' = observationManagers_ this.
Proof.
  revert l this. induction fuel as [|fuel IH]; intros l this; simpl; [done|].
  destruct (iteration podInput P total l this) as [this1 [l1|f]] eqn:Hit; [|done].
  destruct (iteration_returns_ready _ _ _ _ _ _ _ Hit) as [-> Hready].
  destruct (reintegrate_frame podInput l this) as [Hi Hm].
  destruct (isEstimationConverged c (numberOfIterations l1) (rmsResidualHistory l1)).
  - intros [= <- <-]. done.
  - intros (_ & Hi' & Hm')%IH. split; [done|]. split; congruence.
Qed.

Lemma estimationLoop_fails_not_ready (fuel : nat) podInput c (P total : Z) l this this'
    (f : Failure) :
  estimationLoop fuel podInput c P total l this = Some (this', Fails f) →
  f = NullPointerDereference ∧ ¬ estimation_ready podInput this.
Proof.
  intros Hloop. split.
  - revert l this Hloop. induction fuel as [|fuel IH]; intros l this; simpl; [done|].
    destruct (iteration podInput P total l this) as [this1 [l1|f1]] eqn:Hit.
    + destruct (isEstimationConverged c (numberOfIterations l1) (rmsResidualHistory l1));
        [done | apply IH].
    + intros [= <- <-]. by destruct (iteration_fails_not_ready _ _ _ _ _ _ _ Hit).
  - intros Hready. by apply estimationLoop_ready in Hloop.
Qed.

(** The run in a manager that is ready returns when it has the fuel. *)
Lemma estimateParameters_ready (fuel : nat) podInput c this :
  estimation_ready podInput this →
  (Z.to_nat (Z.max 1 (maximumNumberOfIterations_ c)) <= fuel)%nat →
  ∃ this' output, estimateParameters fuel podInput c this = Some (this', Returns output).
Proof.
  intros Hready Hfuel. unfold estimateParameters, estimationRun.
  destruct (enterEstimation_frame podInput this) as (Hi & Hm & _ & _ & Hnum & _).
  destruct (enterEstimation podInput this) as [this0 [[P total] l0]] eqn:Henter.
  simpl in Hi, Hm, Hnum.
  apply (estimation_ready_frame podInput this this0 Hi Hm) in Hready.
  destruct (estimationLoop_ends fuel podInput c P total l0 this0)
    as (this' & outcome & Hrun & _); [lia | lia |].
  rewrite Hrun. destruct outcome as [l'|f]; [eauto|].
  by apply estimationLoop_ready in Hrun.
Qed.

(** X16.  On an input that holds observations, [estimateParameters] returns
    exactly when the manager is ready for the input: with fuel for
    [max 1 maximumNumberOfIterations_] iterations it returns in a manager that
    is ready; if it returns, the manager was ready, and
    [integrateAndEstimateOrbit_] and the map that [getObservationManagers]
    returns are as they were; if it fails, it fails on a null pointer and the
    manager was not ready.  (Without an observation the matrix of partials has
    no row, and [normalizeObservationMatrix] takes [minCoeff] of its empty
    columns, which Eigen does not allow; the embedding does not follow the code
    there, and the statement leaves these inputs out.) *)
Theorem estimateParameters_returns_iff (fuel : nat) podInput c this :
  observations_present podInput →
  (estimation_ready podInput this →
   (Z.to_nat (Z.max 1 (maximumNumberOfIterations_ c)) <= fuel)%nat →
   ∃ this' output, estimateParameters fuel podInput c this = Some (this', Returns output)) ∧
  (∀ this' output,
     estimateParameters fuel podInput c this = Some (this', Returns output) →
     estimation_ready podInput this ∧
     integrateAndEstimateOrbit_ this' = integrateAndEstimateOrbit_ this ∧
     getObservationManagers this' = getObservationManagers this) ∧
  (∀ this' (f : Failure),
     estimateParameters fuel podInput c this = Some (this', Fails f) →
     f = NullPointerDereference ∧ ¬ estimation_ready podInput this).
Proof.
  intros _. split; [apply estimateParameters_ready|].
  unfold estimateParameters, estimationRun, getObservationManagers.
  destruct (enterEstimation_frame podInput this) as (Hi & Hm & _).
  destruct (enterEstimation podInput this) as [this0 [[P total] l0]] eqn:Henter.
  simpl in Hi, Hm.
  assert (Hback : estimation_ready podInput this0 → estimation_ready podInput this).
  { by apply estimation_ready_frame. }
  split.
  - intros this' output Hrun.
    destruct (estimationLoop fuel podInput c P total l0 this0) as [[this1 [l'|f]]|] eqn:Hloop;
      [|done..].
    injection Hrun as <- _.
    apply estimationLoop_returns_ready in Hloop as (Hready & Hi' & Hm').
    split; [by apply Hback|]. split; congruence.
  - intros this' f Hrun.
    destruct (estimationLoop fuel podInput c P total l0 this0) as [[this1 [l'|f1]]|] eqn:Hloop;
      [done| |done].
    injection Hrun as <- <-.
    apply estimationLoop_fails_not_ready in Hloop as [-> Hno]. split; [done|].
    intros Hready. apply Hno. by apply (estimation_ready_frame podInput this).
Qed.

(** The manager after [observationManagers_[ t ]] and a failed call through
    the pointer: apart from the null pointer that may have been added, it is the
    manager before. *)
Lemma iteration_fails_frame podInput (P total : Z) l this this1 (f : Failure) :
  iteration podInput P total l this = (this1, Fails f) →
  integrateAndEstimateOrbit_ this1 = integrateAndEstimateOrbit_ (reintegrate podInput l this) ∧
  environment this1 = environment (reintegrate podInput l this) ∧
  currentParameterEstimate_ this1 = currentParameterEstimate_ (reintegrate podInput l this) ∧
  ∀ t, observationManagers_ this !! t ≠ None →
       observationManagers_ this1 !! t = observationManagers_ this !! t.
Proof.
  unfold iteration, bind, ret.
  destruct (reintegrate_frame podInput l this) as [Hi Hm]. rewrite <- Hm.
  set (this0 := reintegrate podInput l this) in *.
  assert (Hcalc : ∀ this2 f2,
    calculateObservationMatrixAndResiduals (getObservationsAndTimes podInput) P total this0
    = (this2, Fails f2) →
    integrateAndEstimateOrbit_ this2 = integrateAndEstimateOrbit_ this0 ∧
    environment this2 = environment this0 ∧
    currentParameterEstimate_ this2 = currentParameterEstimate_ this0 ∧
    ∀ t, observationManagers_ this0 !! t ≠ None →
         observationManagers_ this2 !! t = observationManagers_ this0 !! t).
  { intros this2 f2 Hc.
    unfold calculateObservationMatrixAndResiduals, bind in Hc.
    rewrite calculate_loops_flat in Hc.
    destruct (first_unregistered this0 (segments_of (getObservationsAndTimes podInput)))
      as [Hall | (pre & seg & post & Hsegs & Hpre & Hno)].
    - destruct (calculate_loop_returns this0 P
                  (segments_of (getObservationsAndTimes podInput))
                  (Zero total, MatrixZero total P, 0) Hall) as [state' Hret].
      rewrite Hret in Hc. discriminate.
    - rewrite Hsegs, calculate_loop_fails in Hc by done. injection Hc as <- _.
      destruct (observationManagers_subscript_frame this0 seg.1.1) as (? & ? & ? & Hother).
      repeat split; try done. intros t Ht.
      destruct (decide (t = seg.1.1)) as [->|Hne]; [|by apply Hother].
      unfold observationManagers_subscript.
      destruct (observationManagers_ this0 !! seg.1.1) eqn:Hl; done. }
  destruct (getSaveStateHistoryForEachIteration podInput).
  - destruct (integrateAndEstimateOrbit_ this0) eqn:Hint.
    + destruct (calculateObservationMatrixAndResiduals _ P total this0)
        as [this2 [rp|f2]] eqn:Hc; [done|].
      intros [= <- <-]. by eapply Hcalc.
    + intros [= <- <-]. done.
  - destruct (calculateObservationMatrixAndResiduals _ P total this0)
      as [this2 [rp|f2]] eqn:Hc; [done|].
    intros [= <- <-]. by eapply Hcalc.
Qed.

Lemma iteration_not_ready podInput (P total : Z) l this :
  ¬ estimation_ready podInput this →
  ∃ this1, iteration podInput P total l this = (this1, Fails NullPointerDereference).
Proof.
  intros Hno.
  destruct (iteration podInput P total l this) as [this1 [l1|f]] eqn:Hit.
  - by destruct (iteration_returns_ready _ _ _ _ _ _ _ Hit).
  - destruct (iteration_fails_not_ready _ _ _ _ _ _ _ Hit) as [-> _]. eauto.
Qed.

(** The run in a manager that is not ready fails in its first iteration. *)
Lemma estimateParameters_not_ready (fuel : nat) podInput c this :
  ¬ estimation_ready podInput this →
  ∃ this', estimateParameters (S fuel) podInput c this
           = Some (this', Fails NullPointerDereference).
Proof.
  intros Hno. unfold estimateParameters, estimationRun.
  destruct (enterEstimation_frame podInput this) as (Hi & Hm & _).
  destruct (enterEstimation podInput this) as [this0 [[P total] l0]] eqn:Henter.
  simpl in Hi, Hm. simpl.
  assert (Hno0 : ¬ estimation_ready podInput this0).
  { intros Hready. apply Hno. by apply (estimation_ready_frame podInput this0). }
  destruct (iteration_not_ready podInput P total l0 this0 Hno0) as [this1 ->]. eauto.
Qed.

(** X17.  In a manager that is not ready, [estimateParameters] fails on a
    null pointer in its first iteration.  What the first iteration did before
    is not undone: with [getReintegrateEquationsOnFirstIteration] the
    parameters are reset to the initial estimate plus the initial deviation;
    without it the manager holds the values of the parameter set.  The
    pointers that [observationManagers_] held are unchanged. *)
Theorem estimateParameters_fails_in_first_iteration (fuel : nat) podInput c this :
  ¬ estimation_ready podInput this →
  let firstEstimate :=
    vadd (getFullParameterValues (environment this))
         (getInitialParameterDeviationEstimate podInput) in
  ∃ this',
    estimateParameters (S fuel) podInput c this = Some (this', Fails NullPointerDereference) ∧
    integrateAndEstimateOrbit_ this' = integrateAndEstimateOrbit_ this ∧
    (∀ t, observationManagers_ this !! t ≠ None →
          observationManagers_ this' !! t = observationManagers_ this !! t) ∧
    (getReintegrateEquationsOnFirstIteration podInput = true →
       getCurrentParameterEstimate this' = firstEstimate ∧
       environment this'
       = environment (resetParameterEstimate firstEstimate
                        (getReintegrateVariationalEquations podInput) this)) ∧
    (getReintegrateEquationsOnFirstIteration podInput = false →
       getCurrentParameterEstimate this' = getFullParameterValues (environment this) ∧
       environment this' = environment this).
Proof.
  intros Hno firstEstimate.
  unfold estimateParameters, estimationRun.
  destruct (enterEstimation_frame podInput this) as (Hi & Hm & He & Hc & Hn & Hnew).
  destruct (enterEstimation podInput this) as [this0 [[P total] l0]] eqn:Henter.
  simpl in Hi, Hm, He, Hc, Hn, Hnew. simpl.
  assert (Hno0 : ¬ estimation_ready podInput this0).
  { intros Hready. apply Hno. by apply (estimation_ready_frame podInput this0). }
  destruct (iteration_not_ready podInput P total l0 this0 Hno0) as [this1 Hit].
  rewrite Hit. exists this1. split; [done|].
  destruct (iteration_fails_frame _ _ _ _ _ _ _ Hit) as (Hi1 & He1 & Hc1 & Hm1).
  destruct (reintegrate_frame podInput l0 this0) as [Hi0 _].
  split; [congruence|]. split.
  { intros t Ht. rewrite <- Hm. apply Hm1. by rewrite Hm. }
  unfold getCurrentParameterEstimate. rewrite He1, Hc1. unfold reintegrate.
  rewrite Hn, Hnew. fold firstEstimate. simpl.
  split; intros ->; simpl.
  - split; [done|]. by rewrite Hi, He.
  - done.
Qed.

(** *** What a run records *)

Lemma finishIteration_histories podInput (P : Z) l histories
    (residualsAndPartials : list double * list (list double)) :
  let l1 := finishIteration podInput P l histories residualsAndPartials in
  numberOfIterations l1 = numberOfIterations l + 1 ∧
  residualHistory l1
  = (if getSaveResidualsAndParametersFromEachIteration podInput
     then residualHistory l ++ [residualsAndPartials.1] else residualHistory l) ∧
  parameterHistory l1
  = (if getSaveResidualsAndParametersFromEachIteration podInput
     then (if numberOfIterations l =? 0
           then parameterHistory l ++ [newParameterEstimate l]
           else parameterHistory l) ++ [newParameterEstimate l1]
     else parameterHistory l).
Proof. done. Qed.


(** The loop returns from an iteration that was started in a state with the
    property. *)
Lemma estimationLoop_returns_from (I : OrbitDeterminationManager → Locals → Prop)
    (fuel : nat) podInput c (P total : Z) l this this' l' :
  (∀ l this l1, I this l →
     iteration podInput P total l this = (reintegrate podInput l this, Returns l1) →
     I (reintegrate podInput l this) l1) →
  I this l →
  estimationLoop fuel podInput c P total l this = Some (this', Returns l') →
  ∃ before thisBefore,
    I thisBefore before ∧
    this' = reintegrate podInput before thisBefore ∧
    iteration podInput P total before thisBefore = (this', Returns l').
Proof.
  intros Hstep. revert l this.
  induction fuel as [|fuel IH]; intros l this Hl; simpl; [done|].
  destruct (iteration podInput P total l this) as [this1 [l1|f]] eqn:Hit; [|done].
  destruct (iteration_returns_ready _ _ _ _ _ _ _ Hit) as [-> _].
  destruct (isEstimationConverged c (numberOfIterations l1) (rmsResidualHistory l1)).
  - intros [= <- <-]. eauto.
  - apply IH. by apply Hstep.
Qed.


(** *** What a run returns *)





End Runs.

(** *** The iterations of a run and the result it returns *)

Section RunTrace.
Context {Sc : Scalar} {Ext : External}.
Implicit Types (podInput : PodInput) (l : Locals) (this : OrbitDeterminationManager)
  (c : EstimationConvergenceChecker Sc).

Lemma iterated_S (n : nat) podInput (P total : Z) l0 this0 this l l1 :
  iterated n podInput P total l0 this0 = Some (this, l) →
  iteration podInput P total l this = (reintegrate podInput l this, Returns l1) →
  iterated (S n) podInput P total l0 this0 = Some (reintegrate podInput l this, l1).
Proof. intros Hn Hit. simpl. by rewrite Hn, Hit. Qed.

(** A property of the local variables that every iteration keeps holds in
    every state that iterations lead to. *)
Lemma iterated_invariant (I : Locals → Prop) (n : nat) podInput (P total : Z) l0 this0 this l :
  (∀ l this l1 this1, I l → iteration podInput P total l this = (this1, Returns l1) → I l1) →
  I l0 → iterated n podInput P total l0 this0 = Some (this, l) → I l.
Proof.
  intros Hstep H0. revert this l. induction n as [|n IH]; intros this l; simpl.
  - by intros [= <- <-].
  - destruct (iterated n podInput P total l0 this0) as [[this1 l1]|]; [|done].
    destruct (iteration podInput P total l1 this1) as [this2 [l2|f]] eqn:Hit; [|done].
    intros [= <- <-]. exact (Hstep l1 this1 l2 this2 (IH this1 l1 eq_refl) Hit).
Qed.

Lemma bestSnapshot_all_fields l l1 :
  bestSnapshot l1 = bestSnapshot l →
  bestResidual l1 = bestResidual l ∧ makePodOutput l1 =
    {| parameterEstimate_ := bestParameterEstimate l;
       residuals_ := bestResiduals l;
       normalizedInformationMatrix_ := bestInformationMatrix l;
       weightsMatrixDiagonal_ := bestWeightsMatrixDiagonal l;
       informationMatrixTransformationDiagonal_ := bestTransformationData l;
       inverseNormalizedCovarianceMatrix_ := bestInverseNormalizedCovarianceMatrix l;
       residualStandardDeviation_ := bestResidual l;
       residualHistory_ := residualHistory l1;
       parameterHistory_ := parameterHistory l1 |}.
Proof.
  unfold bestSnapshot, makePodOutput. intros [= -> -> -> -> -> -> ->]. done.
Qed.

Lemma output_of_iteration_kept podInput (P : Z) before rp l l1 :
  bestSnapshot l1 = bestSnapshot l →
  output_of_iteration podInput P before rp (makePodOutput l) →
  output_of_iteration podInput P before rp (makePodOutput l1).
Proof.
  intros [_ ->]%bestSnapshot_all_fields. done.
Qed.

(** An iteration whose RMS is below the best one so far leaves its results in
    the best-iterate variables. *)
Lemma finishIteration_output podInput (P : Z) l histories
    (rp : list double * list (list double)) :
  dlt (getVectorEntryRootMeanSquare rp.1) (bestResidual l) = true →
  output_of_iteration podInput P l rp (makePodOutput (finishIteration podInput P l histories rp)).
Proof.
  intros Hlt. unfold output_of_iteration. simpl. rewrite Hlt. simpl.
  repeat split; try done. by intros ->.
Qed.

(** An iteration that returns takes a traced state to a traced state. *)
Lemma run_traced_step podInput (P total : Z) l0 this0 this l l1 :
  rmsResidualHistory l0 = [] →
  run_traced podInput P total l0 this0 this l →
  iteration podInput P total l this = (reintegrate podInput l this, Returns l1) →
  run_traced podInput P total l0 this0 (reintegrate podInput l this) l1.
Proof.
  intros Hh0 (n & Hn & Hcount & Hlen & Hhist & Hbest) Hit.
  pose proof (iterated_S n podInput P total l0 this0 this l l1 Hn Hit) as HSn.
  destruct (iteration_returns _ _ _ _ _ _ _ Hit) as (histories & rp & Hcalc & ->).
  destruct (finishIteration_snapshot podInput P l histories rp) as (Hh & Hnew & Hkeep & Hrepl).
  destruct (finishIteration_histories podInput P l histories rp) as (Hnum & _).
  set (l1 := finishIteration podInput P l histories rp) in *.
  set (rms := getVectorEntryRootMeanSquare rp.1) in *.
  assert (Hthis : iteration_calculates podInput P total l0 this0 n (this, l) rp) by done.
  exists (S n). split; [done|]. split; [lia|].
  split; [rewrite Hh, length_app; simpl; lia|]. split.
  - (* the recorded RMS *)
    intros k r Hk. rewrite Hh in Hk |- *.
    destruct (decide (k < n)%nat) as [Hlt|Hge].
    + rewrite lookup_app_l in Hk by lia.
      destruct (Hhist k r Hk) as (started & rp' & ? & ? & Hpre & ->).
      exists started, rp'. rewrite take_app_le by lia. done.
    + rewrite lookup_app_r in Hk by lia.
      destruct (k - length (rmsResidualHistory l))%nat as [|d] eqn:Hd; [|by destruct d].
      injection Hk as <-. assert (k = n) as -> by lia.
      exists (this, l), rp. rewrite <- Hlen at 3. rewrite take_app_length. done.
  - (* the best-iterate variables *)
    destruct (dlt rms (bestResidual l)) eqn:Hlt.
    + right. destruct (Hrepl eq_refl) as (Hb & Hpar & Hres & Htrans & Hw & Hinv).
      exists n, (this, l), rp. split; [done|]. split; [done|].
      split; [by rewrite Hh, <- Hlen, take_app_length|].
      split; [rewrite Hb, Hh, <- Hlen; apply list_lookup_middle; done|].
      split; [by rewrite Hb|]. split.
      * by apply finishIteration_output.
      * intros j r Hj Hr. apply lookup_lt_Some in Hr.
        rewrite Hh, length_app in Hr. simpl in Hr. lia.
    + specialize (Hkeep eq_refl).
      destruct (bestSnapshot_all_fields _ _ Hkeep) as [Hb _].
      destruct Hbest as [[Hall Hsame] | (k & started & rp' & Hk & Hnk & Hpre & Hat & Hbelow & Hout & Hlater)].
      * left. split; [|by rewrite Hkeep].
        intros r. rewrite Hh. intros [Hr | ->%list_elem_of_singleton]%elem_of_app;
          [by apply Hall|].
        apply (f_equal (λ s, s.1.1.1.1.1.1)) in Hsame. simpl in Hsame. by rewrite <- Hsame.
      * right. exists k, started, rp'.
        assert (Hkn : (k < n)%nat) by (apply lookup_lt_Some in Hat; lia).
        split; [done|]. split; [done|].
        split; [by rewrite Hh, take_app_le by lia|].
        split; [rewrite Hb, Hh; by apply lookup_app_l_Some|].
        split; [by rewrite Hb|].
        split; [by apply (output_of_iteration_kept podInput P started.2 rp' l)|].
        intros j r Hj. rewrite Hh, Hb. intros Hr.
        destruct (decide (j < n)%nat) as [Hjn|Hjn].
        -- rewrite lookup_app_l in Hr by lia. by eapply Hlater.
        -- rewrite lookup_app_r in Hr by lia.
           destruct (j - length (rmsResidualHistory l))%nat as [|d]; [|by destruct d].
           by injection Hr as <-.
Qed.

(** When the loop returns, it has run one iteration at least, and its last
    state is traced. *)
Lemma estimationLoop_traced (fuel : nat) podInput c (P total : Z) l0 this0 this' l' :
  rmsResidualHistory l0 = [] →
  estimationLoop fuel podInput c P total l0 this0 = Some (this', Returns l') →
  run_traced podInput P total l0 this0 this' l' ∧ rmsResidualHistory l' ≠ [].
Proof.
  intros Hh0 Hloop.
  apply (estimationLoop_returns_from (run_traced podInput P total l0 this0)) in Hloop
    as (before & thisBefore & Hbefore & -> & Hit).
  - split; [by apply run_traced_step|].
    destruct (iteration_counts _ _ _ _ _ _ _ Hit) as [_ Hrows].
    intros Hnil. rewrite Hnil in Hrows. pose proof (rows_nonneg (rmsResidualHistory before)).
    change (rows []) with 0 in Hrows. lia.
  - intros l this l1. by apply run_traced_step.
  - exists 0%nat. rewrite Hh0. simpl. split; [done|]. split; [lia|]. split; [done|].
    split; [intros k r Hk; by destruct k|]. left. split; [|done].
    intros r Hr. by apply not_elem_of_nil in Hr.
Qed.

End RunTrace.

Section ReturnedResult.
Context {Sc : Scalar} {Ext : External}.
Implicit Types (podInput : PodInput) (l : Locals) (this : OrbitDeterminationManager)
  (c : EstimationConvergenceChecker Sc).

Lemma iteration_calculates_unique podInput (P total : Z) l0 this0 (k : nat) started started'
    (rp rp' : list double * list (list double)) :
  iteration_calculates podInput P total l0 this0 k started rp →
  iteration_calculates podInput P total l0 this0 k started' rp' →
  started = started' ∧ rp = rp'.
Proof.
  intros [Hk Hcalc] [Hk' Hcalc']. rewrite Hk in Hk'. injection Hk' as <-.
  rewrite Hcalc in Hcalc'. by injection Hcalc' as <-.
Qed.

(** What the loop is entered with. *)
Lemma enterEstimation_locals podInput this :
  let entered := enterEstimation podInput this in
  rmsResidualHistory entered.2.2 = [] ∧
  numberOfIterations entered.2.2 = 0 ∧
  bestResidual entered.2.2 = numeric_limits_max ∧
  initial_output entered.2.1.1 entered.2.1.2 (makePodOutput entered.2.2).
Proof. done. Qed.

Lemma initial_output_kept (P total : Z) l0 l :
  bestSnapshot l = bestSnapshot l0 →
  initial_output P total (makePodOutput l0) → initial_output P total (makePodOutput l).
Proof. intros [_ ->]%bestSnapshot_all_fields. done. Qed.

(** The run of [estimateParameters] up to the end of the loop, traced. *)
Lemma estimationRun_traced (fuel : nat) podInput c this this' l' :
  estimationRun fuel podInput c this = Some (this', Returns l') →
  let entered := enterEstimation podInput this in
  run_traced podInput entered.2.1.1 entered.2.1.2 entered.2.2 entered.1 this' l' ∧
  rmsResidualHistory l' ≠ [].
Proof.
  intros Hrun. cbv zeta.
  destruct (enterEstimation_locals podInput this) as (Hh0 & _).
  unfold estimationRun in Hrun.
  destruct (enterEstimation podInput this) as [this0 [[P total] l0]]. simpl in *.
  by apply (estimationLoop_traced fuel podInput c).
Qed.

(** C10, as the code has it.  When [estimateParameters] returns, either no
    iteration had an RMS below the largest double and the output holds the
    initial values, or the output holds the results of one iteration of the
    run, the last one whose RMS was below the best one so far: the residuals
    of the output are those this iteration calculated, in the manager that
    [reintegrate] left, and the parameter estimate of the output is the
    estimate with which the iteration was started plus the correction it
    computed from these residuals.  When the iteration re-propagated (every
    iteration but the first, and the first with
    [getReintegrateEquationsOnFirstIteration]) the manager was reset to the
    estimate with which the iteration was started, so that the residuals are
    those of this estimate; in a first iteration that does not re-propagate, the
    manager is as [estimateParameters] found it, with the values of the
    parameter set, while the iteration is started with these values plus the
    initial deviation.  In both cases the estimate of the output is the one
    that the manager held when the residuals were calculated exactly when what
    was added to it since has left it unchanged. *)
Theorem best_snapshot_estimate_and_residuals (fuel : nat) podInput c this this'
    (output : PodOutput) :
  estimateParameters fuel podInput c this = Some (this', Returns output) →
  let entered := enterEstimation podInput this in
  let this0 := entered.1 in
  let P := entered.2.1.1 in
  let total := entered.2.1.2 in
  let l0 := entered.2.2 in
  ∃ (n : nat) (l' : Locals),
    (1 <= n)%nat ∧
    iterated n podInput P total l0 this0 = Some (this', l') ∧
    output = makePodOutput l' ∧
    ((∀ (k : nat) started rp, (k < n)%nat →
        iteration_calculates podInput P total l0 this0 k started rp →
        dlt (getVectorEntryRootMeanSquare rp.1) numeric_limits_max = false) ∧
     initial_output P total output
     ∨ ∃ (k : nat) thisBefore before residualsAndPartials,
         let calculatedIn := reintegrate podInput before thisBefore in
         let correction := computeCorrection podInput P residualsAndPartials in
         (k < n)%nat ∧
         iterated k podInput P total l0 this0 = Some (thisBefore, before) ∧
         numberOfIterations before = Z.of_nat k ∧
         calculateObservationMatrixAndResiduals (getObservationsAndTimes podInput) P total
           calculatedIn = (calculatedIn, Returns residualsAndPartials) ∧
         dlt (getVectorEntryRootMeanSquare residualsAndPartials.1) (bestResidual before)
         = true ∧
         (∀ (j : nat) started later, (k < j < n)%nat →
            iteration_calculates podInput P total l0 this0 j started later →
            dlt (getVectorEntryRootMeanSquare later.1)
                (getVectorEntryRootMeanSquare residualsAndPartials.1) = false) ∧
         residualStandardDeviation_ output
         = getVectorEntryRootMeanSquare residualsAndPartials.1 ∧
         residuals_ output = residualsAndPartials.1 ∧
         parameterEstimate_ output
         = vadd (newParameterEstimate before) (parameterAddition correction) ∧
         ((0 < k)%nat ∨ getReintegrateEquationsOnFirstIteration podInput = true →
            calculatedIn
            = resetParameterEstimate (newParameterEstimate before)
                (getReintegrateVariationalEquations podInput) thisBefore ∧
            getCurrentParameterEstimate calculatedIn = newParameterEstimate before ∧
            (parameterEstimate_ output = getCurrentParameterEstimate calculatedIn ↔
             vadd (newParameterEstimate before) (parameterAddition correction)
             = newParameterEstimate before)) ∧
         (k = 0%nat → getReintegrateEquationsOnFirstIteration podInput = false →
            calculatedIn = this0 ∧
            environment calculatedIn = environment this ∧
            getCurrentParameterEstimate calculatedIn
            = getFullParameterValues (environment this) ∧
            newParameterEstimate before
            = vadd (getFullParameterValues (environment this))
                   (getInitialParameterDeviationEstimate podInput) ∧
            (parameterEstimate_ output = getCurrentParameterEstimate calculatedIn ↔
             vadd (vadd (getFullParameterValues (environment this))
                        (getInitialParameterDeviationEstimate podInput))
                  (parameterAddition correction)
             = getFullParameterValues (environment this)))).
Proof.
  intros Hrun entered this0 P total l0.
  unfold estimateParameters in Hrun.
  destruct (estimationRun fuel podInput c this) as [[this1 [l'|f]]|] eqn:Hloop; [|done..].
  injection Hrun as <- <-.
  destruct (estimationRun_traced _ _ _ _ _ _ Hloop) as [Htraced Hne].
  fold entered in Htraced. fold this0 P total l0 in Htraced.
  destruct (enterEstimation_locals podInput this) as (Hh0 & Hn0 & Hb0 & Hinit).
  fold entered in Hh0, Hn0, Hb0, Hinit. fold P total l0 in Hh0, Hn0, Hb0, Hinit.
  destruct (enterEstimation_frame podInput this) as (_ & _ & He & Hc & _ & Hnew).
  fold entered in He, Hc, Hnew. fold this0 l0 in He, Hc, Hnew.
  destruct Htraced as (n & Hn & Hcount & Hlen & Hhist & Hbest).
  exists n, l'. split.
  { destruct (rmsResidualHistory l'); [done | simpl in Hlen; lia]. }
  split; [done|]. split; [done|].
  destruct Hbest as [[Hall Hsame] | (k & [thisBefore before] & rp & Hk & Hnk & _ & Hat & Hbelow & Hout & Hlater)].
  - left. split; [|by apply (initial_output_kept P total l0)].
    intros k started rp Hkn Hcalc.
    destruct (lookup_lt_is_Some_2 (rmsResidualHistory l') k) as [r Hr]; [lia|].
    destruct (Hhist k r Hr) as (started' & rp' & Hcalc' & _ & _ & ->).
    destruct (iteration_calculates_unique _ _ _ _ _ _ _ _ _ _ Hcalc Hcalc') as [_ ->].
    rewrite <- Hb0. apply Hall. by eapply list_elem_of_lookup_2.
  - right. exists k, thisBefore, before, rp. simpl in *.
    destruct Hk as [Hk Hcalc]. simpl in Hcalc.
    destruct Hout as (Hrms & Hres & Hpar & _).
    assert (Hkn : (k < n)%nat) by (apply lookup_lt_Some in Hat; lia).
    split; [done|]. split; [done|]. split; [lia|]. split; [done|].
    split; [by rewrite <- Hrms|].
    split.
    { intros j started later [Hkj Hjn] Hcalcj.
      destruct (lookup_lt_is_Some_2 (rmsResidualHistory l') j) as [r Hr]; [lia|].
      destruct (Hhist j r Hr) as (started' & later' & Hcalc' & _ & _ & ->).
      destruct (iteration_calculates_unique _ _ _ _ _ _ _ _ _ _ Hcalcj Hcalc') as [_ ->].
      rewrite <- Hrms. by apply (Hlater j). }
    split; [done|]. split; [done|]. split; [done|].
    split.
    + intros Hre. unfold reintegrate.
      assert ((numberOfIterations before >? 0)
              || getReintegrateEquationsOnFirstIteration podInput = true) as ->.
      { destruct Hre as [Hpos | ->]; [|by rewrite orb_true_r].
        destruct (Z.gtb_spec (numberOfIterations before) 0); [done | lia]. }
      split; [done|]. split; [done|].
      cbn [parameterEstimate_ makePodOutput] in Hpar. by rewrite Hpar.
    + intros -> Hflag. simpl in Hk. injection Hk as <- <-.
      unfold reintegrate. rewrite Hflag. simpl.
      split; [done|]. split; [done|]. split; [done|]. split; [done|].
      cbn [parameterEstimate_ makePodOutput] in Hpar. by rewrite Hpar.
Qed.

End ReturnedResult.

(** *** The best iterate on doubles *)

Section BestIterateOnDoubles.
Local Existing Instance binary64.
Context {Ext : @External binary64}.
Implicit Types (podInput : PodInput) (l : Locals) (this : OrbitDeterminationManager)
  (c : EstimationConvergenceChecker binary64).

(** Between the iterations the best residual is a number, not above the
    largest double, and no recorded RMS is below it. *)
Lemma best_residual_order_kept podInput (P total : Z) l this this1 l1 :
  is_nan (bestResidual l) = false ∧
  PrimFloat.leb (bestResidual l) numeric_limits_max = true ∧
  (∀ r, r ∈ rmsResidualHistory l → PrimFloat.ltb r (bestResidual l) = false) →
  iteration podInput P total l this = (this1, Returns l1) →
  is_nan (bestResidual l1) = false ∧
  PrimFloat.leb (bestResidual l1) numeric_limits_max = true ∧
  (∀ r, r ∈ rmsResidualHistory l1 → PrimFloat.ltb r (bestResidual l1) = false).
Proof.
  intros (Hnan & Hmax & Hall) (histories & rp & _ & ->)%iteration_returns.
  destruct (finishIteration_snapshot podInput P l histories rp) as (Hh & _).
  rewrite finishIteration_bestResidual, Hh.
  set (rms := getVectorEntryRootMeanSquare rp.1).
  change (dlt rms (bestResidual l)) with (PrimFloat.ltb rms (bestResidual l)).
  destruct (PrimFloat.ltb rms (bestResidual l)) eqn:Hlt.
  - split; [by apply ltb_true in Hlt as (? & _)|].
    split; [by apply ltb_leb, (ltb_leb_trans _ (bestResidual l))|].
    intros r [Hr | ->%list_elem_of_singleton]%elem_of_app; [|apply ltb_irrefl].
    destruct (PrimFloat.ltb r rms) eqn:Hr_lt; [|done].
    rewrite <- (Hall r Hr). symmetry. by apply (ltb_trans _ rms).
  - split; [done|]. split; [done|].
    intros r [Hr | ->%list_elem_of_singleton]%elem_of_app; [by apply Hall | done].
Qed.

(** C3, as the code has it on doubles.  When [estimateParameters] returns,
    the output is made of the best-iterate variables of the run.  The run has
    recorded the RMS of the residuals of each of its iterations, one at least.
    None of them is below the RMS of the output, which is at most each of
    them that is not a NaN.  If one of them is below the largest double, the
    output holds the results of one iteration of the run, the first one with
    the lowest RMS: its RMS and its residuals, the estimate after its update
    and what its least-squares adjustment returned; no earlier iteration had an
    RMS as low.  If none is (each is a NaN, an infinity or the largest
    double), the output holds the initial values, and not the results of an
    iteration.  An iteration replaces the best-iterate variables by its own
    results when its RMS is strictly below the best one so far, and leaves
    them as they are otherwise. *)
Theorem estimateParameters_returns_best (fuel : nat) podInput c this this' (output : PodOutput) :
  estimateParameters fuel podInput c this = Some (this', Returns output) →
  let entered := enterEstimation podInput this in
  let this0 := entered.1 in
  let P := entered.2.1.1 in
  let total := entered.2.1.2 in
  let l0 := entered.2.2 in
  (∃ l' : Locals,
     estimationRun fuel podInput c this = Some (this', Returns l') ∧
     output = makePodOutput l' ∧
     rmsResidualHistory l' ≠ [] ∧
     rows (rmsResidualHistory l') = numberOfIterations l' ∧
     (∀ (k : nat) r, rmsResidualHistory l' !! k = Some r →
        ∃ started rp,
          iteration_calculates podInput P total l0 this0 k started rp ∧
          r = getVectorEntryRootMeanSquare rp.1) ∧
     (∀ r, r ∈ rmsResidualHistory l' →
        PrimFloat.ltb r (residualStandardDeviation_ output) = false ∧
        (is_nan r = false → PrimFloat.leb (residualStandardDeviation_ output) r = true)) ∧
     ((∃ r, r ∈ rmsResidualHistory l' ∧ PrimFloat.ltb r numeric_limits_max = true) ∧
      (∃ (k : nat) started rp,
         iteration_calculates podInput P total l0 this0 k started rp ∧
         rmsResidualHistory l' !! k = Some (residualStandardDeviation_ output) ∧
         output_of_iteration podInput P started.2 rp output ∧
         ∀ (j : nat) r, (j < k)%nat → rmsResidualHistory l' !! j = Some r →
           PrimFloat.leb r (residualStandardDeviation_ output) = false)
      ∨ (∀ r, r ∈ rmsResidualHistory l' → PrimFloat.ltb r numeric_limits_max = false) ∧
        initial_output P total output)) ∧
  (∀ (P total : Z) l this1 this2 l1,
     iteration podInput P total l this1 = (this2, Returns l1) →
     ∃ rp,
       calculateObservationMatrixAndResiduals (getObservationsAndTimes podInput) P total
         (reintegrate podInput l this1) = (this2, Returns rp) ∧
       last (rmsResidualHistory l1) = Some (getVectorEntryRootMeanSquare rp.1) ∧
       (PrimFloat.ltb (getVectorEntryRootMeanSquare rp.1) (bestResidual l) = false →
          bestSnapshot l1 = bestSnapshot l) ∧
       (PrimFloat.ltb (getVectorEntryRootMeanSquare rp.1) (bestResidual l) = true →
          output_of_iteration podInput P l rp (makePodOutput l1))).
Proof.
  intros Hrun entered this0 P total l0. split.
  - unfold estimateParameters in Hrun.
    destruct (estimationRun fuel podInput c this) as [[this1 [l'|f]]|] eqn:Hloop; [|done..].
    injection Hrun as <- <-. exists l'. split; [done|]. split; [done|].
    destruct (estimationRun_traced _ _ _ _ _ _ Hloop) as [Htraced Hne].
    fold entered in Htraced. fold this0 P total l0 in Htraced.
    destruct (enterEstimation_locals podInput this) as (Hh0 & Hn0 & Hb0 & Hinit).
    fold entered in Hh0, Hn0, Hb0, Hinit. fold P total l0 in Hh0, Hn0, Hb0, Hinit.
    (* the order of the best residual and the recorded ones *)
    set (ordered := λ l : @Locals binary64 Ext,
           is_nan (bestResidual l) = false ∧
           PrimFloat.leb (bestResidual l) (@numeric_limits_max binary64) = true ∧
           (∀ r, r ∈ rmsResidualHistory l → PrimFloat.ltb r (bestResidual l) = false)).
    assert (Hord0 : ordered l0).
    { unfold ordered. rewrite Hb0, Hh0. split; [reflexivity|]. split; [reflexivity|].
      intros r Hr. by apply not_elem_of_nil in Hr. }
    assert (Hstep : ∀ l thisA l1 thisB, ordered l →
              iteration podInput P total l thisA = (thisB, Returns l1) → ordered l1).
    { intros l thisA l1 thisB Hl Hit. by eapply best_residual_order_kept. }
    destruct Htraced as (n & Hn & Hcount & Hlen & Hhist & Hbest).
    pose proof (iterated_invariant ordered n podInput P total l0 this0 this1 l' Hstep Hord0 Hn)
      as (Hnan & Hmax & Hall).
    split; [done|]. split; [unfold rows; lia|]. split.
    { intros k r Hk. destruct (Hhist k r Hk) as (started & rp & ? & _ & _ & ?). eauto. }
    split.
    { intros r Hr. simpl. split; [by apply Hall|].
      intros Hr_nan. apply not_ltb_leb; [done | done | by apply Hall]. }
    destruct Hbest as [[Hnone Hsame] | (k & started & rp & Hk & Hnk & Hpre & Hat & Hbelow & Hout & _)].
    + right. split; [by rewrite <- Hb0|]. by apply (initial_output_kept P total l0).
    + left. destruct started as [thisBefore before].
      pose proof (iterated_invariant ordered k podInput P total l0 this0 thisBefore before
                    Hstep Hord0 (proj1 Hk)) as (_ & Hmax_k & Hall_k).
      simpl in Hpre, Hbelow.
      change (dlt (bestResidual l') (bestResidual before))
        with (PrimFloat.ltb (bestResidual l') (bestResidual before)) in Hbelow.
      split.
      { exists (bestResidual l'). split; [by eapply list_elem_of_lookup_2|].
        by apply (ltb_leb_trans _ (bestResidual before)). }
      exists k, (thisBefore, before), rp. split; [done|]. split; [done|]. split; [done|].
      intros j r Hj Hr. simpl.
      destruct (PrimFloat.leb r (bestResidual l')) eqn:Hle; [|done].
      rewrite <- (Hall_k r).
      * symmetry. by apply (leb_ltb_trans _ (bestResidual l')).
      * rewrite Hpre. apply (list_elem_of_lookup_2 _ j). rewrite lookup_take_lt by done. done.
  - intros P' total' l this1 this2 l1 Hit.
    destruct (iteration_returns _ _ _ _ _ _ _ Hit) as (histories & rp & Hcalc & ->).
    destruct (finishIteration_snapshot podInput P' l histories rp) as (Hh & Hnew & Hkeep & Hrepl).
    exists rp. split; [done|]. split; [rewrite Hh; apply last_snoc|]. split; [done|].
    intros Hlt. by apply finishIteration_output.
Qed.

End BestIterateOnDoubles.

(** *** Where the loop stops *)

Section Stopping.
Context {Sc : Scalar} {Ext : External}.
Implicit Types (podInput : PodInput) (l : Locals) (this : OrbitDeterminationManager)
  (c : EstimationConvergenceChecker Sc).

Lemma estimationLoop_stops_at_first (fuel : nat) podInput c (P total : Z) l this this' l' :
  not_converged_so_far c l →
  estimationLoop fuel podInput c P total l this = Some (this', Returns l') →
  isEstimationConverged c (numberOfIterations l') (rmsResidualHistory l') = true ∧
  rows (rmsResidualHistory l') = numberOfIterations l' ∧
  ∀ k : nat, (0 < k)%nat → Z.of_nat k < numberOfIterations l' →
    isEstimationConverged c (Z.of_nat k) (take k (rmsResidualHistory l')) = false.
Proof.
  revert l this. induction fuel as [|fuel IH]; intros l this [Hrows Hnot]; simpl; [done|].
  destruct (iteration podInput P total l this) as [this1 [l1|f]] eqn:Hit; [|done].
  destruct (iteration_counts _ _ _ _ _ _ _ Hit) as [Hn1 Hrows1].
  destruct (iteration_returns _ _ _ _ _ _ _ Hit) as (histories & rp & _ & Hl1).
  assert (Hh : rmsResidualHistory l1
               = rmsResidualHistory l ++ [getVectorEntryRootMeanSquare rp.1])
    by (by rewrite Hl1).
  assert (Hearlier : ∀ k : nat, (0 < k)%nat → Z.of_nat k < numberOfIterations l1 →
            isEstimationConverged c (Z.of_nat k) (take k (rmsResidualHistory l1)) = false).
  { intros k Hk Hlt. rewrite Hh, take_app_le by (unfold rows in Hrows; lia).
    apply Hnot; [done | lia]. }
  destruct (isEstimationConverged c (numberOfIterations l1) (rmsResidualHistory l1)) eqn:Hc.
  - intros [= <- <-]. split; [done|]. split; [lia | done].
  - apply IH. split; [lia|]. intros k Hk Hle.
    destruct (decide (Z.of_nat k < numberOfIterations l1)) as [Hlt|Hge]; [by apply Hearlier|].
    assert (Heq : Z.of_nat k = numberOfIterations l1) by lia.
    rewrite Heq, take_ge; [done|]. unfold rows in *. lia.
Qed.

(** X24.  The loop stops after the first iteration after which the check
    succeeds: when the run returns, the check on the number of iterations and
    the recorded RMS values is true, and after each iteration before, on the
    iterations and the RMS values up to it, it was false. *)
Theorem estimationRun_stops_at_first_convergence (fuel : nat) podInput c this this' l' :
  estimationRun fuel podInput c this = Some (this', Returns l') →
  isEstimationConverged c (numberOfIterations l') (rmsResidualHistory l') = true ∧
  rows (rmsResidualHistory l') = numberOfIterations l' ∧
  ∀ k : nat, (0 < k)%nat → Z.of_nat k < numberOfIterations l' →
    isEstimationConverged c (Z.of_nat k) (take k (rmsResidualHistory l')) = false.
Proof.
  unfold estimationRun.
  destruct (enterEstimation podInput this) as [this0 [[P total] l0]] eqn:Henter.
  assert (Hl0 : numberOfIterations l0 = 0 ∧ rmsResidualHistory l0 = []).
  { unfold enterEstimation in Henter. by injection Henter as <- <- <- <-. }
  destruct Hl0 as [Hn0 Hh0].
  apply estimationLoop_stops_at_first. split.
  - by rewrite Hn0, Hh0.
  - intros k Hk Hle. lia.
Qed.

Lemma isEstimationConverged_without_improvement c c' (n : Z) (history : list double) :
  same_but_without_improvement c c' →
  checker_representable c → checker_representable c' →
  history ≠ [] → rows history <= 2 ^ 64 - 2 ^ 32 →
  isEstimationConverged c n history = isEstimationConverged c' n history.
Proof.
  intros (Hmax & Hchange & Hres) Hrep Hrep' Hne Hlen.
  rewrite !isEstimationConverged_tests.
  rewrite !tooManyIterationsWithoutImprovement_false by done.
  unfold maximumIterationsReached, residualLevelAchieved, residualChangeBelowMinimum.
  by rewrite Hmax, Hchange, Hres.
Qed.

Lemma estimationLoop_without_improvement (fuel : nat) podInput c c' (P total : Z) l this :
  same_but_without_improvement c c' →
  checker_representable c → checker_representable c' →
  rows (rmsResidualHistory l) + Z.of_nat fuel <= 2 ^ 64 - 2 ^ 32 →
  estimationLoop fuel podInput c P total l this
  = estimationLoop fuel podInput c' P total l this.
Proof.
  intros Hsame Hrep Hrep'. revert l this.
  induction fuel as [|fuel IH]; intros l this Hlen; simpl; [done|].
  destruct (iteration podInput P total l this) as [this1 [l1|f]] eqn:Hit; [|done].
  destruct (iteration_counts _ _ _ _ _ _ _ Hit) as [_ Hrows1].
  destruct (iteration_returns _ _ _ _ _ _ _ Hit) as (histories & rp & _ & Hl1).
  assert (Hne : rmsResidualHistory l1 ≠ []).
  { rewrite Hl1. simpl. by destruct (rmsResidualHistory l). }
  rewrite (isEstimationConverged_without_improvement c c') by (done || lia).
  rewrite IH by lia. done.
Qed.

(** X25.  [numberOfIterationsWithoutImprovement_] has no effect on
    [estimateParameters]: with two checkers that differ in this member only,
    both holding values of their types, the run ends in the same way, with the
    same output and the same manager. *)
Theorem iterations_without_improvement_have_no_effect (fuel : nat) podInput c c' this :
  same_but_without_improvement c c' →
  checker_representable c → checker_representable c' →
  Z.of_nat fuel <= 2 ^ 64 - 2 ^ 32 →
  estimateParameters fuel podInput c this = estimateParameters fuel podInput c' this.
Proof.
  intros Hsame Hrep Hrep' Hfuel. unfold estimateParameters, estimationRun.
  destruct (enterEstimation podInput this) as [this0 [[P total] l0]] eqn:Henter.
  assert (Hh0 : rmsResidualHistory l0 = []).
  { unfold enterEstimation in Henter. by injection Henter as <- <- <- <-. }
  rewrite (estimationLoop_without_improvement fuel podInput c c'); [done..|].
  rewrite Hh0. change (rows []) with 0. lia.
Qed.

End Stopping.

(** *** The state histories of the iterations *)

Section StateHistory.
Context {Sc : Scalar} {Ext : External}.
Implicit Types (podInput : PodInput) (l : Locals) (this : OrbitDeterminationManager)
  (c : EstimationConvergenceChecker Sc).

Lemma finishIteration_withoutStateHistory podInput (flag flag' : bool) (P : Z) l l'
    histories histories' (rp : list double * list (list double)) :
  withoutStateHistory l = withoutStateHistory l' →
  withoutStateHistory (finishIteration (withSaveStateHistory flag podInput) P l histories rp)
  = withoutStateHistory (finishIteration (withSaveStateHistory flag' podInput) P l' histories' rp).
Proof.
  destruct l, l'. unfold withoutStateHistory. simpl. intros [= -> -> -> -> -> -> -> -> -> -> -> -> ->].
  reflexivity.
Qed.

Lemma reintegrate_withoutStateHistory podInput (flag flag' : bool) l l' this :
  withoutStateHistory l = withoutStateHistory l' →
  reintegrate (withSaveStateHistory flag podInput) l this
  = reintegrate (withSaveStateHistory flag' podInput) l' this.
Proof.
  destruct l, l'. unfold withoutStateHistory, reintegrate. simpl.
  intros [= -> -> -> -> -> -> -> -> -> -> -> -> ->]. reflexivity.
Qed.

Lemma makePodOutput_withoutStateHistory l l' :
  withoutStateHistory l = withoutStateHistory l' → makePodOutput l = makePodOutput l'.
Proof.
  destruct l, l'. unfold withoutStateHistory, makePodOutput. simpl.
  intros [= -> -> -> -> -> -> -> -> -> -> -> -> ->]. reflexivity.
Qed.

Lemma estimationLoop_withoutStateHistory (fuel : nat) podInput c (P total : Z) l l' this :
  integrateAndEstimateOrbit_ this = true →
  withoutStateHistory l = withoutStateHistory l' →
  match estimationLoop fuel (withSaveStateHistory true podInput) c P total l this,
        estimationLoop fuel (withSaveStateHistory false podInput) c P total l' this with
  | Some (this1, Returns l1), Some (this1', Returns l1') =>
      this1 = this1' ∧ withoutStateHistory l1 = withoutStateHistory l1'
  | Some (this1, Fails f), Some (this1', Fails f') => this1 = this1' ∧ f = f'
  | None, None => True
  | _, _ => False
  end.
Proof.
  revert l l' this. induction fuel as [|fuel IH]; intros l l' this Hint Hsame; simpl; [done|].
  unfold iteration, bind, ret. simpl.
  rewrite (reintegrate_withoutStateHistory podInput true false l l' this Hsame).
  destruct (reintegrate_frame (withSaveStateHistory false podInput) l' this) as [Hi _].
  set (this0 := reintegrate (withSaveStateHistory false podInput) l' this) in *.
  rewrite Hi, Hint.
  destruct (calculateObservationMatrixAndResiduals (getObservationsAndTimes podInput) P total
              this0) as [this1 [rp|f]] eqn:Hcalc; [|done].
  match goal with
  | |- context [isEstimationConverged c (numberOfIterations ?a) (rmsResidualHistory ?a)] =>
      set (l1 := a)
  end.
  match goal with
  | |- context [estimationLoop fuel (withSaveStateHistory false podInput) c P total ?b this1] =>
      set (l1' := b)
  end.
  assert (Hsame1 : withoutStateHistory l1 = withoutStateHistory l1').
  { subst l1 l1'. by apply finishIteration_withoutStateHistory. }
  assert (Hcheck : isEstimationConverged c (numberOfIterations l1) (rmsResidualHistory l1)
                   = isEstimationConverged c (numberOfIterations l1') (rmsResidualHistory l1')).
  { pose proof (f_equal numberOfIterations Hsame1) as Hn.
    pose proof (f_equal rmsResidualHistory Hsame1) as Hh.
    change (numberOfIterations l1 = numberOfIterations l1') in Hn.
    change (rmsResidualHistory l1 = rmsResidualHistory l1') in Hh. by rewrite Hn, Hh. }
  rewrite <- Hcheck.
  destruct (isEstimationConverged c (numberOfIterations l1) (rmsResidualHistory l1)); [done|].
  apply IH; [|done].
  unfold calculateObservationMatrixAndResiduals, bind in Hcalc.
  rewrite calculate_loops_flat in Hcalc.
  destruct (first_unregistered this0 (segments_of (getObservationsAndTimes podInput)))
    as [Hall | (pre & seg & post & Hsegs & Hpre & Hno)].
  - destruct (calculate_loop_returns this0 P (segments_of (getObservationsAndTimes podInput))
                (Zero total, MatrixZero total P, 0) Hall) as [state' Hret].
    rewrite Hret in Hcalc. unfold ret in Hcalc. injection Hcalc as <- _. by rewrite Hi.
  - rewrite Hsegs, calculate_loop_fails in Hcalc by done. discriminate.
Qed.

(** X26.  In a manager that estimates dynamics,
    [getSaveStateHistoryForEachIteration] has no effect on what
    [estimateParameters] returns nor on the manager it leaves: the state
    histories that the iterations save are not part of the output. *)
Theorem state_history_is_not_returned (fuel : nat) podInput c this :
  integrateAndEstimateOrbit_ this = true →
  estimateParameters fuel (withSaveStateHistory true podInput) c this
  = estimateParameters fuel (withSaveStateHistory false podInput) c this.
Proof.
  intros Hint. unfold estimateParameters, estimationRun.
  change (enterEstimation (withSaveStateHistory true podInput) this)
    with (enterEstimation (withSaveStateHistory false podInput) this).
  destruct (enterEstimation_frame (withSaveStateHistory false podInput) this) as (Hi & _).
  destruct (enterEstimation (withSaveStateHistory false podInput) this)
    as [this0 [[P total] l0]] eqn:Henter.
  simpl in Hi.
  assert (Hint0 : integrateAndEstimateOrbit_ this0 = true) by (by rewrite Hi).
  pose proof (estimationLoop_withoutStateHistory fuel podInput c P total l0 l0 this0
                Hint0 eq_refl) as Hloop.
  destruct (estimationLoop fuel (withSaveStateHistory true podInput) c P total l0 this0)
    as [[this1 [l1|f]]|],
    (estimationLoop fuel (withSaveStateHistory false podInput) c P total l0 this0)
    as [[this1' [l1'|f']]|]; try done.
  - destruct Hloop as [-> Hsame]. by rewrite (makePodOutput_withoutStateHistory _ _ Hsame).
  - by destruct Hloop as [-> ->].
Qed.

End StateHistory.

(** *** Residuals that are not numbers *)

Section RunsOnDoubles.
Local Existing Instance binary64.
Context {Ext : @External binary64}.
Implicit Types (podInput : PodInput) (l : Locals) (this : OrbitDeterminationManager)
  (c : EstimationConvergenceChecker binary64).

(** X20.  On doubles, the best RMS of a run that returns is not a NaN, and a
    run all of whose iterations have a NaN as RMS returns the best-iterate
    variables with which it started. *)
Theorem nan_residual_is_never_best (fuel : nat) podInput c this this' l' :
  estimationRun fuel podInput c this = Some (this', Returns l') →
  PrimFloat.is_nan (bestResidual l') = false ∧
  (Forall (λ r, PrimFloat.is_nan r = true) (rmsResidualHistory l') →
   bestSnapshot l' = bestSnapshot (enterEstimation podInput this).2.2).
Proof.
  unfold estimationRun.
  destruct (enterEstimation podInput this) as [this0 [[P total] l0]] eqn:Henter.
  assert (Hl0 : bestResidual l0 = numeric_limits_max ∧ rmsResidualHistory l0 = []).
  { unfold enterEstimation in Henter. by injection Henter as <- <- <- <-. }
  destruct Hl0 as [Hb0 Hh0]. simpl.
  apply (estimationLoop_invariant
           (λ l, PrimFloat.is_nan (bestResidual l) = false ∧
                 (Forall (λ r, PrimFloat.is_nan r = true) (rmsResidualHistory l) →
                  bestSnapshot l = bestSnapshot l0))).
  - intros l this1 this2 l1 [Hnan Hall] (histories & rp & _ & ->)%iteration_returns.
    destruct (finishIteration_snapshot podInput P l histories rp) as (Hh & _ & Hkeep & Hrepl).
    set (rms := getVectorEntryRootMeanSquare rp.1) in *.
    rewrite finishIteration_bestResidual, Hh. fold rms.
    destruct (PrimFloat.is_nan rms) eqn:Hrms.
    + pose proof (nan_not_below rms (bestResidual l) Hrms) as Hlt.
      change (dlt rms (bestResidual l)) with (PrimFloat.ltb rms (bestResidual l)) in *.
      rewrite Hlt. split; [done|].
      intros [Hbefore _]%Forall_app. rewrite (Hkeep Hlt). by apply Hall.
    + split.
      * by destruct (dlt rms (bestResidual l)).
      * intros [_ Hlast]%Forall_app. apply Forall_cons in Hlast as [Hlast _]. congruence.
  - rewrite Hb0, Hh0. split; [reflexivity | done].
Qed.

End RunsOnDoubles.

(** ** The constructor *)

Section ConstructorProperties.
Context {Sc : Scalar} {Ext : External} {Con : Construction}.

Lemma create_managers_loop (shared : Environment)
    (interface : option CombinedStateTransitionAndSensitivityMatrixInterface)
    (observationSettingsMap : list (ObservableType * ObservationSettingsPerLinkEnds))
    (managers : gmap ObservableType (option ObservationManagerBase)) :
  NoDup (observationSettingsMap.*1) →
  fold_left (λ observationManagers observablesIterator,
      <[observablesIterator.1 :=
          createObservationManagerBase observablesIterator.1 observablesIterator.2
            shared interface]> observationManagers)
    observationSettingsMap managers
  = list_to_map ((λ o, (o.1, createObservationManagerBase o.1 o.2 shared interface))
                   <$> observationSettingsMap) ∪ managers.
Proof.
  intros Hdup. revert managers.
  induction observationSettingsMap as [|[t settings] O IH]; intros managers.
  - simpl. by rewrite (left_id_L ∅ (∪)).
  - rewrite fmap_cons in Hdup. apply NoDup_cons in Hdup as [Hnew Hdup].
    simpl fold_left. rewrite IH by done.
    rewrite fmap_cons, list_to_map_cons, <- insert_union_l. symmetry. apply insert_union_r.
    apply not_elem_of_list_to_map_1. by rewrite <- list_fmap_compose.
Qed.

(** X21.  The constructor throws exactly when no initial dynamical state is
    estimated and propagator settings are given, with the message of the
    code; it never fails on a null pointer. *)
Theorem initializeOrbitDeterminationManager_throws_iff (bodies : Environment)
    (observationSettingsMap : list (ObservableType * ObservationSettingsPerLinkEnds))
    (integratorSettings : option IntegratorSettings)
    (propagatorSettings : option PropagatorSettings) :
  let outcome :=
    initializeOrbitDeterminationManager bodies observationSettingsMap integratorSettings
      propagatorSettings in
  ((numberOfInitialDynamicalStates bodies = 0%nat ∧ propagatorSettings ≠ None) →
   outcome
   = Fails (runtime_error
       "Error, cannot parse propagator settings without estimating dynamics in OrbitDeterminationManager")) ∧
  ((0 < numberOfInitialDynamicalStates bodies)%nat ∨ propagatorSettings = None →
   ∃ made, outcome = Returns made) ∧
  outcome ≠ Fails NullPointerDereference.
Proof.
  unfold initializeOrbitDeterminationManager.
  destruct (bool_decide_reflect (0 < numberOfInitialDynamicalStates bodies)%nat) as [Hpos|Hzero].
  - split; [intros [Hz _]; lia|].
    split; [|by destruct propagatorSettings as [s|]; [destruct (isMultiArcPropagatorSettings s)|]].
    intros _. destruct propagatorSettings as [s|]; [destruct (isMultiArcPropagatorSettings s)|];
      simpl; eauto.
  - destruct propagatorSettings as [s|].
    + split; [by destruct (isMultiArcPropagatorSettings s)|]. split.
      * intros [Hpos | [=]]. lia.
      * by destruct (isMultiArcPropagatorSettings s).
    + split; [by intros [_ ?]|]. split; [|done]. intros _. simpl. eauto.
Qed.

Lemma createObservationManagers_lookup (shared : Environment)
    (interface : option CombinedStateTransitionAndSensitivityMatrixInterface)
    (observationSettingsMap : list (ObservableType * ObservationSettingsPerLinkEnds))
    (observableType : ObservableType) :
  std_map_ordered lt observationSettingsMap →
  (createObservationManagers shared interface observationSettingsMap !! observableType = None
   ↔ observableType ∉ observationSettingsMap.*1) ∧
  ∀ settings, (observableType, settings) ∈ observationSettingsMap →
    createObservationManagers shared interface observationSettingsMap !! observableType
    = Some (createObservationManagerBase observableType settings shared interface).
Proof.
  intros Hordered. unfold createObservationManagers.
  pose proof (std_map_ordered_NoDup lt observationSettingsMap Hordered) as Hdup.
  rewrite create_managers_loop, (right_id_L ∅ (∪)) by done.
  assert (Hkeys : ((λ o : ObservableType * ObservationSettingsPerLinkEnds,
                      (o.1, createObservationManagerBase o.1 o.2 shared interface))
                     <$> observationSettingsMap).*1 = observationSettingsMap.*1)
    by (by rewrite <- list_fmap_compose).
  split.
  - rewrite <- Hkeys. symmetry. apply not_elem_of_list_to_map.
  - intros settings Hin. apply elem_of_list_to_map; [by rewrite Hkeys|].
    apply list_elem_of_fmap. by exists (observableType, settings).
Qed.

(** What the manager holds when the constructor returns. *)
Lemma initializeOrbitDeterminationManager_returns (bodies : Environment)
    (observationSettingsMap : list (ObservableType * ObservationSettingsPerLinkEnds))
    (integratorSettings : option IntegratorSettings)
    (propagatorSettings : option PropagatorSettings) (made : ConstructedManager) :
  initializeOrbitDeterminationManager bodies observationSettingsMap integratorSettings
    propagatorSettings = Returns made →
  integrateAndEstimateOrbit_ (constructed made)
  = bool_decide (0 < numberOfInitialDynamicalStates bodies)%nat ∧
  observationManagers_ (constructed made)
  = createObservationManagers (environment (constructed made))
      (stateTransitionAndSensitivityMatrixInterface_ made) observationSettingsMap.
Proof.
  unfold initializeOrbitDeterminationManager.
  destruct (bool_decide (0 < numberOfInitialDynamicalStates bodies)%nat).
  - destruct propagatorSettings as [s|]; [destruct (isMultiArcPropagatorSettings s)|];
      simpl; by intros [= <-].
  - destruct propagatorSettings as [s|]; [by destruct (isMultiArcPropagatorSettings s)|].
    simpl. by intros [= <-].
Qed.

(** X22.  When the constructor returns: [integrateAndEstimateOrbit_] tells
    whether an initial dynamical state is estimated;
    [variationalEquationsSolver_] is null exactly when it is false;
    [dynamicsIsMultiArc_] tells whether multi-arc propagator settings were
    given; without dynamics nothing is propagated and the interface is the
    single-arc one without interpolators, so that the multi-arc interface
    without interpolators is never made; the current parameter estimate is
    that of the parameter set; and [observationManagers_] holds exactly the
    observable types of the settings, each with the manager created from its
    settings. *)
Theorem initializeOrbitDeterminationManager_makes (bodies : Environment)
    (observationSettingsMap : list (ObservableType * ObservationSettingsPerLinkEnds))
    (integratorSettings : option IntegratorSettings)
    (propagatorSettings : option PropagatorSettings) (made : ConstructedManager) :
  initializeOrbitDeterminationManager bodies observationSettingsMap integratorSettings
    propagatorSettings = Returns made →
  let this := constructed made in
  (integrateAndEstimateOrbit_ this = true ↔ (0 < numberOfInitialDynamicalStates bodies)%nat) ∧
  (variationalEquationsSolver_ made = None ↔ integrateAndEstimateOrbit_ this = false) ∧
  (dynamicsIsMultiArc_ made = true ↔
   ∃ settings, propagatorSettings = Some settings ∧
               isMultiArcPropagatorSettings settings = true) ∧
  (integrateAndEstimateOrbit_ this = false →
     propagatorSettings = None ∧ dynamicsIsMultiArc_ made = false ∧
     environment this = bodies ∧
     stateTransitionAndSensitivityMatrixInterface_ made
     = Some (SingleArcInterfaceWithoutDynamics (getParameterSetSize bodies))) ∧
  (∀ parameterSetSize,
     stateTransitionAndSensitivityMatrixInterface_ made
     ≠ Some (MultiArcInterfaceWithoutDynamics parameterSetSize)) ∧
  getCurrentParameterEstimate this = getFullParameterValues (environment this) ∧
  (std_map_ordered lt observationSettingsMap →
   ∀ observableType : ObservableType,
     (observationManagers_ this !! observableType = None ↔
      observableType ∉ observationSettingsMap.*1) ∧
     ∀ settings, (observableType, settings) ∈ observationSettingsMap →
       observationManagers_ this !! observableType
       = Some (createObservationManagerBase observableType settings (environment this)
                 (stateTransitionAndSensitivityMatrixInterface_ made))).
Proof.
  intros Hmade.
  destruct (initializeOrbitDeterminationManager_returns _ _ _ _ _ Hmade) as [_ Hmanagers].
  simpl. rewrite Hmanagers. revert Hmade. clear Hmanagers.
  unfold initializeOrbitDeterminationManager.
  destruct (bool_decide_reflect (0 < numberOfInitialDynamicalStates bodies)%nat) as [Hpos|Hzero].
  - destruct propagatorSettings as [s|]; [destruct (isMultiArcPropagatorSettings s) eqn:Hs|];
      simpl; intros [= <-]; simpl.
    all: repeat split; try done; try (intros; lia); eauto.
    all: try (by intros [? [[=] ?]]); try (by intros [? [[= <-] ?]]; congruence).
    all: try (by apply createObservationManagers_lookup).
  - destruct propagatorSettings as [s|]; [by destruct (isMultiArcPropagatorSettings s)|].
    simpl. intros [= <-]. simpl.
    repeat split; try done; try (intros; lia).
    all: try (by intros [? [[=] ?]]).
    all: try (by apply createObservationManagers_lookup).
Qed.

(** X23.  On a manager as the constructor returns it, [estimateParameters]
    returns when the input holds observations and every observable type of
    them was given settings from which a manager was created (and dynamics are
    estimated if the state history is asked for); when the observations hold a
    set of link ends under an observable type without settings, it fails on a
    null pointer.  (Inputs without an observation are left out of the first
    half: there the code takes [minCoeff] of the empty columns of the matrix of
    partials.) *)
Theorem estimateParameters_needs_the_settings (bodies : Environment)
    (observationSettingsMap : list (ObservableType * ObservationSettingsPerLinkEnds))
    (integratorSettings : option IntegratorSettings)
    (propagatorSettings : option PropagatorSettings) (made : ConstructedManager)
    (fuel : nat) (podInput : PodInput) (c : EstimationConvergenceChecker Sc) :
  initializeOrbitDeterminationManager bodies observationSettingsMap integratorSettings
    propagatorSettings = Returns made →
  std_map_ordered lt observationSettingsMap →
  (observations_present podInput →
   settings_provided made observationSettingsMap (getObservationsAndTimes podInput) →
   (getSaveStateHistoryForEachIteration podInput = true →
    (0 < numberOfInitialDynamicalStates bodies)%nat) →
   (Z.to_nat (Z.max 1 (maximumNumberOfIterations_ c)) <= fuel)%nat →
   ∃ this' output,
     estimateParameters fuel podInput c (constructed made) = Some (this', Returns output)) ∧
  ((∃ seg : Segment, seg ∈ segments_of (getObservationsAndTimes podInput) ∧
                     seg.1.1 ∉ observationSettingsMap.*1) →
   ∃ this',
     estimateParameters (S fuel) podInput c (constructed made)
     = Some (this', Fails NullPointerDereference)).
Proof.
  intros Hmade Hordered.
  destruct (initializeOrbitDeterminationManager_returns _ _ _ _ _ Hmade) as [Hint Hmanagers].
  split.
  - intros _ Hprovided Hsolver Hfuel. apply estimateParameters_ready; [|done]. split.
    + intros Hsave. rewrite Hint. apply bool_decide_eq_true. by apply Hsolver.
    + eapply Forall_impl; [exact Hprovided|].
      intros seg (settings & manager & Hin & Hcreated). exists manager.
      rewrite Hmanagers.
      destruct (createObservationManagers_lookup (environment (constructed made))
                  (stateTransitionAndSensitivityMatrixInterface_ made)
                  observationSettingsMap seg.1.1 Hordered) as [_ Hlookup].
      by rewrite (Hlookup settings Hin), Hcreated.
  - intros (seg & Hseg & Hmissing). apply estimateParameters_not_ready.
    intros [_ Hall]. apply (proj1 (Forall_forall _ _) Hall) in Hseg as [manager Hreg].
    rewrite Hmanagers in Hreg.
    destruct (createObservationManagers_lookup (environment (constructed made))
                (stateTransitionAndSensitivityMatrixInterface_ made)
                observationSettingsMap seg.1.1 Hordered) as [Hnone _].
    apply Hnone in Hmissing. congruence.
Qed.

End ConstructorProperties.

(** ** The code on concrete inputs *)

(** *** The convergence check *)

Lemma isEstimationConverged_stops_witness :
  let history := [4; 1; 3]%float in
  last history = Some 3%float ∧
  stoppingCondition defaultConvergenceChecker 5 history 3%float ∧
  isEstimationConverged defaultConvergenceChecker 5 history = true.
Proof.
  intros history.
  assert (Hlast : last history = Some 3%float) by reflexivity.
  assert (Hstop : stoppingCondition defaultConvergenceChecker 5 history 3%float).
  { left. vm_compute. discriminate. }
  split; [exact Hlast|]. split; [exact Hstop|].
  exact (proj1 (isEstimationConverged_stops defaultConvergenceChecker 5 history 3%float Hlast)
               Hstop).
Defined.

(** C2, where the code departs from it.  With the default checker, after four
    iterations whose RMS was lowest in the first, three iterations have passed
    since the best RMS, more than the two allowed; the test of the code is
    false all the same, and the check does not stop the estimation. *)
Theorem isEstimationConverged_ignores_iterations_without_improvement :
  let history := [1; 2; 3; 4]%float in
  specified_iterationsSinceBest (Sc:=binary64) history = 3 ∧
  numberOfIterationsWithoutImprovement_ defaultConvergenceChecker = 2 ∧
  specified_tooManyIterationsWithoutImprovement defaultConvergenceChecker history = true ∧
  tooManyIterationsWithoutImprovement defaultConvergenceChecker history = false ∧
  isEstimationConverged defaultConvergenceChecker 4 history = false.
Proof. vm_compute. repeat split; reflexivity. Qed.

(** *** A missing observation manager *)

(** C4, where the code departs from it.  With no manager registered for the
    observable type 0, [getObservationManager] throws the runtime error that
    names the type; [estimateParameters] on observations of this type first
    resets the parameters, then inserts a null pointer under the type and
    dereferences it: there is no error to catch, and the manager is not as it
    was. *)
Theorem missing_manager_is_dereferenced :
  let this := linearState64 [] in
  let podInput := linearInput64 1 true in
  observationManagers_ this !! 0%nat = None ∧
  getObservationManager this 0%nat
    = Fails (runtime_error "Error when retrieving observation manager of type 0, manager not found") ∧
  ∃ this',
    estimateParameters 5 podInput defaultConvergenceChecker this
      = Some (this', Fails NullPointerDereference) ∧
    observationManagers_ this' !! 0%nat = Some None ∧
    getCurrentParameterEstimate this = [0%float] ∧
    getCurrentParameterEstimate this' = [1%float].
Proof.
  intros this podInput. split; [reflexivity|]. split; [vm_compute; reflexivity|].
  eexists. split; [vm_compute; reflexivity|].
  split; [reflexivity|]. split; reflexivity.
Qed.

(** *** The number of iterations *)

(** With a maximum of zero iterations the loop has run one iteration when the
    check stops it: one more than the maximum. *)
Lemma one_iteration_with_maximum_zero :
  let c := newEstimationConvergenceChecker (Sc:=binary64) 0 0%float 0%float 2 in
  maximumNumberOfIterations_ c = 0 ∧
  ∃ this' l',
    estimationRun 1 (linearInput64 0 false) c (linearState64 [0%nat]) = Some (this', Returns l') ∧
    numberOfIterations l' = 1 ∧
    ¬ (numberOfIterations l' <= maximumNumberOfIterations_ c).
Proof.
  intros c. split; [reflexivity|].
  eexists _, _. split; [vm_compute; reflexivity|].
  split; [reflexivity|]. vm_compute. intros Hle. by apply Hle.
Qed.

Lemma estimationRun_terminates_witness :
  (Z.to_nat (Z.max 1 (maximumNumberOfIterations_ defaultConvergenceChecker)) <= 5)%nat ∧
  ∃ this' outcome,
    estimationRun 5 (linearInput64 0 false) defaultConvergenceChecker (linearState64 [0%nat])
      = Some (this', outcome) ∧
    ∀ l', outcome = Returns l' →
      1 <= numberOfIterations l'
        <= Z.max 1 (maximumNumberOfIterations_ defaultConvergenceChecker).
Proof.
  assert (Hfuel : (Z.to_nat (Z.max 1 (maximumNumberOfIterations_ defaultConvergenceChecker))
                   <= 5)%nat) by (vm_compute; lia).
  split; [exact Hfuel|].
  destruct (estimationRun_terminates 5 (linearInput64 0 false) defaultConvergenceChecker
              (linearState64 [0%nat]) Hfuel) as (this' & outcome & Hrun & _ & _ & Hcount).
  exists this', outcome. split; [exact Hrun|].
  intros l' Hl'. apply (Hcount l' Hl').
Defined.

(** *** Weights and residuals *)

Lemma weights_follow_residuals_witness :
  let podInput := linearInput64 0 false in
  let this := linearState64 [0%nat] in
  let managers := λ _ : ObservableType, linearManager (Sc:=binary64) PrimFloat.sqrt 1%float in
  let weights := getConcatenatedWeightsVector (getWeightsMatrixDiagonals podInput) in
  let total := (getNumberOfObservationsPerObservable (getObservationsAndTimes podInput)).2 in
  total = 3 ∧
  ∃ residuals partials,
    calculateObservationMatrixAndResiduals (getObservationsAndTimes podInput) 1 total this
      = (this, Returns (residuals, partials)) ∧
    rows weights = total ∧ rows residuals = total ∧ rows partials = total ∧
    ∀ i : nat, Z.of_nat i < total →
      ∃ triple w r row,
        weights !! i = Some w ∧
        labelled (λ seg, seg.2) (getWeightsMatrixDiagonals podInput) !! i = Some (triple, w) ∧
        entry_of (λ seg, seg.2) (getWeightsMatrixDiagonals podInput) triple w ∧
        residuals !! i = Some r ∧
        labelled (residual_segment managers this) (getObservationsAndTimes podInput) !! i
          = Some (triple, r) ∧
        entry_of (residual_segment managers this) (getObservationsAndTimes podInput) triple r ∧
        partials !! i = Some row ∧
        labelled (partial_segment managers this) (getObservationsAndTimes podInput) !! i
          = Some (triple, row) ∧
        entry_of (partial_segment managers this) (getObservationsAndTimes podInput) triple row.
Proof.
  intros podInput this managers weights total. split; [reflexivity|].
  assert (HW : std_maps_ordered (getWeightsMatrixDiagonals podInput)).
  { split; [repeat constructor|]. repeat constructor. }
  assert (HO : std_maps_ordered (getObservationsAndTimes podInput)).
  { split; [repeat constructor|]. repeat constructor. }
  assert (Hmirror : mirrors (getWeightsMatrixDiagonals podInput) (getObservationsAndTimes podInput)).
  { split; [done|]. intros t weights' observations Hw Ho.
    apply list_elem_of_singleton in Hw. apply list_elem_of_singleton in Ho.
    injection Hw as -> ->. injection Ho as ->. split; [done|].
    intros l w d Hlw Hld.
    apply list_elem_of_singleton in Hlw. apply list_elem_of_singleton in Hld.
    injection Hlw as -> ->. injection Hld as ->. reflexivity. }
  assert (Hmax : total_rows (observed_segments (getObservationsAndTimes podInput)) <= INT_MAX)
    by (vm_compute; discriminate).
  assert (Hall : Forall (manager_answers managers this)
                   (segments_of (getObservationsAndTimes podInput))).
  { repeat constructor. }
  exact (weights_follow_residuals managers this (getWeightsMatrixDiagonals podInput)
           (getObservationsAndTimes podInput) 1 HW HO Hmirror Hmax Hall).
Defined.

(** *** Normalization *)

Lemma normalizeObservationMatrix_bounds_witness :
  let m := [[1; -4]; [2; 2]; [3; 1]]%float in
  column (Sc:=binary64) 1 m = [-4; 2; 1]%float ∧
  coeff (Sc:=binary64) (normalizeObservationMatrix (Sc:=binary64) m).2 1 = (-4)%float ∧
  column (Sc:=binary64) 1 (normalizeObservationMatrix (Sc:=binary64) m).1
  = [1; -0.5; -0.25]%float ∧
  ∀ y, y ∈ column (Sc:=binary64) 1 (normalizeObservationMatrix (Sc:=binary64) m).1 →
       PrimFloat.leb (-1) y = true ∧ PrimFloat.leb y 1 = true.
Proof.
  intros m. split; [reflexivity|]. split; [reflexivity|]. split; [reflexivity|].
  assert (Hrows : row_length (Sc:=binary64) (cols (Sc:=binary64) m) m) by (repeat constructor).
  assert (Hi : (1 < cols (Sc:=binary64) m)%nat) by (simpl; lia).
  assert (Hfin : Forall (λ x, is_finite x = true) (column (Sc:=binary64) 1 m))
    by (repeat constructor).
  assert (Hnz : ∃ x, x ∈ column (Sc:=binary64) 1 m ∧ is_zero x = false).
  { exists (-4)%float. split; [by left | reflexivity]. }
  apply (normalizeObservationMatrix_bounds m 1 Hrows Hi Hfin Hnz).
Defined.



(** On doubles the quotient of zero by zero is not a number: the column of
    zeros comes out of the normalization as a column of NaN. *)
Example zero_column_becomes_nan :
  normalizeObservationMatrix (Sc:=binary64) [[1; 0]; [2; 0]]%float
  = ([[0.5; nan]; [1; nan]]%float, [2; 0]%float).
Proof. vm_compute. reflexivity. Qed.

(** An infinite entry is the scaling value of its column: it becomes a NaN
    itself, and the other entries become zeros.  The column has an entry that
    is not zero, and after the normalization an entry that is not between -1
    and 1. *)
Lemma infinite_entry_becomes_nan :
  let m := [[infinity]; [1]]%float in
  (∃ x, x ∈ column (Sc:=binary64) 0 m ∧ is_zero x = false) ∧
  normalizeObservationMatrix (Sc:=binary64) m = ([[nan]; [0]]%float, [infinity]) ∧
  ∃ y, y ∈ column (Sc:=binary64) 0 (normalizeObservationMatrix (Sc:=binary64) m).1 ∧
       PrimFloat.leb (-1) y = false ∧ PrimFloat.leb y 1 = false.
Proof.
  intros m. split; [exists infinity; split; [by left | reflexivity]|].
  split; [vm_compute; reflexivity|].
  exists nan. split; [by left | split; reflexivity].
Qed.

(** *** The best iterate *)

Lemma estimateParameters_returns_best_witness :
  ∃ this' output,
    estimateParameters 5 (linearInput64 0 false) defaultConvergenceChecker (linearState64 [0%nat])
    = Some (this', Returns output) ∧
    ∃ l',
      estimationRun 5 (linearInput64 0 false) defaultConvergenceChecker (linearState64 [0%nat])
      = Some (this', Returns l') ∧
      output = makePodOutput l' ∧
      rmsResidualHistory l' ≠ [] ∧
      ∀ r, r ∈ rmsResidualHistory l' →
        PrimFloat.ltb r (residualStandardDeviation_ output) = false ∧
        (is_nan r = false → PrimFloat.leb (residualStandardDeviation_ output) r = true).
Proof.
  assert (Hreturns :
            match estimateParameters 5 (linearInput64 0 false) defaultConvergenceChecker
                    (linearState64 [0%nat]) with
            | Some (_, Returns _) => true
            | _ => false
            end = true) by (vm_compute; reflexivity).
  destruct (estimateParameters 5 (linearInput64 0 false) defaultConvergenceChecker
              (linearState64 [0%nat])) as [[this' [output|f]]|] eqn:Hrun;
    [|discriminate Hreturns..].
  exists this', output. split; [reflexivity|].
  destruct (estimateParameters_returns_best 5 (linearInput64 0 false) defaultConvergenceChecker
              (linearState64 [0%nat]) this' output Hrun)
    as [(l' & Hl' & Hout & Hne & _ & _ & Hle & _) _].
  exists l'. auto.
Defined.

(** A run all of whose residuals are NaN: each of its five iterations records
    a NaN as RMS and a NaN as residual.  The output holds the initial values,
    the largest double as RMS and zeros, which no iteration has calculated, and
    its RMS is not less than or equal to any recorded RMS. *)
Lemma nan_observation_returns_the_initial_output :
  ∃ this' l',
    estimationRun 5 nanInput64 defaultConvergenceChecker (linearState64 [0%nat])
    = Some (this', Returns l') ∧
    estimateParameters 5 nanInput64 defaultConvergenceChecker (linearState64 [0%nat])
    = Some (this', Returns (makePodOutput l')) ∧
    rmsResidualHistory l' = [nan; nan; nan; nan; nan] ∧
    residualHistory_ (makePodOutput l') = [[nan]; [nan]; [nan]; [nan]; [nan]] ∧
    residualStandardDeviation_ (makePodOutput l') = @numeric_limits_max binary64 ∧
    parameterEstimate_ (makePodOutput l') = [0%float] ∧
    residuals_ (makePodOutput l') = [0%float] ∧
    ∀ r, r ∈ rmsResidualHistory l' →
      PrimFloat.leb (residualStandardDeviation_ (makePodOutput l')) r = false.
Proof.
  eexists _, _. split; [vm_compute; reflexivity|].
  split; [vm_compute; reflexivity|].
  split; [reflexivity|]. split; [reflexivity|]. split; [reflexivity|].
  split; [reflexivity|]. split; [reflexivity|].
  intros r Hr. simpl in Hr.
  repeat (apply elem_of_cons in Hr as [->|Hr]; [reflexivity|]).
  by apply not_elem_of_nil in Hr.
Qed.

(** Scenario A of the specification in exact arithmetic: the first iteration
    takes the estimate from 0 to 28.5/14, and the result of a run of one
    iteration has this estimate with the residuals of the estimate 0. *)
Example linear_scenario_first_correction :
  let c := newEstimationConvergenceChecker (Sc:=rational) 1 0%Q 0%Q 2 in
  match estimateParameters 1 linearInputQ c linearStateQ with
  | Some (_, Returns estimate) =>
      Forall2 Qeq (parameterEstimate_ estimate) [28.5 / 14]%Q ∧
      residuals_ estimate = [2.1; 3.9; 6.2]%Q
  | _ => False
  end.
Proof.
  intros c.
  assert (Hvalues :
            match estimateParameters 1 linearInputQ c linearStateQ with
            | Some (_, Returns estimate) => Some (parameterEstimate_ estimate, residuals_ estimate)
            | _ => None
            end = Some ([1682896500 # 826686000], [2.1; 3.9; 6.2])%Q) by (vm_compute; reflexivity).
  destruct (estimateParameters 1 linearInputQ c linearStateQ) as [[this' [estimate|f]]|];
    [|discriminate Hvalues..].
  injection Hvalues as -> ->. split; [|reflexivity].
  repeat constructor.
Qed.

(** The first iteration without re-propagation, after an initial deviation of
    1 from the parameter value 0: the estimate before the update is 1, the
    residuals that the snapshot records are those of the parameter value 0,
    which the manager still holds, and not those that the manager calculates
    once it is reset to the estimate 1. *)
Lemma first_iteration_residuals_of_dynamics_as_found :
  let podInput := linearInput64 1 false in
  let entered := enterEstimation podInput (linearState64 [0%nat]) in
  let this := entered.1 in
  let l := entered.2.2 in
  newParameterEstimate l = [1%float] ∧
  getCurrentParameterEstimate this = [0%float] ∧
  ∃ this1 l1,
    iteration podInput 1 3 l this = (this1, Returns l1) ∧
    @dlt binary64 (bestResidual l1) (bestResidual l) = true ∧
    bestParameterEstimate l1 = newParameterEstimate l1 ∧
    bestResiduals l1 = [2; 4; 6.5]%float ∧
    (calculateObservationMatrixAndResiduals (getObservationsAndTimes podInput) 1 3
       (resetParameterEstimate (newParameterEstimate l) true this)).2
      = Returns ([1; 2; 3.5]%float, [[1]; [2]; [3]]%float) ∧
    bestResiduals l1 ≠ [1; 2; 3.5]%float.
Proof.
  intros podInput entered this l. split; [reflexivity|]. split; [reflexivity|].
  eexists _, _. split; [vm_compute; reflexivity|].
  split; [reflexivity|]. split; [reflexivity|]. split; [reflexivity|].
  split; [vm_compute; reflexivity|].
  intros Heq.
  apply (f_equal (λ v : list float,
                    match v with x :: _ => PrimFloat.eqb x 2%float | [] => false end)) in Heq.
  vm_compute in Heq. discriminate Heq.
Qed.

Lemma best_snapshot_estimate_and_residuals_witness :
  let podInput := linearInput64 0 true in
  let this := linearState64 [0%nat] in
  let entered := enterEstimation podInput this in
  ∃ this' output,
    estimateParameters 5 podInput defaultConvergenceChecker this = Some (this', Returns output) ∧
    ∃ (n : nat) l',
      (1 <= n)%nat ∧
      iterated n podInput entered.2.1.1 entered.2.1.2 entered.2.2 entered.1 = Some (this', l') ∧
      output = makePodOutput l'.
Proof.
  intros podInput this entered.
  assert (Hreturns :
            match estimateParameters 5 podInput defaultConvergenceChecker this with
            | Some (_, Returns _) => true
            | _ => false
            end = true) by (vm_compute; reflexivity).
  destruct (estimateParameters 5 podInput defaultConvergenceChecker this)
    as [[this' [output|f]]|] eqn:Hrun; [|discriminate Hreturns..].
  exists this', output. split; [reflexivity|].
  destruct (best_snapshot_estimate_and_residuals 5 podInput defaultConvergenceChecker this
              this' output Hrun) as (n & l' & Hn & Hiter & Hout & _).
  exists n, l'. auto.
Defined.

(** An iteration whose correction is zero: started with the estimate 2, which
    fits the observations, and re-propagated, the first iteration calculates
    the residuals of the estimate 2 and adds nothing to it; the output holds
    this estimate with its own residuals. *)
Example zero_correction_keeps_the_estimate :
  ∃ this' output,
    estimateParameters 5 fittedInput64 defaultConvergenceChecker (linearState64 [0%nat])
    = Some (this', Returns output) ∧
    parameterEstimate_ output = [2%float] ∧
    residuals_ output = [0; 0; 0]%float ∧
    getCurrentParameterEstimate this' = [2%float] ∧
    (calculateObservationMatrixAndResiduals (getObservationsAndTimes fittedInput64) 1 3
       (resetParameterEstimate (parameterEstimate_ output) true (linearState64 [0%nat]))).2
    = Returns ([0; 0; 0]%float, [[1]; [2]; [3]]%float).
Proof.
  eexists _, _. split; [vm_compute; reflexivity|]. repeat split.
Qed.

(** *** The limits of the convergence checker *)

Lemma zero_minimum_change_never_met_witness :
  let history := [3; 3]%float in
  @residualChangeBelowMinimum binary64 defaultConvergenceChecker history = false ∧
  @isEstimationConverged binary64 defaultConvergenceChecker 2 history
  = (5 <=? 2) || PrimFloat.ltb 3%float 0x1.79ca10c924223p-67%float.
Proof.
  apply (zero_minimum_change_never_met defaultConvergenceChecker 2 [3; 3]%float 3%float).
  - apply (newEstimationConvergenceChecker_representable (Sc:=binary64)).
  - reflexivity.
  - reflexivity.
  - vm_compute. discriminate.
Defined.

Lemma maximum_above_INT_MAX_is_negative_witness :
  let c := @newEstimationConvergenceChecker binary64 4294967295 0%float 0%float 2 in
  maximumNumberOfIterations_ c = 4294967295 - 2 ^ 32 ∧
  maximumNumberOfIterations_ c < 0 ∧
  isEstimationConverged c 1 [5%float] = true.
Proof.
  apply (maximum_above_INT_MAX_is_negative (Sc:=binary64) 4294967295 0%float 0%float 2 1
           [5%float]); lia.
Defined.

(** *** The other member functions and the constructor *)

Lemma getConcatenatedWeightsVector_segments_witness :
  @getConcatenatedWeightsVector binary64 linearModel64 weights64 = [1; 2; 3; 4]%float ∧
  take 1 (drop 2 (@getConcatenatedWeightsVector binary64 linearModel64 weights64))
  = [3%float].
Proof.
  assert (Hmax : total_rows ((λ seg, seg.2) <$> segments_of weights64) <= INT_MAX)
    by (vm_compute; discriminate).
  destruct (getConcatenatedWeightsVector_segments (Sc:=binary64) (Ext:=linearModel64)
              weights64 Hmax) as [Hconcat Hsegment].
  split; [exact Hconcat|].
  exact (Hsegment [(0%nat, 0%nat, [1; 2]%float)] (0%nat, 1%nat, [3%float])
           [(1%nat, 0%nat, [4%float])] eq_refl).
Defined.

Lemma observations_per_observable_and_per_link_end_witness :
  let observationsAndTimes := getObservationsAndTimes (linearInput64 0 false) in
  let dataPerLinkEnd := [(0%nat, ([2; 4; 6.5]%float, ([1; 2; 3]%float, 0%nat)))] in
  getNumberOfObservationsPerLinkEnd (Sc:=binary64) (Ext:=linearModel64) dataPerLinkEnd = [3] ∧
  (getNumberOfObservationsPerObservable observationsAndTimes).1 !! 0%nat
  = Some (foldr Z.add 0 (getNumberOfObservationsPerLinkEnd (Sc:=binary64) (Ext:=linearModel64)
                           dataPerLinkEnd)).
Proof.
  intros observationsAndTimes dataPerLinkEnd.
  apply (observations_per_observable_and_per_link_end (Sc:=binary64) (Ext:=linearModel64)
           observationsAndTimes 0%nat dataPerLinkEnd).
  - repeat constructor.
  - vm_compute. discriminate.
  - by left.
Defined.

Lemma getNumberOfObservationsPerObservable_sum_witness :
  let observationsAndTimes := getObservationsAndTimes (linearInput64 0 false) in
  let counted := getNumberOfObservationsPerObservable observationsAndTimes in
  (∀ observableType : nat,
     is_Some (counted.1 !! observableType) ↔ observableType ∈ observationsAndTimes.*1) ∧
  counted.2 = map_fold (λ _ number sum, number + sum) 0 counted.1 ∧
  counted.2 = total_rows (observed_segments observationsAndTimes).
Proof.
  intros observationsAndTimes.
  apply (getNumberOfObservationsPerObservable_sum (Sc:=binary64) (Ext:=linearModel64)
           observationsAndTimes).
  - repeat constructor.
  - vm_compute. discriminate.
Defined.

Lemma not_registered_in_empty (t : nat) : ¬ registered (linearState64 []) t.
Proof. intros [manager Hmanager]. vm_compute in Hmanager. discriminate. Qed.

Lemma calculateObservationMatrixAndResiduals_first_missing_manager_witness :
  ∃ this',
    calculateObservationMatrixAndResiduals
      (getObservationsAndTimes (linearInput64 0 false)) 1 3 (linearState64 [])
    = (this', Fails NullPointerDereference) ∧
    observationManagers_ this' !! 0%nat = Some None.
Proof.
  destruct (calculateObservationMatrixAndResiduals_first_missing_manager
              (getObservationsAndTimes (linearInput64 0 false)) 1 3 (linearState64 [])
              [] (0%nat, 0%nat, ([2; 4; 6.5]%float, ([1; 2; 3]%float, 0%nat))) []
              eq_refl (Forall_nil_2 _) (not_registered_in_empty 0%nat))
    as (this' & Hcalc & Hnull & _).
  exists this'. split; [exact Hcalc | exact Hnull].
Defined.

Lemma getObservationManager_after_failed_calculation_witness :
  ∃ this',
    calculateObservationMatrixAndResiduals
      (getObservationsAndTimes (linearInput64 0 false)) 1 3 (linearState64 [])
    = (this', Fails NullPointerDereference) ∧
    ∃ observableType : nat, getObservationManager this' observableType = Returns None.
Proof.
  assert (Hcalc : ∃ this',
            calculateObservationMatrixAndResiduals
              (getObservationsAndTimes (linearInput64 0 false)) 1 3 (linearState64 [])
            = (this', Fails NullPointerDereference))
    by (eexists; vm_compute; reflexivity).
  destruct Hcalc as [this' Hcalc]. exists this'. split; [exact Hcalc|].
  destruct (getObservationManager_after_failed_calculation _ _ _ _ _ _ Hcalc)
    as (_ & t & _ & Hnull & _).
  exists t. exact Hnull.
Defined.

Lemma getObservationSimulators_after_failed_calculation_witness :
  ∃ this',
    calculateObservationMatrixAndResiduals
      (getObservationsAndTimes (linearInput64 0 false)) 1 3 (linearState64 [])
    = (this', Fails NullPointerDereference) ∧
    getObservationSimulators (Acc:=linearAccessors64) this' = Fails NullPointerDereference ∧
    ∃ observationSimulators,
      getObservationSimulators (Acc:=linearAccessors64) (linearState64 [])
      = Returns observationSimulators.
Proof.
  assert (Hcalc : ∃ this',
            calculateObservationMatrixAndResiduals
              (getObservationsAndTimes (linearInput64 0 false)) 1 3 (linearState64 [])
            = (this', Fails NullPointerDereference))
    by (eexists; vm_compute; reflexivity).
  destruct Hcalc as [this' Hcalc]. exists this'. split; [exact Hcalc|].
  destruct (getObservationSimulators_after_failed_calculation (Acc:=linearAccessors64)
              _ _ _ _ _ _ Hcalc) as [Hfails Hbefore].
  split; [exact Hfails|]. apply Hbefore.
  intros t Ht. vm_compute in Ht. discriminate.
Defined.

Lemma convertPodInput_splits_the_maps_witness :
  convertPodInput (Acc:=linearAccessors64) alternativeInput64
  = [(0%nat, [(0%nat, ([2; 4]%float, ([1; 2]%float, 0%nat)))])].
Proof.
  assert (Hordered : std_maps_ordered alternativeInput64).
  { split; repeat constructor. }
  assert (Hfit : observations_fit alternativeInput64).
  { constructor; [vm_compute; discriminate | constructor]. }
  exact (proj1 (convertPodInput_splits_the_maps (Acc:=linearAccessors64)
                  alternativeInput64 Hordered Hfit)).
Defined.

Lemma converted_observations_are_counted_witness :
  (getNumberOfObservationsPerObservable
     (convertPodInput (Acc:=linearAccessors64) alternativeInput64)).2 = 2.
Proof.
  assert (Hordered : std_maps_ordered alternativeInput64).
  { split; repeat constructor. }
  assert (Hmax : total_rows ((λ seg, seg.2.1) <$> segments_of alternativeInput64) <= INT_MAX)
    by (vm_compute; discriminate).
  exact (proj1 (converted_observations_are_counted (Acc:=linearAccessors64)
                  alternativeInput64 Hordered Hmax)).
Defined.

Lemma normalizeObservationMatrix_entries_witness :
  let m := [[1; -4]; [2; 2]]%float in
  let normalized := normalizeObservationMatrix (Sc:=binary64) m in
  length normalized.1 = 2%nat ∧ length normalized.2 = 2%nat ∧
  coeff2 (Sc:=binary64) normalized.1 1 1
  = (coeff2 (Sc:=binary64) m 1 1 / coeff (Sc:=binary64) normalized.2 1)%float.
Proof.
  intros m.
  assert (Hrows : row_length (Sc:=binary64) (cols (Sc:=binary64) m) m) by (repeat constructor).
  destruct (normalizeObservationMatrix_entries (Sc:=binary64) m Hrows)
    as (Hlength & _ & _ & Hterms & Hentries).
  split; [exact Hlength|]. split; [exact Hterms|].
  apply Hentries; simpl; lia.
Defined.

Lemma normalizeObservationMatrix_scaled_back_witness :
  let m := [[1; -4]; [2; 2]; [3; 1]]%Q in
  let normalized := normalizeObservationMatrix (Sc:=rational) m in
  Forall2 Qeq ((λ y, y * coeff (Sc:=rational) normalized.2 1)%Q
                 <$> column (Sc:=rational) 1 normalized.1)
          [-4; 2; 1]%Q.
Proof.
  intros m.
  assert (Hrows : row_length (Sc:=rational) (cols (Sc:=rational) m) m) by (repeat constructor).
  assert (Hi : (1 < cols (Sc:=rational) m)%nat) by (simpl; lia).
  assert (Hnz : ∃ x, x ∈ column (Sc:=rational) 1 m ∧ ¬ (x == 0)%Q).
  { exists (-4)%Q. split; [by left | discriminate]. }
  exact (proj1 (normalizeObservationMatrix_scaled_back m 1 Hrows Hi Hnz)).
Defined.

Lemma normalizeObservationMatrix_twice_witness :
  let m := [[1; -4]; [2; 2]; [3; 1]]%Q in
  let once := normalizeObservationMatrix (Sc:=rational) m in
  let twice := normalizeObservationMatrix (Sc:=rational) once.1 in
  (coeff (Sc:=rational) twice.2 1 == 1)%Q ∧
  Forall2 Qeq (column (Sc:=rational) 1 twice.1) (column (Sc:=rational) 1 once.1).
Proof.
  intros m.
  assert (Hrows : row_length (Sc:=rational) (cols (Sc:=rational) m) m) by (repeat constructor).
  assert (Hi : (1 < cols (Sc:=rational) m)%nat) by (simpl; lia).
  assert (Hnz : ∃ x, x ∈ column (Sc:=rational) 1 m ∧ ¬ (x == 0)%Q).
  { exists (-4)%Q. split; [by left | discriminate]. }
  exact (normalizeObservationMatrix_twice m 1 Hrows Hi Hnz).
Defined.

Lemma not_ready_without_managers podInput :
  getObservationsAndTimes podInput = getObservationsAndTimes (linearInput64 0 false) →
  ¬ estimation_ready podInput (linearState64 []).
Proof.
  intros Hobs [_ Hall]. rewrite Hobs in Hall.
  apply Forall_cons in Hall as [Hregistered _].
  by apply not_registered_in_empty in Hregistered.
Qed.

Lemma estimateParameters_returns_iff_witness :
  let podInput := linearInput64 0 false in
  let this := linearState64 [0%nat] in
  observations_present podInput ∧ estimation_ready podInput this ∧
  ∃ this' output,
    estimateParameters 5 podInput defaultConvergenceChecker this = Some (this', Returns output).
Proof.
  intros podInput this.
  assert (Hpresent : observations_present podInput) by (vm_compute; reflexivity).
  assert (Hready : estimation_ready podInput this).
  { split; [discriminate|]. repeat constructor. eexists. reflexivity. }
  assert (Hfuel : (Z.to_nat (Z.max 1 (maximumNumberOfIterations_ defaultConvergenceChecker))
                   <= 5)%nat) by (vm_compute; lia).
  split; [exact Hpresent|]. split; [exact Hready|].
  exact (proj1 (estimateParameters_returns_iff 5 podInput defaultConvergenceChecker this
                  Hpresent) Hready Hfuel).
Defined.

Lemma estimateParameters_fails_in_first_iteration_witness :
  ∃ this',
    estimateParameters 5 (linearInput64 1 true) defaultConvergenceChecker (linearState64 [])
    = Some (this', Fails NullPointerDereference) ∧
    getCurrentParameterEstimate this' = [1%float].
Proof.
  destruct (estimateParameters_fails_in_first_iteration 4 (linearInput64 1 true)
              defaultConvergenceChecker (linearState64 [])
              (not_ready_without_managers (linearInput64 1 true) eq_refl))
    as (this' & Hrun & _ & _ & Hreset & _).
  exists this'. split; [exact Hrun|]. exact (proj1 (Hreset eq_refl)).
Defined.



Lemma nan_residual_is_never_best_witness :
  ∃ this' l',
    estimationRun 5 nanInput64 defaultConvergenceChecker (linearState64 [0%nat])
    = Some (this', Returns l') ∧
    PrimFloat.is_nan (bestResidual l') = false.
Proof.
  assert (Hreturns :
            match estimationRun 5 nanInput64 defaultConvergenceChecker
                    (linearState64 [0%nat]) with
            | Some (_, Returns _) => true
            | _ => false
            end = true) by (vm_compute; reflexivity).
  destruct (estimationRun 5 nanInput64 defaultConvergenceChecker (linearState64 [0%nat]))
    as [[this' [l'|f]]|] eqn:Hrun; [|discriminate Hreturns..].
  exists this', l'. split; [reflexivity|].
  exact (proj1 (nan_residual_is_never_best 5 nanInput64 defaultConvergenceChecker
                  (linearState64 [0%nat]) this' l' Hrun)).
Defined.

Lemma initializeOrbitDeterminationManager_makes_witness :
  ∃ made,
    initializeOrbitDeterminationManager (Con:=linearConstruction64) [0%float]
      [(0%nat, ()); (1%nat, ())] None None = Returns made ∧
    variationalEquationsSolver_ made = None ∧
    integrateAndEstimateOrbit_ (constructed made) = false.
Proof.
  assert (Hmade : ∃ made,
            initializeOrbitDeterminationManager (Con:=linearConstruction64) [0%float]
              [(0%nat, ()); (1%nat, ())] None None = Returns made)
    by (eexists; reflexivity).
  destruct Hmade as [made Hmade]. exists made. split; [exact Hmade|].
  destruct (initializeOrbitDeterminationManager_makes _ _ _ _ _ Hmade)
    as (Hintegrate & Hsolver & _).
  assert (Hoff : integrateAndEstimateOrbit_ (constructed made) = false).
  { destruct (integrateAndEstimateOrbit_ (constructed made)); [|reflexivity].
    pose proof (proj1 Hintegrate eq_refl) as Hpos. simpl in Hpos. lia. }
  split; [by apply Hsolver | exact Hoff].
Defined.

Lemma estimateParameters_needs_the_settings_witness :
  let podInput := linearInput64 0 false in
  (∃ made,
     initializeOrbitDeterminationManager (Con:=linearConstruction64) [0%float]
       [(0%nat, ())] None None = Returns made ∧
     observations_present podInput ∧
     settings_provided (Con:=linearConstruction64) made [(0%nat, ())]
       (getObservationsAndTimes podInput) ∧
     ∃ this' output,
       estimateParameters 5 podInput defaultConvergenceChecker (constructed made)
       = Some (this', Returns output)) ∧
  (∃ made,
     initializeOrbitDeterminationManager (Con:=linearConstruction64) [0%float]
       [(1%nat, ())] None None = Returns made ∧
     ∃ this',
       estimateParameters 5 podInput defaultConvergenceChecker (constructed made)
       = Some (this', Fails NullPointerDereference)).
Proof.
  intros podInput. split.
  - assert (Hmade : ∃ made,
              initializeOrbitDeterminationManager (Con:=linearConstruction64) [0%float]
                [(0%nat, ())] None None = Returns made)
      by (eexists; reflexivity).
    destruct Hmade as [made Hmade]. exists made. split; [exact Hmade|].
    assert (Hordered : std_map_ordered lt [(0%nat, ())]) by (repeat constructor).
    assert (Hpresent : observations_present podInput) by (vm_compute; reflexivity).
    assert (Hprovided : settings_provided (Con:=linearConstruction64) made [(0%nat, ())]
                          (getObservationsAndTimes podInput)).
    { repeat constructor. exists (), (linearManager (Sc:=binary64) PrimFloat.sqrt 1%float).
      split; [by left | reflexivity]. }
    assert (Hfuel : (Z.to_nat (Z.max 1 (maximumNumberOfIterations_ defaultConvergenceChecker))
                     <= 5)%nat) by (vm_compute; lia).
    split; [exact Hpresent|]. split; [exact Hprovided|].
    destruct (estimateParameters_needs_the_settings (Con:=linearConstruction64) _ _ _ _ made 5
                podInput defaultConvergenceChecker Hmade Hordered)
      as [Hreturns _].
    apply Hreturns; [exact Hpresent | exact Hprovided | discriminate | exact Hfuel].
  - assert (Hmade : ∃ made,
              initializeOrbitDeterminationManager (Con:=linearConstruction64) [0%float]
                [(1%nat, ())] None None = Returns made)
      by (eexists; reflexivity).
    destruct Hmade as [made Hmade]. exists made. split; [exact Hmade|].
    assert (Hordered : std_map_ordered lt [(1%nat, ())]) by (repeat constructor).
    destruct (estimateParameters_needs_the_settings (Con:=linearConstruction64) _ _ _ _ made 4
                podInput defaultConvergenceChecker Hmade Hordered)
      as [_ Hfails].
    apply Hfails.
    exists (0%nat, 0%nat, ([2; 4; 6.5]%float, ([1; 2; 3]%float, 0%nat))).
    split; [by left|]. simpl. intros Hin. apply list_elem_of_singleton in Hin. discriminate.
Defined.

(** *** Where the loop stops and what it returns *)

Lemma estimationRun_stops_at_first_convergence_witness :
  ∃ this' l',
    estimationRun 5 (linearInput64 0 false) defaultConvergenceChecker (linearState64 [0%nat])
    = Some (this', Returns l') ∧
    isEstimationConverged defaultConvergenceChecker (numberOfIterations l')
      (rmsResidualHistory l') = true.
Proof.
  assert (Hreturns :
            match estimationRun 5 (linearInput64 0 false) defaultConvergenceChecker
                    (linearState64 [0%nat]) with
            | Some (_, Returns _) => true
            | _ => false
            end = true) by (vm_compute; reflexivity).
  destruct (estimationRun 5 (linearInput64 0 false) defaultConvergenceChecker
              (linearState64 [0%nat])) as [[this' [l'|f]]|] eqn:Hrun;
    [|discriminate Hreturns..].
  exists this', l'. split; [reflexivity|].
  exact (proj1 (estimationRun_stops_at_first_convergence 5 (linearInput64 0 false)
                  defaultConvergenceChecker (linearState64 [0%nat]) this' l' Hrun)).
Defined.

Lemma iterations_without_improvement_have_no_effect_witness :
  estimateParameters 5 (linearInput64 0 false) defaultConvergenceChecker (linearState64 [0%nat])
  = estimateParameters 5 (linearInput64 0 false)
      (@newEstimationConvergenceChecker binary64 5 0%float 0x1.79ca10c924223p-67%float 0)
      (linearState64 [0%nat]).
Proof.
  apply (iterations_without_improvement_have_no_effect (Sc:=binary64) (Ext:=linearModel64)).
  - repeat split.
  - apply (newEstimationConvergenceChecker_representable (Sc:=binary64)).
  - apply (newEstimationConvergenceChecker_representable (Sc:=binary64)).
  - vm_compute. discriminate.
Defined.

Lemma state_history_is_not_returned_witness :
  let this := @Build_OrbitDeterminationManager binary64 linearModel64 true [0%float]
                (observationManagers_ (linearState64 [0%nat])) [0%float] in
  estimateParameters 5 (withSaveStateHistory true (linearInput64 0 false))
    defaultConvergenceChecker this
  = estimateParameters 5 (withSaveStateHistory false (linearInput64 0 false))
      defaultConvergenceChecker this.
Proof.
  intros this.
  exact (state_history_is_not_returned 5 (linearInput64 0 false) defaultConvergenceChecker
           this eq_refl).
Defined.
